(** * fastgltf: parser enumerations and the base64 decoders

  A shallow embedding of the parser header (the [Error], [Extensions],
  [Options] and [Category] enumerations and their operators) and of
  [base64_decode.cpp] (the AVX2, SSE4 and scalar base64 decoders and their
  run-time dispatch), with the properties the specification states about
  them and further properties of the code. *)

From Stdlib Require Import String Ascii.
From Stdlib Require Import ZArith List Bool Lia.
From Stdlib Require Import Floats.SpecFloat.
Import ListNotations.

Local Open Scope Z_scope.

(** ** Enumerations of the parser header *)

Module Parser.

(** [enum class Error : uint64_t].  Every enumerator is a constructor;
    [error_value] is [to_underlying]. Two enumerators carry the value 6. *)
Inductive Error : Type :=
| Error_None
| InvalidPath
| MissingExtensions
| UnknownRequiredExtension
| InvalidJson
| InvalidGltf
| InvalidOrMissingAssetField
| InvalidGLB
| MissingField
| MissingExternalBuffer
| UnsupportedVersion.

Definition error_value (e : Error) : Z :=
  match e with
  | Error_None => 0
  | InvalidPath => 1
  | MissingExtensions => 2
  | UnknownRequiredExtension => 3
  | InvalidJson => 4
  | InvalidGltf => 5
  | InvalidOrMissingAssetField => 6
  | InvalidGLB => 6
  | MissingField => 7
  | MissingExternalBuffer => 8
  | UnsupportedVersion => 9
  end.

Definition all_errors : list Error :=
  [Error_None; InvalidPath; MissingExtensions; UnknownRequiredExtension;
   InvalidJson; InvalidGltf; InvalidOrMissingAssetField; InvalidGLB;
   MissingField; MissingExternalBuffer; UnsupportedVersion].

(** [enum class Category : uint32_t].  The enumerators are defined one
    after the other, each from a shifted literal and the enumerators above
    it, exactly as in the header. *)
Definition None_       : Z := 0.
Definition Buffers     : Z := Z.shiftl 1 0.
Definition BufferViews : Z := Z.lor (Z.shiftl 1 1) Buffers.
Definition Accessors   : Z := Z.lor (Z.shiftl 1 2) BufferViews.
Definition Images      : Z := Z.lor (Z.shiftl 1 3) BufferViews.
Definition Samplers    : Z := Z.shiftl 1 4.
Definition Textures    : Z := Z.lor (Z.lor (Z.shiftl 1 5) Images) Samplers.
Definition Animations  : Z := Z.lor (Z.shiftl 1 6) Accessors.
Definition Cameras     : Z := Z.shiftl 1 7.
Definition Materials   : Z := Z.lor (Z.shiftl 1 8) Textures.
Definition Meshes      : Z := Z.lor (Z.lor (Z.shiftl 1 9) Accessors) Materials.
(* Also depends on Nodes: the header writes the literal [1 << 11] here. *)
Definition Skins       : Z := Z.lor (Z.lor (Z.shiftl 1 10) Accessors) (Z.shiftl 1 11).
Definition Nodes       : Z := Z.lor (Z.lor (Z.lor (Z.shiftl 1 11) Cameras) Meshes) Skins.
Definition Scenes      : Z := Z.lor (Z.shiftl 1 12) Nodes.
Definition Asset       : Z := Z.shiftl 1 13.
Definition All         : Z := Z.lor (Z.lor Asset Scenes) Animations.

(** The fourteen sections, as names. *)
Inductive Category : Type :=
| CBuffers | CBufferViews | CAccessors | CImages | CSamplers | CTextures
| CAnimations | CCameras | CMaterials | CMeshes | CSkins | CNodes
| CScenes | CAsset.

Definition all_categories : list Category :=
  [CBuffers; CBufferViews; CAccessors; CImages; CSamplers; CTextures;
   CAnimations; CCameras; CMaterials; CMeshes; CSkins; CNodes; CScenes;
   CAsset].

(** [to_underlying] of an enumerator. *)
Definition category_value (c : Category) : Z :=
  match c with
  | CBuffers => Buffers
  | CBufferViews => BufferViews
  | CAccessors => Accessors
  | CImages => Images
  | CSamplers => Samplers
  | CTextures => Textures
  | CAnimations => Animations
  | CCameras => Cameras
  | CMaterials => Materials
  | CMeshes => Meshes
  | CSkins => Skins
  | CNodes => Nodes
  | CScenes => Scenes
  | CAsset => Asset
  end.

(** The shift amount of the literal [1 << k] that distinguishes an
    enumerator from the others. *)
Definition category_shift (c : Category) : Z :=
  match c with
  | CBuffers => 0
  | CBufferViews => 1
  | CAccessors => 2
  | CImages => 3
  | CSamplers => 4
  | CTextures => 5
  | CAnimations => 6
  | CCameras => 7
  | CMaterials => 8
  | CMeshes => 9
  | CSkins => 10
  | CNodes => 11
  | CScenes => 12
  | CAsset => 13
  end.

Definition own_bit (c : Category) : Z := Z.shiftl 1 (category_shift c).

(** [operator&] and [operator|] on [Category]. *)
Definition category_and (a b : Z) : Z := Z.land a b.
Definition category_or (a b : Z) : Z := Z.lor a b.

(** The dependency list the specification gives for the sections: which
    sections a section reads cross-references into. *)
Definition spec_depends_on (c : Category) : list Category :=
  match c with
  | CBufferViews => [CBuffers]
  | CAccessors => [CBufferViews]
  | CImages => [CBufferViews]
  | CTextures => [CImages; CSamplers]
  | CMaterials => [CTextures]
  | CMeshes => [CAccessors; CMaterials]
  | CSkins => [CAccessors; CNodes]
  | CNodes => [CCameras; CMeshes; CSkins]
  | CScenes => [CNodes]
  | CAnimations => [CAccessors]
  | CBuffers | CSamplers | CCameras | CAsset => []
  end.

(** The sections the specification names as the dependency closure of
    [Meshes]. *)
Definition in_meshes_closure (c : Category) : bool :=
  match c with
  | CBuffers | CBufferViews | CAccessors | CImages | CSamplers | CTextures
  | CMaterials | CMeshes => true
  | CAnimations | CSkins | CCameras | CNodes | CScenes | CAsset => false
  end.

(** The one dependency the header writes as a raw literal. *)
Definition is_skins_on_nodes (c d : Category) : bool :=
  match c, d with
  | CSkins, CNodes => true
  | _, _ => false
  end.




(** [enum class Extensions : uint64_t]. *)
Inductive Extensions : Type :=
| Extensions_None
| KHR_texture_transform
| KHR_texture_basisu
| MSFT_texture_dds
| KHR_mesh_quantization
| EXT_meshopt_compression.

Definition extensions_value (e : Extensions) : Z :=
  match e with
  | Extensions_None => 0
  | KHR_texture_transform => Z.shiftl 1 1
  | KHR_texture_basisu => Z.shiftl 1 2
  | MSFT_texture_dds => Z.shiftl 1 3
  | KHR_mesh_quantization => Z.shiftl 1 4
  | EXT_meshopt_compression => Z.shiftl 1 5
  end.

(** [operator&] and [operator|] on [Extensions], on the underlying
    [uint64_t]. *)
Definition extensions_and (a b : Z) : Z := Z.land a b.
Definition extensions_or (a b : Z) : Z := Z.lor a b.

(** The value [f1 | f2 | ... | None] of a list of enumerators. *)
Definition extensions_of (fs : list Extensions) : Z :=
  fold_right (fun f acc => extensions_or (extensions_value f) acc)
             (extensions_value Extensions_None) fs.

(** [enum class Options : uint64_t]. *)
Inductive Options : Type :=
| Options_None
| AllowDouble
| DontRequireValidAssetMember
| DontUseSIMD
| LoadGLBBuffers
| LoadExternalBuffers.

Definition options_value (o : Options) : Z :=
  match o with
  | Options_None => 0
  | AllowDouble => Z.shiftl 1 0
  | DontRequireValidAssetMember => Z.shiftl 1 1
  | DontUseSIMD => Z.shiftl 1 2
  | LoadGLBBuffers => Z.shiftl 1 3
  | LoadExternalBuffers => Z.shiftl 1 4
  end.

(** [operator&] and [operator|] on [Options]. *)
Definition options_and (a b : Z) : Z := Z.land a b.
Definition options_or (a b : Z) : Z := Z.lor a b.

Definition options_of (os : list Options) : Z :=
  fold_right (fun o acc => options_or (options_value o) acc)
             (options_value Options_None) os.

End Parser.


(** ** Machine integers, bytes and outcomes *)

Module Machine.

(** [size_t] is 64 bits wide; arithmetic on it wraps. *)
Definition size_t_modulus : Z := 2 ^ 64.
Definition wrap64 (z : Z) : Z := z mod size_t_modulus.

(** Conversion to [uint8_t]. *)
Definition u8 (z : Z) : Z := z mod 256.

(** A byte, a 16-bit and a 32-bit pattern read as a signed number. *)
Definition s8 (b : Z) : Z := if b <? 128 then b else b - 256.
Definition s16 (w : Z) : Z := if w <? 32768 then w else w - 65536.
Definition u16 (z : Z) : Z := z mod 65536.
Definition u32 (z : Z) : Z := z mod 4294967296.

Definition is_byte (b : Z) : Prop := 0 <= b < 256.
Definition is_byteb (b : Z) : bool := (0 <=? b) && (b <? 256).

(** What can go wrong in the C++ code: an access outside a vector is
    undefined behaviour, as is converting a [float] that does not fit into
    [size_t].  [OutOfFuel] is an artefact of the embedding of loops and is
    shown not to occur. *)
Inductive fault : Type :=
| OutOfBoundsRead (index size : Z)
| OutOfBoundsLoad (pos width size : Z)
| OutOfBoundsStore (pos width size : Z)
| OutOfBoundsCopy (count size : Z)
| FloatOutOfRange
| OutOfFuel.

Inductive outcome (A : Type) : Type :=
| Returned (a : A)
| Undefined (f : fault).

Arguments Returned {A} a.
Arguments Undefined {A} f.

Definition bind {A B : Type} (x : outcome A) (k : A -> outcome B) : outcome B :=
  match x with
  | Returned a => k a
  | Undefined f => Undefined f
  end.

Definition returns {A : Type} (x : outcome A) : bool :=
  match x with Returned _ => true | Undefined _ => false end.

(** [std::vector<uint8_t> v(n)]: [n] zero bytes. *)
Definition vector_of_size (n : Z) : list Z := repeat 0 (Z.to_nat n).

Definition size (v : list Z) : Z := Z.of_nat (List.length v).

(** [v[i]] with [i] a [size_t]. *)
Definition index (v : list Z) (i : Z) : outcome Z :=
  if (0 <=? i) && (i <? size v)
  then Returned (nth (Z.to_nat i) v 0)
  else Undefined (OutOfBoundsRead i (size v)).

(** [std::memcpy(v.data(), src, count)] into a vector. *)
Definition memcpy (v src : list Z) : outcome (list Z) :=
  if size src <=? size v
  then Returned (src ++ skipn (List.length src) v)
  else Undefined (OutOfBoundsCopy (size src) (size v)).

(** An unaligned load of [width] bytes at [&v[pos]]. *)
Definition load (v : list Z) (pos : Z) (width : nat) : outcome (list Z) :=
  if (0 <=? pos) && (pos + Z.of_nat width <=? size v)
  then Returned (firstn width (skipn (Z.to_nat pos) v))
  else Undefined (OutOfBoundsLoad pos (Z.of_nat width) (size v)).

(** An unaligned store of the bytes [x] at [v.data() + pos]. *)
Definition store (v : list Z) (pos : Z) (x : list Z) : outcome (list Z) :=
  if (0 <=? pos) && (pos + size x <=? size v)
  then Returned (firstn (Z.to_nat pos) v ++ x
                   ++ skipn (Z.to_nat pos + List.length x) v)
  else Undefined (OutOfBoundsStore pos (size x) (size v)).

(** [v.resize(n)]. *)
Definition resize (v : list Z) (n : Z) : list Z :=
  firstn (Z.to_nat n) v ++ repeat 0 (Z.to_nat n - List.length v).

(** The bytes of a [std::string_view]. *)
Definition byte_of_ascii (c : ascii) : Z := Z.of_N (N_of_ascii c).
Definition ascii_of_byte (b : Z) : ascii := ascii_of_N (Z.to_N b).
Definition bytes_of_string (s : string) : list Z :=
  map byte_of_ascii (list_ascii_of_string s).
Definition string_of_bytes (l : list Z) : string :=
  string_of_list_ascii (map ascii_of_byte l).

End Machine.

Declare Scope outcome_scope.
Notation "x <- a ;; k" := (Machine.bind a (fun x => k))
  (at level 61, a at next level, right associativity) : outcome_scope.

(** ** The vector intrinsics used by the decoders

    A vector register is the list of its bytes, lowest address first: 16
    bytes for [__m128i], 32 for [__m256i].  The operations below follow the
    lane structure of the instructions; the same definition serves both
    widths where the instruction treats its 128-bit halves alike. *)

Module Simd.
Import Machine.

Definition zip_with {A B C : Type} (f : A -> B -> C) (a : list A) (b : list B)
  : list C :=
  map (fun p => f (fst p) (snd p)) (combine a b).

(** A group of bytes read as a little-endian number, and back. *)
Fixpoint le_value (bs : list Z) : Z :=
  match bs with
  | [] => 0
  | b :: r => b + 256 * le_value r
  end.

Fixpoint le_bytes (n : nat) (z : Z) : list Z :=
  match n with
  | O => []
  | S n' => z mod 256 :: le_bytes n' (z / 256)
  end.

(** Signed saturation to 16 bits. *)
Definition saturate16 (z : Z) : Z :=
  if z <? -32768 then -32768 else if 32767 <? z then 32767 else z.

(** [_mm_set1_epi8], [_mm256_set1_epi8]: [lanes] copies of a [char]. *)
Definition set1_epi8 (lanes : nat) (c : Z) : list Z := repeat (u8 c) lanes.
Definition mm_set1_epi8 : Z -> list Z := set1_epi8 16.
Definition mm256_set1_epi8 : Z -> list Z := set1_epi8 32.

(** [_mm_set1_epi32], [_mm256_set1_epi32]. *)
Definition set1_epi32 (lanes : nat) (x : Z) : list Z :=
  concat (repeat (le_bytes 4 (u32 x)) lanes).
Definition mm_set1_epi32 : Z -> list Z := set1_epi32 4.
Definition mm256_set1_epi32 : Z -> list Z := set1_epi32 8.

(** [_mm_setr_epi8], [_mm256_setr_epi8]: the [char] arguments in memory
    order. *)
Definition setr_epi8 (cs : list Z) : list Z := map u8 cs.

(** [_mm_srli_epi32], [_mm256_srli_epi32]: logical right shift of each
    32-bit lane. *)
Fixpoint srli_epi32 (a : list Z) (imm8 : Z) : list Z :=
  match a with
  | b0 :: b1 :: b2 :: b3 :: r =>
      le_bytes 4 (if 31 <? imm8 then 0
                  else Z.shiftr (le_value [b0; b1; b2; b3]) imm8)
        ++ srli_epi32 r imm8
  | _ => []
  end.

(** [_mm_and_si128], [_mm256_and_si256]. *)
Definition and_si (a b : list Z) : list Z := zip_with Z.land a b.

(** [_mm_shuffle_epi8] on one 128-bit lane. *)
Definition mm_shuffle_epi8 (a b : list Z) : list Z :=
  map (fun i => if Z.testbit i 7 then 0
                else nth (Z.to_nat (Z.land i 15)) a 0) b.

(** [_mm256_shuffle_epi8]: each 128-bit half shuffled on its own. *)
Definition mm256_shuffle_epi8 (a b : list Z) : list Z :=
  mm_shuffle_epi8 (firstn 16 a) (firstn 16 b)
    ++ mm_shuffle_epi8 (skipn 16 a) (skipn 16 b).

(** [_mm_cmpeq_epi8], [_mm256_cmpeq_epi8]. *)
Definition cmpeq_epi8 (a b : list Z) : list Z :=
  zip_with (fun x y => if x =? y then 255 else 0) a b.

(** [_mm_blendv_epi8], [_mm256_blendv_epi8]: the byte of [b] where the top
    bit of the mask byte is set, the byte of [a] elsewhere. *)
Definition blendv_epi8 (a b mask : list Z) : list Z :=
  zip_with (fun xy m => if Z.testbit m 7 then snd xy else fst xy)
           (combine a b) mask.

(** [_mm_add_epi8], [_mm256_add_epi8]. *)
Definition add_epi8 (a b : list Z) : list Z :=
  zip_with (fun x y => u8 (x + y)) a b.

(** [_mm_maddubs_epi16], [_mm256_maddubs_epi16]: unsigned bytes of [a]
    times signed bytes of [b], adjacent products added with signed
    saturation into 16-bit lanes. *)
Fixpoint maddubs_epi16 (a b : list Z) : list Z :=
  match a, b with
  | a0 :: a1 :: ra, b0 :: b1 :: rb =>
      le_bytes 2 (u16 (saturate16 (a0 * s8 b0 + a1 * s8 b1)))
        ++ maddubs_epi16 ra rb
  | _, _ => []
  end.

(** [_mm_madd_epi16], [_mm256_madd_epi16]: signed 16-bit lanes multiplied,
    adjacent products added into 32-bit lanes. *)
Fixpoint madd_epi16 (a b : list Z) : list Z :=
  match a, b with
  | a0 :: a1 :: a2 :: a3 :: ra, b0 :: b1 :: b2 :: b3 :: rb =>
      le_bytes 4 (u32 (s16 (le_value [a0; a1]) * s16 (le_value [b0; b1])
                       + s16 (le_value [a2; a3]) * s16 (le_value [b2; b3])))
        ++ madd_epi16 ra rb
  | _, _ => []
  end.

(** [_mm256_extracti128_si256]. *)
Definition mm256_extracti128_si256 (a : list Z) (imm8 : Z) : list Z :=
  if imm8 =? 0 then firstn 16 a else firstn 16 (skipn 16 a).

End Simd.

(** ** Single-precision arithmetic

    [static_cast<float>], the product with [0.75f], [std::floor] and the
    conversion back to [size_t], over the IEEE-754 binary32 format as the
    Standard Library specifies it. *)

Module Float32.
Import Machine.

Definition prec : Z := 24.
Definition emax : Z := 128.

(** [static_cast<float>(n)] for a [size_t] [n]: round to nearest, ties to
    even. *)
Definition of_size_t (n : Z) : spec_float := binary_normalize prec emax n 0 false.

(** The literal [0.75f], which is 12582912 * 2^-24. *)
Definition three_quarters : spec_float := S754_finite false 12582912 (-24).

Definition mul (x y : spec_float) : spec_float := SFmul prec emax x y.

(** [std::floor] on [float]. *)
Definition floor (x : spec_float) : spec_float :=
  match x with
  | S754_finite s m e =>
      if 0 <=? e then x
      else
        let d := 2 ^ (- e) in
        if s then binary_normalize prec emax (- ((Zpos m + d - 1) / d)) 0 true
        else binary_normalize prec emax (Zpos m / d) 0 false
  | _ => x
  end.

(** The implicit conversion of a [float] to [size_t]: the fraction is
    dropped; a value that does not fit is undefined behaviour. *)
Definition to_size_t (x : spec_float) : outcome Z :=
  match x with
  | S754_zero _ => Returned 0
  | S754_finite s m e =>
      let magnitude := if 0 <=? e then Zpos m * 2 ^ e else Zpos m / 2 ^ (- e) in
      let v := if s then - magnitude else magnitude in
      if (0 <=? v) && (v <? size_t_modulus) then Returned v
      else Undefined FloatOutOfRange
  | _ => Undefined FloatOutOfRange
  end.

End Float32.

(** ** The decoders of [base64_decode.cpp] *)

Module Base64.
Import Machine Simd.
Local Open Scope outcome_scope.

(** A [std::string_view] is the list of its bytes. *)
Definition string_view : Type := list Z.
Definition sv (s : string) : string_view := bytes_of_string s.

(** The character ['=']. *)
Definition pad_char : Z := 61.

Definition lookup_pshufb_bitmask (input : list Z) : list Z :=
  let higher_nibble := and_si (srli_epi32 input 4) (mm256_set1_epi8 0x0f) in
  let shiftLUT := setr_epi8
    [0;   0;  19;   4; -65; -65; -71; -71;
     0;   0;   0;   0;   0;   0;   0;   0;

     0;   0;  19;   4; -65; -65; -71; -71;
     0;   0;   0;   0;   0;   0;   0;   0] in
  let sh     := mm256_shuffle_epi8 shiftLUT higher_nibble in
  let eq_2f  := cmpeq_epi8 input (mm256_set1_epi8 0x2f) in
  let shift  := blendv_epi8 sh (mm256_set1_epi8 16) eq_2f in
  add_epi8 input shift.

Definition pack_ints (input : list Z) : list Z :=
  let merge := maddubs_epi16 input (mm256_set1_epi32 0x01400140) in
  madd_epi16 merge (mm256_set1_epi32 0x00011000).

(** The search for the amount of padding: the loop
    [for (auto i = encodedSize - 1; i >= (encodedSize - 3); --i)] of both
    vector decoders, all of it in [size_t]. *)
Fixpoint scan_padding (fuel : nat) (input : list Z) (encodedSize i padding : Z)
  : outcome Z :=
  match fuel with
  | O => Undefined OutOfFuel
  | S fuel' =>
      if wrap64 (encodedSize - 3) <=? i then
        c <- index input i ;;
        if c =? pad_char
        then scan_padding fuel' input encodedSize (wrap64 (i - 1))
                          (wrap64 (padding + 1))
        else Returned padding
      else Returned padding
  end.

(** Fuel for the scan, which tests its condition four times at most. *)
Definition scan_fuel (input : list Z) : nat := 4 + length input.

(** The size of the padded copy: [(encodedSize + dataSetSize - 1) & -dataSetSize]. *)
Definition padded_size (encodedSize dataSetSize : Z) : Z :=
  Z.land (wrap64 (encodedSize + dataSetSize - 1)) (wrap64 (- dataSetSize)).

(** [ret.resize(std::floor(static_cast<float>(encodedSize - padding) * 0.75f))]. *)
Definition decoded_size (encodedSize padding : Z) : outcome Z :=
  let diff := Float32.of_size_t (wrap64 (encodedSize - padding)) in
  Float32.to_size_t (Float32.floor (Float32.mul diff Float32.three_quarters)).

Definition avx2_shuf : list Z :=
  setr_epi8
    [2;  1;  0;
     6;  5;  4;
     10;  9;  8;
     14; 13; 12;
     -1; -1; -1; -1;
     2;  1;  0;
     6;  5;  4;
     10;  9;  8;
     14; 13; 12;
     -1; -1; -1; -1].

(** The block loop of [avx2_decode]. *)
Fixpoint avx2_blocks (fuel : nat) (input : list Z) (length pos : Z)
         (ret : list Z) (out : Z) : outcome (list Z) :=
  match fuel with
  | O => Undefined OutOfFuel
  | S fuel' =>
      if pos <? length then
        in_ <- load input pos 32 ;;
        let values := lookup_pshufb_bitmask in_ in
        let merged := pack_ints values in
        let shuffled := mm256_shuffle_epi8 merged avx2_shuf in
        ret <- store ret out (mm256_extracti128_si256 shuffled 0) ;;
        ret <- store ret (out + 12) (mm256_extracti128_si256 shuffled 1) ;;
        avx2_blocks fuel' input length (wrap64 (pos + 32)) ret (out + 24)
      else Returned ret
  end.

Definition avx2_decode (encoded : string_view) : outcome (list Z) :=
  let dataSetSize := 32 in
  let encodedSize := size encoded in
  input <- memcpy (vector_of_size (padded_size encodedSize dataSetSize)) encoded ;;
  padding <- scan_padding (scan_fuel input) input encodedSize
                          (wrap64 (encodedSize - 1)) 0 ;;
  let length := size input in
  ret <- avx2_blocks (S (List.length input)) input length 0
                     (vector_of_size length) 0 ;;
  n <- decoded_size encodedSize padding ;;
  Returned (resize ret n).

Definition sse4_lookup_pshufb_bitmask (input : list Z) : list Z :=
  let higher_nibble := and_si (srli_epi32 input 4) (mm_set1_epi8 0x0f) in
  let shiftLUT := setr_epi8
    [0;   0;  19;   4; -65; -65; -71; -71;
     0;   0;   0;   0;   0;   0;   0;   0] in
  let sh     := mm_shuffle_epi8 shiftLUT higher_nibble in
  let eq_2f  := cmpeq_epi8 input (mm_set1_epi8 0x2f) in
  let shift  := blendv_epi8 sh (mm_set1_epi8 16) eq_2f in
  add_epi8 input shift.

Definition sse4_pack_ints (input : list Z) : list Z :=
  let merge := maddubs_epi16 input (mm_set1_epi32 0x01400140) in
  madd_epi16 merge (mm_set1_epi32 0x00011000).

Definition sse4_shuf : list Z :=
  setr_epi8
    [2;  1;  0;
     6;  5;  4;
     10;  9;  8;
     14; 13; 12;
     -1; -1; -1; -1].

(** The block loop of [sse4_decode].  [_mm_load_si128] also asks for a
    16-byte aligned address; addresses are not part of this model. *)
Fixpoint sse4_blocks (fuel : nat) (input : list Z) (length pos : Z)
         (ret : list Z) (out : Z) : outcome (list Z) :=
  match fuel with
  | O => Undefined OutOfFuel
  | S fuel' =>
      if pos <? length then
        in_ <- load input pos 16 ;;
        let values := sse4_lookup_pshufb_bitmask in_ in
        let merged := sse4_pack_ints values in
        let shuffled := mm_shuffle_epi8 merged sse4_shuf in
        ret <- store ret out shuffled ;;
        sse4_blocks fuel' input length (wrap64 (pos + 16)) ret (out + 12)
      else Returned ret
  end.

Definition sse4_decode (encoded : string_view) : outcome (list Z) :=
  let dataSetSize := 16 in
  let encodedSize := size encoded in
  input <- memcpy (vector_of_size (padded_size encodedSize dataSetSize)) encoded ;;
  padding <- scan_padding (scan_fuel input) input encodedSize
                          (wrap64 (encodedSize - 1)) 0 ;;
  let length := size input in
  ret <- sse4_blocks (S (List.length input)) input length 0
                     (vector_of_size length) 0 ;;
  n <- decoded_size encodedSize padding ;;
  Returned (resize ret n).

Definition base64_chars : list Z :=
  bytes_of_string
    "ABCDEFGHIJKLMNOPQRSTUVWXYZabcdefghijklmnopqrstuvwxyz0123456789+/".

(** [std::string::npos] and [std::string::find(char)]. *)
Definition npos : Z := size_t_modulus - 1.

Fixpoint find_from (s : list Z) (ch : Z) (pos : Z) : Z :=
  match s with
  | [] => npos
  | c :: r => if s8 c =? ch then pos else find_from r ch (pos + 1)
  end.

Definition find (s : list Z) (ch : Z) : Z := find_from s ch 0.

(** [sixBitChars[i] = base64_chars.find(static_cast<int8_t>(sixBitChars[i]))]:
    the position, or [npos], cut down to [uint8_t]. *)
Definition find_six_bit (c : Z) : Z := u8 (find base64_chars (s8 c)).

Fixpoint array_set (a : list Z) (i : nat) (x : Z) : list Z :=
  match a, i with
  | [], _ => []
  | _ :: r, O => x :: r
  | y :: r, S i' => y :: array_set r i' x
  end.

(** The three assignments to [eightBitChars]. *)
Definition eight_bit_chars (sixBitChars : list Z) : list Z :=
  let s0 := nth 0 sixBitChars 0 in
  let s1 := nth 1 sixBitChars 0 in
  let s2 := nth 2 sixBitChars 0 in
  let s3 := nth 3 sixBitChars 0 in
  [ u8 (Z.shiftl s0 2 + Z.shiftr (Z.land s1 0x30) 4);
    u8 (Z.shiftl (Z.land s1 0xf) 4 + Z.shiftr (Z.land s2 0x3c) 2);
    u8 (Z.shiftl (Z.land s2 0x3) 6 + s3) ].

(** The [while (in_len-- && (encoded[pos] != '='))] loop.  [rest] is the
    input from [pos] on, so [in_len] is its length; the result is the state
    [(sixBitChars, i, ret)] the loop leaves behind. *)
Fixpoint fallback_loop (rest : list Z) (sixBitChars : list Z) (i : Z)
         (ret : list Z) : list Z * Z * list Z :=
  match rest with
  | [] => (sixBitChars, i, ret)
  | c :: rest' =>
      if c =? pad_char then (sixBitChars, i, ret)
      else
        let sixBitChars := array_set sixBitChars (Z.to_nat i) c in
        let i := i + 1 in
        if i =? 4 then
          let sixBitChars := map find_six_bit sixBitChars in
          let eightBitChars := eight_bit_chars sixBitChars in
          fallback_loop rest' sixBitChars 0 (ret ++ eightBitChars)
        else fallback_loop rest' sixBitChars i ret
  end.

(** [for (size_t j = i; j < 4; j++) sixBitChars[j] = 0]. *)
Definition clear_from (sixBitChars : list Z) (i : Z) : list Z :=
  firstn (Z.to_nat i) sixBitChars
    ++ repeat 0 (List.length sixBitChars - Z.to_nat i).

(** The code after the loop: a last group that is not complete is filled
    with zeros, translated, and [i - 1] of its bytes are appended. *)
Definition fallback_finish (state : list Z * Z * list Z) : outcome (list Z) :=
  let '(sixBitChars, i, ret) := state in
  if negb (i =? 0) then
    let sixBitChars := clear_from sixBitChars i in
    let sixBitChars := map find_six_bit sixBitChars in
    let eightBitChars := eight_bit_chars sixBitChars in
    Returned (ret ++ firstn (Z.to_nat (wrap64 (i - 1))) eightBitChars)
  else Returned ret.

(** [ret.reserve] changes no value and is left out. *)
Definition fallback_decode (encoded : string_view) : outcome (list Z) :=
  fallback_finish (fallback_loop encoded [0; 0; 0; 0] 0 []).

(** What [simdjson::get_available_implementations()] reports: for each of
    the two names looked up, whether the implementation exists and, if so,
    whether the running CPU supports it. *)
Record cpu : Type := {
  haswell : option bool;
  westmere : option bool
}.

Definition supported (impl : option bool) : bool :=
  match impl with
  | Some supported_by_runtime_system => supported_by_runtime_system
  | None => false
  end.

Definition decode (c : cpu) (encoded : string_view) : outcome (list Z) :=
  if supported (haswell c) then avx2_decode encoded
  else if supported (westmere c) then sse4_decode encoded
  else fallback_decode encoded.

(** The reference encoder of the round-trip property: standard base64
    (RFC 4648) over the alphabet of [base64_chars], three bytes to four
    characters, the last group filled up with ['=']. *)
Definition encode_char (sextet : Z) : Z := nth (Z.to_nat sextet) base64_chars 0.

Fixpoint encode (b : list Z) : string_view :=
  match b with
  | [] => []
  | [x] => [encode_char (x / 4); encode_char ((x mod 4) * 16); pad_char; pad_char]
  | [x; y] =>
      [encode_char (x / 4); encode_char ((x mod 4) * 16 + y / 16);
       encode_char ((y mod 16) * 4); pad_char]
  | x :: y :: z :: r =>
      [encode_char (x / 4); encode_char ((x mod 4) * 16 + y / 16);
       encode_char ((y mod 16) * 4 + z / 64); encode_char (z mod 64)]
        ++ encode r
  end.

End Base64.



(** ** What the vector code computes, character by character

    The functions below restate the effect of the vector pipeline on one
    character and on one group of four characters; the theorems relate the
    decoders to them. *)

Module Meaning.
Import Machine Simd Base64.

(** One 128-bit lane of [shiftLUT]. *)
Definition lut128 : list Z :=
  setr_epi8 [0; 0; 19; 4; -65; -65; -71; -71; 0; 0; 0; 0; 0; 0; 0; 0].

(** The byte added to a character by [lookup_pshufb_bitmask]: 16 for
    ['/'], the table entry of the higher nibble for all others. *)
Definition shift_of (c : Z) : Z :=
  if c =? 0x2f then 16 else nth (Z.to_nat (c / 16)) lut128 0.

Definition sextet_of (c : Z) : Z := u8 (c + shift_of c).

(** The 32-bit lane [pack_ints] builds from four translated bytes. *)
Definition pack_word (a0 a1 a2 a3 : Z) : Z :=
  (a0 * 64 + a1) * 4096 + (a2 * 64 + a3).

(** The three bytes the final shuffle keeps of a lane. *)
Definition quad_bytes (c0 c1 c2 c3 : Z) : list Z :=
  let w := pack_word (sextet_of c0) (sextet_of c1) (sextet_of c2) (sextet_of c3) in
  [ (w / 256 / 256) mod 256; (w / 256) mod 256; w mod 256 ].

(** All groups of four characters of an input; a last group that is short
    is filled with zero bytes, as the padded copy of the input is. *)
Fixpoint quads (v : list Z) : list Z :=
  match v with
  | [] => []
  | [c0] => quad_bytes c0 0 0 0
  | [c0; c1] => quad_bytes c0 c1 0 0
  | [c0; c1; c2] => quad_bytes c0 c1 c2 0
  | c0 :: c1 :: c2 :: c3 :: r => quad_bytes c0 c1 c2 c3 ++ quads r
  end.

(** The number of ['='] a list starts with, and the number of ['='] at
    the end of a string. *)
Fixpoint leading_pads (v : list Z) : Z :=
  match v with
  | [] => 0
  | c :: r => if c =? pad_char then 1 + leading_pads r else 0
  end.

Definition trailing_pads (v : list Z) : Z := leading_pads (rev v).

(** The number of ['='] at the end of a string, looking at its last three
    characters only. *)
Definition trailing_pads3 (v : list Z) : Z := leading_pads (firstn 3 (rev v)).

(** What the padding scan of the vector decoders leaves in [padding] when
    it ends: strings shorter than three characters are not scanned at all. *)
Definition scanned_padding (v : list Z) : Z :=
  if size v <? 3 then 0 else trailing_pads3 v.

(** The strings on which the scan reads [input[SIZE_MAX]]: the empty string
    and the string of exactly three ['=']. *)
Definition scan_overruns (v : list Z) : bool :=
  (size v =? 0) || ((size v =? 3) && (trailing_pads3 v =? 3)).

(** What a vector decoder with blocks of [w] bytes does on a string: it
    overruns in the scan, or returns the groups of four cut to the size the
    single-precision product gives. *)
Definition vector_decode (w : Z) (v : list Z) : outcome (list Z) :=
  if scan_overruns v
  then Undefined (OutOfBoundsRead (size_t_modulus - 1) (w * ((size v + w - 1) / w)))
  else bind (decoded_size (size v) (scanned_padding v))
            (fun n => Returned (resize (quads v) n)).

(** The lookup on one byte with every vector operation written out: the
    comparison mask, the blend on its top bit, the shuffle on the nibble. *)
Definition translate_byte (c : Z) : Z :=
  u8 (c + (if Z.testbit (if c =? u8 47 then 255 else 0) 7 then u8 16
           else if Z.testbit (c / 16) 7 then 0
                else nth (Z.to_nat (Z.land (c / 16) 15)) lut128 0)).

(** The 32-bit lanes [pack_ints] builds from translated bytes. *)
Fixpoint pack_lanes (l : list Z) : list Z :=
  match l with
  | a0 :: a1 :: a2 :: a3 :: r => le_bytes 4 (pack_word a0 a1 a2 a3) ++ pack_lanes r
  | _ => []
  end.

(** All values of a byte, for checks by enumeration. *)
Definition all_byte_values : list Z := map Z.of_nat (seq 0 256).

(** What is checked of a six-bit value by enumeration: the vector lookup
    and the scalar table both invert [encode_char], which never yields
    ['=']. *)
Definition sextet_ok (v : Z) : bool :=
  (64 <=? v)
  || ((sextet_of (encode_char v) =? v)
      && negb (encode_char v =? pad_char)
      && is_byteb (encode_char v)
      && (find_six_bit (encode_char v) =? v)).

(** The masks and shifts of [eight_bit_chars] on a six-bit value. *)
Definition sextet_bits_ok (v : Z) : bool :=
  (64 <=? v)
  || ((Z.shiftr (Z.land v 0x30) 4 =? v / 16) && (Z.land v 0xf =? v mod 16)
      && (Z.shiftr (Z.land v 0x3c) 2 =? v / 4) && (Z.land v 0x3 =? v mod 4)).

(** Membership in the alphabet of [base64_chars]. *)
Definition in_alphabet (c : Z) : bool := existsb (Z.eqb c) base64_chars.

(** Canonical base64 (RFC 4648): groups of four characters of the alphabet;
    the last group may end in one or two ['='], and then the bits of its
    last character that encode no data are zero. *)
Fixpoint canonical_base64 (s : list Z) : bool :=
  match s with
  | [] => true
  | c0 :: c1 :: c2 :: c3 :: r =>
      in_alphabet c0 && in_alphabet c1 &&
      match r with
      | [] =>
          if c3 =? pad_char then
            if c2 =? pad_char then find_six_bit c1 mod 16 =? 0
            else in_alphabet c2 && (find_six_bit c2 mod 4 =? 0)
          else in_alphabet c2 && in_alphabet c3
      | _ => in_alphabet c2 && in_alphabet c3 && canonical_base64 r
      end
  | _ => false
  end.

(** The bytes a canonical string stands for. *)
Fixpoint bytes_of_base64 (s : list Z) : list Z :=
  match s with
  | c0 :: c1 :: c2 :: c3 :: r =>
      let v0 := find_six_bit c0 in
      let v1 := find_six_bit c1 in
      let v2 := find_six_bit c2 in
      let v3 := find_six_bit c3 in
      (if c3 =? pad_char then
         if c2 =? pad_char then [v0 * 4 + v1 / 16]
         else [v0 * 4 + v1 / 16; (v1 mod 16) * 16 + v2 / 4]
       else [v0 * 4 + v1 / 16; (v1 mod 16) * 16 + v2 / 4; (v2 mod 4) * 64 + v3])
        ++ bytes_of_base64 r
  | _ => []
  end.

(** What is checked of a character of the alphabet by enumeration. *)
Definition alphabet_ok (c : Z) : bool :=
  (0 <=? find_six_bit c) && (find_six_bit c <? 64)
  && (encode_char (find_six_bit c) =? c) && negb (c =? pad_char).

(** The base64 encoding of 8388613 zero bytes: the letter ['A'] 11184818
    times, then two ['=']. *)
Definition long_valid_input : list Z :=
  repeat 65 (Z.to_nat 11184817) ++ [65; pad_char; pad_char].

(** The part of a string before its first ['=']. *)
Fixpoint before_pad (s : list Z) : list Z :=
  match s with
  | [] => []
  | c :: r => if c =? pad_char then [] else c :: before_pad r
  end.

(** What the scalar decoder makes of a string without ['=']: three bytes
    of every group of four characters, and of a last group of [i] < 4
    characters, filled with zero bytes, the first [i - 1] bytes. *)
Fixpoint scalar_groups (s : list Z) : list Z :=
  match s with
  | [] => []
  | [c0] => []
  | [c0; c1] => firstn 1 (eight_bit_chars (map find_six_bit [c0; c1; 0; 0]))
  | [c0; c1; c2] => firstn 2 (eight_bit_chars (map find_six_bit [c0; c1; c2; 0]))
  | c0 :: c1 :: c2 :: c3 :: r =>
      eight_bit_chars (map find_six_bit [c0; c1; c2; c3]) ++ scalar_groups r
  end.

(** Base64 by its shape alone: groups of four characters of the alphabet,
    the last of which may end in one or two ['=']. *)
Fixpoint well_formed_base64 (s : list Z) : bool :=
  match s with
  | [] => true
  | c0 :: c1 :: c2 :: c3 :: r =>
      in_alphabet c0 && in_alphabet c1 &&
      match r with
      | [] =>
          if c3 =? pad_char then
            if c2 =? pad_char then true else in_alphabet c2
          else in_alphabet c2 && in_alphabet c3
      | _ => in_alphabet c2 && in_alphabet c3 && well_formed_base64 r
      end
  | _ => false
  end.

(** The bits that encode no data, in the last character before the
    padding of the last group, are all ones: four bits before two ['='],
    two bits before one. *)
Fixpoint pad_bits_all_ones (s : list Z) : bool :=
  match s with
  | c0 :: c1 :: c2 :: c3 :: r =>
      match r with
      | [] =>
          if c3 =? pad_char then
            if c2 =? pad_char then find_six_bit c1 mod 16 =? 15
            else find_six_bit c2 mod 4 =? 3
          else false
      | _ => pad_bits_all_ones r
      end
  | _ => false
  end.

(** What is checked of a byte by enumeration: [find_six_bit] gives the
    position of a character of the alphabet, which is below 64 and is where
    [base64_chars] holds the character, and 255 for every other byte. *)
Definition find_ok (c : Z) : bool :=
  if in_alphabet c
  then (0 <=? find_six_bit c) && (find_six_bit c <? 64)
       && (nth (Z.to_nat (find_six_bit c)) base64_chars 0 =? c)
       && (sextet_of c =? find_six_bit c)
  else find_six_bit c =? 255.

End Meaning.

Import Machine Simd Base64 Meaning.

Ltac invert_bytes :=
  repeat match goal with
         | H : Forall is_byte (_ :: _) |- _ => inversion H; clear H; subst
         end.

(** * Properties *)

(** ** The enumerations *)

Section ParserFacts.
Import Parser.

(** C2 (as stated, refuted): [Skins] depends on [Nodes] in the dependency
    list, but the value of [Skins] does not include every bit of the value
    of [Nodes]: it holds bits 0, 1, 2, 10 and 11 only. *)
Lemma skins_does_not_include_nodes :
  In CNodes (spec_depends_on CSkins) /\
  category_and (category_value CSkins) (category_value CNodes) <> category_value CNodes.
Proof.
  split.
  - simpl. right. left. reflexivity.
  - vm_compute. discriminate.
Qed.

(** C2 (amended): for every dependency [c] on [d] of the list other than
    [Skins] on [Nodes], the value of [c] includes every bit of the value of
    [d]; the value of [Skins] includes the distinguishing bit [1 << 11] of
    [Nodes] and nothing else of [Nodes] beyond what [Skins] holds anyway. *)
Theorem category_includes_dependencies (c d : Category) :
  In d (spec_depends_on c) ->
  if is_skins_on_nodes c d
  then category_and (category_value c) (own_bit d) = own_bit d /\
       category_and (category_value c) (category_value d) = category_value c
  else category_and (category_value c) (category_value d) = category_value d.
Proof.
  destruct c; cbn [spec_depends_on In]; intros H;
    repeat (destruct H as [<- | H]); try contradiction;
    cbn [is_skins_on_nodes]; try split; reflexivity.
Qed.

Lemma category_includes_dependencies_witness :
  In CMaterials (spec_depends_on CMeshes) /\
  category_and (category_value CMeshes) (category_value CMaterials)
  = category_value CMaterials.
Proof.
  split.
  - simpl. right. left. reflexivity.
  - apply (category_includes_dependencies CMeshes CMaterials).
    simpl. right. left. reflexivity.
Defined.

(** C7: the value of [Meshes] holds the distinguishing bit of a section
    exactly when the section is one of [Buffers], [BufferViews],
    [Accessors], [Images], [Samplers], [Textures], [Materials] and [Meshes];
    it holds no bit besides these eight. *)
Theorem meshes_closure_exact :
  (forall c : Category,
     category_and Meshes (own_bit c)
     = if in_meshes_closure c then own_bit c else None_) /\
  (forall c : Category, Z.testbit Meshes (category_shift c) = in_meshes_closure c) /\
  Meshes = fold_right category_or None_
             (map own_bit (filter in_meshes_closure all_categories)).
Proof.
  split; [ | split ].
  - intros c; destruct c; reflexivity.
  - intros c; destruct c; reflexivity.
  - reflexivity.
Qed.

(** C8: [InvalidOrMissingAssetField] and [InvalidGLB] both have the value
    6; the enumerators have the values 0 to 9 as listed, and two different
    enumerators have equal values only when they are these two. *)
Theorem error_values :
  map error_value all_errors = [0; 1; 2; 3; 4; 5; 6; 6; 7; 8; 9] /\
  error_value InvalidOrMissingAssetField = 6 /\
  error_value InvalidGLB = 6 /\
  (forall e1 e2 : Error,
     error_value e1 = error_value e2 <->
     (e1 = e2 \/
      (e1 = InvalidOrMissingAssetField /\ e2 = InvalidGLB) \/
      (e1 = InvalidGLB /\ e2 = InvalidOrMissingAssetField))).
Proof.
  repeat split; try reflexivity.
  - destruct e1, e2; simpl; intros H;
      first [ left; reflexivity | discriminate H | right; left; split; reflexivity
            | right; right; split; reflexivity ].
  - intros [H | [[H1 H2] | [H1 H2]]]; subst; reflexivity.
Qed.

(** C9: [All] is the bitwise union of the fourteen flags, which is all of
    the bits 0 to 13. *)
Theorem all_is_union_of_flags :
  All = fold_right category_or None_ (map category_value all_categories) /\
  All = fold_right category_or None_ (map own_bit all_categories) /\
  All = 2 ^ 14 - 1 /\
  (forall c : Category, category_and All (category_value c) = category_value c).
Proof.
  repeat split; try reflexivity.
  intros c; destruct c; reflexivity.
Qed.

End ParserFacts.

(** ** The base64 decoders *)

(** *** Lists, bytes and lanes *)

Lemma zip_with_repeat_r {A B C} (f : A -> B -> C) (l : list A) (x : B) (n : nat) :
  (length l <= n)%nat ->
  zip_with f l (repeat x n) = map (fun a => f a x) l.
Proof.
  revert n; induction l as [|a l IH]; intros [|n] H; simpl in *; try lia; auto.
  unfold zip_with in *. simpl. f_equal. apply IH. lia.
Qed.

Lemma zip_with_map_map {A B C D} (f : B -> C -> D) (g : A -> B) (h : A -> C) (l : list A) :
  zip_with f (map g l) (map h l) = map (fun a => f (g a) (h a)) l.
Proof.
  unfold zip_with. induction l; simpl; congruence.
Qed.

Lemma zip_with_map_r {A B C} (f : A -> B -> C) (h : A -> B) (l : list A) :
  zip_with f l (map h l) = map (fun a => f a (h a)) l.
Proof.
  unfold zip_with. induction l; simpl; congruence.
Qed.

Lemma combine_map_repeat {A B C} (g : A -> B) (l : list A) (x : C) (n : nat) :
  (length l <= n)%nat ->
  combine (map g l) (repeat x n) = map (fun a => (g a, x)) l.
Proof.
  revert n; induction l as [|a l IH]; intros [|n] H; simpl in *; try lia; auto.
  f_equal. apply IH. lia.
Qed.

Section ListInduction.
Context {A : Type} (P : list A -> Prop).
Hypothesis P0 : P [].
Hypothesis P1 : forall a, P [a].
Hypothesis P2 : forall a b, P [a; b].
Hypothesis P3 : forall a b c, P [a; b; c].
Hypothesis P4 : forall a b c d r, P r -> P (a :: b :: c :: d :: r).

Lemma list_ind4 : forall l, P l.
Proof.
  fix IH 1.
  intros [|a [|b [|c [|d r]]]].
  - exact P0.
  - exact (P1 a).
  - exact (P2 a b).
  - exact (P3 a b c).
  - exact (P4 a b c d r (IH r)).
Qed.
End ListInduction.

Lemma div16_low (b r : Z) : 0 <= b < 256 -> (b + 256 * r) / 16 = b / 16 + 16 * r.
Proof.
  intros H. replace (b + 256 * r) with (b + (16 * r) * 16) by ring.
  rewrite Z.div_add by lia. reflexivity.
Qed.

Lemma byte_of_shifted (b r : Z) :
  0 <= b < 256 -> Z.land (((b + 256 * r) / 16) mod 256) 15 = b / 16.
Proof.
  intros H. rewrite div16_low by assumption.
  change 15 with (Z.ones 4). rewrite Z.land_ones by lia. change (2 ^ 4) with 16.
  assert (Hq : 0 <= b / 16 < 16) by (split; [apply Z.div_pos | apply Z.div_lt_upper_bound]; lia).
  revert Hq. generalize (b / 16). clear. intros q Hq.
  Z.div_mod_to_equations. lia.
Qed.

Lemma next_of_shifted (b r : Z) :
  0 <= b < 256 -> (b + 256 * r) / 16 / 256 = r / 16.
Proof.
  intros H. rewrite Z.div_div by lia. change (16 * 256) with (256 * 16).
  rewrite <- Z.div_div by lia.
  replace (b + 256 * r) with (b + r * 256) by ring. rewrite Z.div_add by lia.
  rewrite (Z.div_small b 256) by lia. reflexivity.
Qed.

Lemma srli_lane (b0 b1 b2 b3 : Z) :
  is_byte b0 -> is_byte b1 -> is_byte b2 -> is_byte b3 ->
  map (fun x => Z.land x 15) (le_bytes 4 (Z.shiftr (le_value [b0; b1; b2; b3]) 4))
  = [b0 / 16; b1 / 16; b2 / 16; b3 / 16].
Proof.
  unfold is_byte. intros H0 H1 H2 H3.
  rewrite Z.shiftr_div_pow2 by lia. change (2 ^ 4) with 16.
  cbn [le_bytes le_value map].
  rewrite Z.mul_0_r, Z.add_0_r.
  repeat (rewrite byte_of_shifted by assumption;
          rewrite next_of_shifted by assumption).
  replace (b3 / 16 mod 256) with (b3 / 16)
    by (symmetry; apply Z.mod_small; split;
        [apply Z.div_pos | apply Z.div_lt_upper_bound]; lia).
  change 15 with (Z.ones 4). rewrite Z.land_ones by lia. change (2 ^ 4) with 16.
  rewrite Z.mod_small
    by (split; [apply Z.div_pos | apply Z.div_lt_upper_bound]; lia).
  reflexivity.
Qed.

Lemma length4_mod {A} (a b c d : A) (r : list A) :
  (length (a :: b :: c :: d :: r) mod 4 = 0 -> length r mod 4 = 0)%nat.
Proof.
  cbn [length]. intros H.
  replace (S (S (S (S (length r))))) with (length r + 1 * 4)%nat in H by lia.
  rewrite Nat.Div0.mod_add in H. exact H.
Qed.

Lemma srli_nibbles (l : list Z) :
  Forall is_byte l -> (length l mod 4 = 0)%nat ->
  map (fun x => Z.land x 15) (srli_epi32 l 4) = map (fun c => c / 16) l.
Proof.
  induction l as [ | a | a b | a b c | a b c d r IH ] using list_ind4;
    intros HB HL; try discriminate HL; [ reflexivity | ].
  invert_bytes.
  change (srli_epi32 (a :: b :: c :: d :: r) 4)
    with (le_bytes 4 (Z.shiftr (le_value [a; b; c; d]) 4) ++ srli_epi32 r 4).
  rewrite map_app, srli_lane by assumption.
  rewrite IH; [ reflexivity | assumption | ].
  exact (length4_mod _ _ _ _ _ HL).
Qed.

Lemma srli_length (l : list Z) k :
  (length l mod 4 = 0)%nat -> length (srli_epi32 l k) = length l.
Proof.
  induction l as [ | a | a b | a b c | a b c d r IH ] using list_ind4;
    intros HL; try discriminate HL; [ reflexivity | ].
  change (srli_epi32 (a :: b :: c :: d :: r) k)
    with (le_bytes 4 (if 31 <? k then 0 else Z.shiftr (le_value [a; b; c; d]) k) ++ srli_epi32 r k).
  rewrite length_app. cbn [le_bytes length]. rewrite IH; [reflexivity | ].
  exact (length4_mod _ _ _ _ _ HL).
Qed.

Lemma in_all_byte_values (c : Z) : is_byte c -> In c all_byte_values.
Proof.
  intros [H0 H1]. unfold all_byte_values.
  apply in_map_iff. exists (Z.to_nat c). split; [ lia | ].
  apply in_seq. lia.
Qed.

Lemma for_all_bytes (P : Z -> bool) :
  forallb P all_byte_values = true -> forall c, is_byte c -> P c = true.
Proof.
  intros H c Hc. rewrite forallb_forall in H. apply H, in_all_byte_values, Hc.
Qed.

Lemma map_ext_bytes (f g : Z -> Z) (l : list Z) :
  (forall c, is_byte c -> f c = g c) -> Forall is_byte l -> map f l = map g l.
Proof.
  intros H HB. induction HB; simpl; [ reflexivity | ].
  rewrite H by assumption. f_equal. assumption.
Qed.

Lemma translate_byte_sextet (c : Z) : is_byte c -> translate_byte c = sextet_of c.
Proof.
  intros Hc.
  apply Z.eqb_eq.
  revert c Hc. apply for_all_bytes. vm_compute. reflexivity.
Qed.

Lemma lookup_meaning_gen (n : nat) (l : list Z) :
  Forall is_byte l -> (length l mod 4 = 0)%nat -> (length l <= n)%nat ->
  add_epi8 l
    (blendv_epi8
       (mm_shuffle_epi8 lut128 (and_si (srli_epi32 l 4) (set1_epi8 n 15)))
       (set1_epi8 n 16)
       (cmpeq_epi8 l (set1_epi8 n 47)))
  = map sextet_of l.
Proof.
  intros HB HL Hn.
  unfold and_si, set1_epi8.
  rewrite zip_with_repeat_r by (rewrite srli_length; assumption).
  change (u8 15) with 15.
  rewrite srli_nibbles by assumption.
  unfold mm_shuffle_epi8. rewrite map_map.
  unfold cmpeq_epi8. rewrite zip_with_repeat_r by assumption.
  unfold blendv_epi8. rewrite combine_map_repeat by assumption.
  rewrite zip_with_map_map. cbn [fst snd].
  unfold add_epi8. rewrite zip_with_map_r.
  apply map_ext_bytes; [ | assumption ].
  intros c Hc. rewrite <- translate_byte_sextet by assumption. reflexivity.
Qed.

Lemma sse4_lookup_meaning (l : list Z) :
  Forall is_byte l -> (length l mod 4 = 0)%nat -> (length l <= 16)%nat ->
  sse4_lookup_pshufb_bitmask l = map sextet_of l.
Proof.
  intros. unfold sse4_lookup_pshufb_bitmask. 
  apply (lookup_meaning_gen 16); assumption.
Qed.

Lemma mm256_shuffle_same_lut (lut idx : list Z) :
  length lut = 16%nat ->
  mm256_shuffle_epi8 (lut ++ lut) idx = mm_shuffle_epi8 lut idx.
Proof.
  intros E. unfold mm256_shuffle_epi8.
  rewrite firstn_app, skipn_app, E.
  rewrite (firstn_all2 lut) by lia. rewrite (skipn_all2 lut) by lia.
  rewrite Nat.sub_diag, firstn_O, skipn_O, app_nil_r, app_nil_l.
  unfold mm_shuffle_epi8. rewrite <- map_app, firstn_skipn. reflexivity.
Qed.

Lemma avx2_lookup_meaning (l : list Z) :
  Forall is_byte l -> (length l mod 4 = 0)%nat -> (length l <= 32)%nat ->
  lookup_pshufb_bitmask l = map sextet_of l.
Proof.
  intros. unfold lookup_pshufb_bitmask.
  change (setr_epi8 _) with (lut128 ++ lut128).
  cbv zeta. rewrite mm256_shuffle_same_lut by reflexivity.
  apply (lookup_meaning_gen 32); assumption.
Qed.

Lemma maddubs_pair (a0 a1 : Z) :
  is_byte a0 -> is_byte a1 ->
  s16 (le_value (le_bytes 2 (u16 (saturate16 (a0 * s8 64 + a1 * s8 1)))))
  = a0 * 64 + a1.
Proof.
  unfold is_byte. intros H0 H1.
  change (s8 64) with 64. change (s8 1) with 1.
  unfold saturate16.
  destruct (Z.ltb_spec (a0 * 64 + a1 * 1) (-32768)); [ lia | ].
  destruct (Z.ltb_spec 32767 (a0 * 64 + a1 * 1)); [ lia | ].
  unfold u16. rewrite Z.mod_small by lia.
  cbn [le_bytes le_value].
  replace ((a0 * 64 + a1 * 1) mod 256 + 256 * ((a0 * 64 + a1 * 1) / 256 mod 256 + 256 * 0))
    with (a0 * 64 + a1).
  - unfold s16. destruct (Z.ltb_spec (a0 * 64 + a1) 32768); lia.
  - Z.div_mod_to_equations. lia.
Qed.

Lemma pack_lane (a0 a1 a2 a3 : Z) (ra rb rc : list Z) :
  is_byte a0 -> is_byte a1 -> is_byte a2 -> is_byte a3 ->
  madd_epi16 (maddubs_epi16 (a0 :: a1 :: a2 :: a3 :: ra) (64 :: 1 :: 64 :: 1 :: rb))
             (0 :: 16 :: 1 :: 0 :: rc)
  = le_bytes 4 (pack_word a0 a1 a2 a3) ++ madd_epi16 (maddubs_epi16 ra rb) rc.
Proof.
  intros H0 H1 H2 H3.
  change (maddubs_epi16 (a0 :: a1 :: a2 :: a3 :: ra) (64 :: 1 :: 64 :: 1 :: rb))
    with (le_bytes 2 (u16 (saturate16 (a0 * s8 64 + a1 * s8 1)))
          ++ le_bytes 2 (u16 (saturate16 (a2 * s8 64 + a3 * s8 1)))
          ++ maddubs_epi16 ra rb).
  pose proof (maddubs_pair a0 a1 H0 H1) as E01.
  pose proof (maddubs_pair a2 a3 H2 H3) as E23.
  revert E01 E23.
  generalize (u16 (saturate16 (a0 * s8 64 + a1 * s8 1))).
  generalize (u16 (saturate16 (a2 * s8 64 + a3 * s8 1))).
  intros w1 w0 E01 E23.
  cbn [le_bytes app] in *.
  cbn [madd_epi16].
  rewrite E01, E23.
  change (s16 (le_value [0; 16])) with 4096.
  change (s16 (le_value [1; 0])) with 1.
  unfold pack_word, u32.
  unfold is_byte in *.
  rewrite Z.mod_small by nia.
  rewrite Z.mul_1_r. reflexivity.
Qed.

Lemma pack_meaning_gen (l : list Z) : forall n : nat,
  Forall is_byte l -> (length l mod 4 = 0)%nat -> (length l <= 4 * n)%nat ->
  madd_epi16 (maddubs_epi16 l (set1_epi32 n 0x01400140)) (set1_epi32 n 0x00011000)
  = pack_lanes l.
Proof.
  induction l as [ | a | a b | a b c | a b c d r IH ] using list_ind4;
    intros n HB HL Hn; try discriminate HL.
  - destruct n; reflexivity.
  - destruct n as [ | n ]; [ cbn [length] in Hn; lia | ].
    invert_bytes.
    change (set1_epi32 (S n) 0x01400140) with (64 :: 1 :: 64 :: 1 :: set1_epi32 n 0x01400140).
    change (set1_epi32 (S n) 0x00011000) with (0 :: 16 :: 1 :: 0 :: set1_epi32 n 0x00011000).
    rewrite pack_lane by assumption.
    rewrite IH; [ reflexivity | assumption | exact (length4_mod _ _ _ _ _ HL) | ].
    cbn [length] in Hn. lia.
Qed.

Lemma is_byte_sextet_of (c : Z) : is_byte (sextet_of c).
Proof. unfold sextet_of, u8, is_byte. apply Z.mod_pos_bound. lia. Qed.

Lemma Forall_is_byte_sextets (l : list Z) : Forall is_byte (map sextet_of l).
Proof. apply Forall_forall. intros x Hx. apply in_map_iff in Hx as [c [<- _]]. apply is_byte_sextet_of. Qed.

Lemma sse4_values_meaning (l : list Z) :
  Forall is_byte l -> (length l mod 4 = 0)%nat -> (length l <= 16)%nat ->
  sse4_pack_ints (sse4_lookup_pshufb_bitmask l) = pack_lanes (map sextet_of l).
Proof.
  intros HB HL Hn. rewrite sse4_lookup_meaning by assumption.
  unfold sse4_pack_ints. apply (pack_meaning_gen _ 4).
  - apply Forall_is_byte_sextets.
  - rewrite length_map. assumption.
  - rewrite length_map. lia.
Qed.

Lemma avx2_values_meaning (l : list Z) :
  Forall is_byte l -> (length l mod 4 = 0)%nat -> (length l <= 32)%nat ->
  pack_ints (lookup_pshufb_bitmask l) = pack_lanes (map sextet_of l).
Proof.
  intros HB HL Hn. rewrite avx2_lookup_meaning by assumption.
  unfold pack_ints. apply (pack_meaning_gen _ 8).
  - apply Forall_is_byte_sextets.
  - rewrite length_map. assumption.
  - rewrite length_map. lia.
Qed.

(** One 16-byte block of [sse4_decode]. *)
Lemma sse4_block_meaning (blk : list Z) :
  Forall is_byte blk -> length blk = 16%nat ->
  mm_shuffle_epi8 (sse4_pack_ints (sse4_lookup_pshufb_bitmask blk)) sse4_shuf
  = quads blk ++ [0; 0; 0; 0].
Proof.
  intros HB HL. rewrite sse4_values_meaning; [ | assumption | rewrite HL; reflexivity | lia ].
  do 16 (destruct blk as [ | ? blk ]; [ discriminate HL | ]).
  destruct blk; [ | discriminate HL ].
  reflexivity.
Qed.

(** One 32-byte block of [avx2_decode]: the two stored halves. *)
Lemma avx2_block_meaning (blk : list Z) :
  Forall is_byte blk -> length blk = 32%nat ->
  let shuffled := mm256_shuffle_epi8 (pack_ints (lookup_pshufb_bitmask blk)) avx2_shuf in
  mm256_extracti128_si256 shuffled 0 = quads (firstn 16 blk) ++ [0; 0; 0; 0] /\
  mm256_extracti128_si256 shuffled 1 = quads (skipn 16 blk) ++ [0; 0; 0; 0].
Proof.
  intros HB HL. rewrite avx2_values_meaning; [ | assumption | rewrite HL; reflexivity | lia ].
  do 32 (destruct blk as [ | ? blk ]; [ discriminate HL | ]).
  destruct blk; [ | discriminate HL ].
  split; reflexivity.
Qed.

(** *** Memory lemmas *)

Lemma load_middle (done blk rest : list Z) (w : nat) :
  length blk = w ->
  load (done ++ blk ++ rest) (Z.of_nat (length done)) w = Returned blk.
Proof.
  intros E. unfold load, size.
  rewrite !length_app, E.
  destruct (Z.leb_spec 0 (Z.of_nat (length done))); [ | lia ].
  destruct (Z.leb_spec (Z.of_nat (length done) + Z.of_nat w)
                       (Z.of_nat (length done + (w + length rest)))); [ | lia ].
  cbn [andb]. rewrite Nat2Z.id.
  rewrite skipn_app, skipn_all, Nat.sub_diag, skipn_O, app_nil_l.
  rewrite firstn_app, <- E, firstn_all, Nat.sub_diag, firstn_O, app_nil_r.
  reflexivity.
Qed.

Lemma repeat_split {A} (x : A) (a b : nat) : repeat x (a + b) = repeat x a ++ repeat x b.
Proof. apply repeat_app. Qed.

Lemma store_into_zeros (A Q : list Z) (z : nat) :
  length Q = 12%nat -> (16 <= z)%nat ->
  store (A ++ repeat 0 z) (Z.of_nat (length A)) (Q ++ [0; 0; 0; 0])
  = Returned ((A ++ Q) ++ repeat 0 (z - 12)).
Proof.
  intros EQ Hz. unfold store, size.
  rewrite !length_app, repeat_length, EQ. cbn [length].
  destruct (Z.leb_spec 0 (Z.of_nat (length A))); [ | lia ].
  destruct (Z.leb_spec (Z.of_nat (length A) + Z.of_nat (12 + 4))
                       (Z.of_nat (length A + z))); [ | lia ].
  cbn [andb]. rewrite Nat2Z.id.
  rewrite firstn_app, firstn_all, Nat.sub_diag, firstn_O, app_nil_r.
  rewrite skipn_app.
  rewrite (skipn_all2 A) by lia. rewrite app_nil_l.
  replace (length A + (12 + 4) - length A)%nat with 16%nat by lia.
  replace z with (16 + (z - 16))%nat at 1 by lia.
  rewrite repeat_split, skipn_app, repeat_length.
  rewrite (skipn_all2 (repeat 0 16)) by (rewrite repeat_length; lia).
  rewrite Nat.sub_diag, skipn_O, app_nil_l.
  replace (z - 12)%nat with (4 + (z - 16))%nat by lia.
  rewrite repeat_split. cbn [repeat]. rewrite <- !app_assoc. reflexivity.
Qed.

(** *** The groups of four *)

Lemma quads_cons4 (a b c d : Z) (r : list Z) :
  quads (a :: b :: c :: d :: r) = quad_bytes a b c d ++ quads r.
Proof. destruct r; reflexivity. Qed.

Lemma quads_app (a b : list Z) :
  (length a mod 4 = 0)%nat -> quads (a ++ b) = quads a ++ quads b.
Proof.
  induction a as [ | x | x y | x y z | x y z w r IH ] using list_ind4;
    intros HL; try discriminate HL; [ reflexivity | ].
  change ((x :: y :: z :: w :: r) ++ b) with (x :: y :: z :: w :: (r ++ b)).
  rewrite !quads_cons4, IH, app_assoc; [ reflexivity | ].
  exact (length4_mod _ _ _ _ _ HL).
Qed.

Lemma quads_length4 (l : list Z) (k : nat) :
  length l = (4 * k)%nat -> length (quads l) = (3 * k)%nat.
Proof.
  revert k. induction l as [ | x | x y | x y z | x y z w r IH ] using list_ind4;
    intros k HL; cbn [length] in HL; try lia.
  - destruct k; [ reflexivity | lia ].
  - destruct k as [ | k ]; [ lia | ].
    rewrite quads_cons4, length_app. cbn [quad_bytes length].
    rewrite (IH k) by lia. lia.
Qed.

Lemma wrap64_small (z : Z) : 0 <= z < size_t_modulus -> wrap64 z = z.
Proof. intros H. unfold wrap64. apply Z.mod_small. exact H. Qed.

Lemma split_block {A} (w k : nat) (l : list A) :
  length l = (w * S k)%nat ->
  exists blk rest, l = blk ++ rest /\ length blk = w /\ length rest = (w * k)%nat.
Proof.
  intros HL. exists (firstn w l), (skipn w l).
  rewrite firstn_skipn, length_firstn, length_skipn. repeat split; lia.
Qed.

(** *** The block loops *)

Lemma sse4_blocks_spec (k : nat) : forall (rest done A : list Z) (fuel z : nat),
  length rest = (16 * k)%nat -> Forall is_byte rest -> (k < fuel)%nat ->
  Z.of_nat (length (done ++ rest)) < size_t_modulus ->
  (12 * k + 4 <= z)%nat ->
  sse4_blocks fuel (done ++ rest) (Z.of_nat (length (done ++ rest)))
              (Z.of_nat (length done)) (A ++ repeat 0 z) (Z.of_nat (length A))
  = Returned (A ++ quads rest ++ repeat 0 (z - 12 * k)).
Proof.
  induction k as [ | k IH ]; intros rest done A fuel z HL HB Hf Hlen Hz.
  - destruct rest; [ | discriminate HL ].
    destruct fuel as [ | fuel ]; [ lia | ].
    cbn [sse4_blocks]. rewrite app_nil_r, Z.ltb_irrefl.
    rewrite Nat.sub_0_r. reflexivity.
  - destruct fuel as [ | fuel ]; [ lia | ].
    destruct (split_block 16 k rest HL) as (blk & rest' & -> & Eblk & Erest).
    apply Forall_app in HB as [HBb HBr].
    cbn [sse4_blocks].
    rewrite !length_app in *.
    destruct (Z.ltb_spec (Z.of_nat (length done))
                         (Z.of_nat (length done + (length blk + length rest'))));
      [ | lia ].
    rewrite <- !length_app.
    rewrite load_middle by assumption. cbn [bind].
    rewrite sse4_block_meaning by assumption.
    rewrite store_into_zeros;
      [ | apply (quads_length4 blk 4); assumption | lia ].
    cbn [bind].
    rewrite wrap64_small by (unfold size_t_modulus in *; lia).
    replace (Z.of_nat (length done) + 16) with (Z.of_nat (length (done ++ blk)))
      by (rewrite length_app; lia).
    replace (Z.of_nat (length A) + 12) with (Z.of_nat (length (A ++ quads blk)))
      by (rewrite length_app, (quads_length4 blk 4) by assumption; lia).
    rewrite (app_assoc done blk rest').
    rewrite IH; try assumption; try lia.
    + rewrite quads_app by (rewrite Eblk; reflexivity).
      rewrite <- !app_assoc.
      replace (z - 12 - 12 * k)%nat with (z - 12 * S k)%nat by lia.
      reflexivity.
    + rewrite !length_app. lia.
Qed.

Lemma avx2_blocks_spec (k : nat) : forall (rest done A : list Z) (fuel z : nat),
  length rest = (32 * k)%nat -> Forall is_byte rest -> (k < fuel)%nat ->
  Z.of_nat (length (done ++ rest)) < size_t_modulus ->
  (24 * k + 4 <= z)%nat ->
  avx2_blocks fuel (done ++ rest) (Z.of_nat (length (done ++ rest)))
              (Z.of_nat (length done)) (A ++ repeat 0 z) (Z.of_nat (length A))
  = Returned (A ++ quads rest ++ repeat 0 (z - 24 * k)).
Proof.
  induction k as [ | k IH ]; intros rest done A fuel z HL HB Hf Hlen Hz.
  - destruct rest; [ | discriminate HL ].
    destruct fuel as [ | fuel ]; [ lia | ].
    cbn [avx2_blocks]. rewrite app_nil_r, Z.ltb_irrefl.
    rewrite Nat.sub_0_r. reflexivity.
  - destruct fuel as [ | fuel ]; [ lia | ].
    destruct (split_block 32 k rest HL) as (blk & rest' & -> & Eblk & Erest).
    apply Forall_app in HB as [HBb HBr].
    cbn [avx2_blocks].
    rewrite !length_app in *.
    destruct (Z.ltb_spec (Z.of_nat (length done))
                         (Z.of_nat (length done + (length blk + length rest'))));
      [ | lia ].
    rewrite <- !length_app.
    rewrite load_middle by assumption. cbn [bind].
    destruct (avx2_block_meaning blk HBb Eblk) as [E0 E1].
    cbv zeta in E0, E1. rewrite E0, E1. clear E0 E1.
    assert (Elo : length (quads (firstn 16 blk)) = 12%nat)
      by (apply (quads_length4 _ 4); rewrite length_firstn; lia).
    assert (Ehi : length (quads (skipn 16 blk)) = 12%nat)
      by (apply (quads_length4 _ 4); rewrite length_skipn; lia).
    rewrite store_into_zeros by (assumption || lia).
    cbn [bind].
    replace (Z.of_nat (length A) + 12)
      with (Z.of_nat (length (A ++ quads (firstn 16 blk))))
      by (rewrite length_app, Elo; lia).
    rewrite store_into_zeros by (assumption || lia).
    cbn [bind].
    rewrite wrap64_small by (unfold size_t_modulus in *; lia).
    replace (Z.of_nat (length done) + 32) with (Z.of_nat (length (done ++ blk)))
      by (rewrite length_app; lia).
    replace (Z.of_nat (length A) + 24)
      with (Z.of_nat (length ((A ++ quads (firstn 16 blk)) ++ quads (skipn 16 blk))))
      by (rewrite !length_app, Elo, Ehi; lia).
    rewrite (app_assoc done blk rest').
    rewrite IH; try assumption; try lia.
    + rewrite (quads_app blk rest') by (rewrite Eblk; reflexivity).
      rewrite <- (firstn_skipn 16 blk) at 3.
      rewrite (quads_app (firstn 16 blk))
        by (rewrite length_firstn, Eblk; reflexivity).
      rewrite <- !app_assoc.
      replace (z - 12 - 12 - 24 * k)%nat with (z - 24 * S k)%nat by lia.
      reflexivity.
    + rewrite !length_app. lia.
Qed.

(** *** The size of the padded copy *)

Lemma land_align_down (x k : Z) :
  0 <= k <= 64 -> 0 <= x < 2 ^ 64 ->
  Z.land x (2 ^ 64 - 2 ^ k) = 2 ^ k * (x / 2 ^ k).
Proof.
  intros Hk Hx.
  replace (2 ^ 64 - 2 ^ k) with (Z.shiftl (Z.ones (64 - k)) k).
  2:{ rewrite Z.shiftl_mul_pow2, Z.ones_equiv by lia.
      rewrite <- Z.sub_1_r, Z.mul_sub_distr_r, <- Z.pow_add_r by lia.
      replace (64 - k + k) with 64 by lia. lia. }
  rewrite <- Z.shiftr_div_pow2, Z.mul_comm, <- Z.shiftl_mul_pow2 by lia.
  apply Z.bits_inj'. intros n Hn.
  rewrite Z.land_spec, !Z.shiftl_spec by lia.
  destruct (Z.ltb_spec n k) as [Hlt | Hge].
  - rewrite !(Z.testbit_neg_r _ (n - k)) by lia. apply andb_false_r.
  - rewrite Z.shiftr_spec by lia. replace (n - k + k) with n by lia.
    rewrite Z.testbit_ones_nonneg by lia.
    destruct (Z.ltb_spec (n - k) (64 - k)) as [Hin | Hout].
    + apply andb_true_r.
    + rewrite andb_false_r. symmetry.
      destruct (Z.eq_dec x 0) as [-> | Hx0]; [ apply Z.bits_0 | ].
      apply Z.bits_above_log2; [ lia | ].
      apply Z.log2_lt_pow2; [ lia | ].
      assert (2 ^ 64 <= 2 ^ n) by (apply Z.pow_le_mono_r; lia). lia.
Qed.

Lemma padded_size_spec (n w k : Z) :
  w = 2 ^ k -> 0 < k <= 64 -> 0 <= n -> n + w - 1 < 2 ^ 64 ->
  padded_size n w = w * ((n + w - 1) / w).
Proof.
  intros -> Hk Hn Hlt. unfold padded_size, wrap64, size_t_modulus.
  assert (0 < 2 ^ k) by (apply Z.pow_pos_nonneg; lia).
  assert (2 ^ k <= 2 ^ 64) by (apply Z.pow_le_mono_r; lia).
  rewrite (Z.mod_small (n + 2 ^ k - 1)) by lia.
  replace ((- 2 ^ k) mod 2 ^ 64) with (2 ^ 64 - 2 ^ k).
  - apply land_align_down; lia.
  - apply Z.mod_unique with (q := -1); lia.
Qed.

(** *** The padding scan *)

Lemma index_app_nth (front l : list Z) (k : Z) :
  0 <= k < size l ->
  index (front ++ l) (Z.of_nat (length front) + k) = Returned (nth (Z.to_nat k) l 0).
Proof.
  unfold index, size. intros Hk. rewrite length_app.
  destruct (Z.leb_spec 0 (Z.of_nat (length front) + k)); [ | lia ].
  destruct (Z.ltb_spec (Z.of_nat (length front) + k)
                       (Z.of_nat (length front + length l))); [ | lia ].
  cbn [andb].
  replace (Z.to_nat (Z.of_nat (length front) + k))
    with (length front + Z.to_nat k)%nat by lia.
  rewrite app_nth2_plus. reflexivity.
Qed.

Lemma index_beyond (v : list Z) (i : Z) :
  size v <= i -> index v i = Undefined (OutOfBoundsRead i (size v)).
Proof.
  intros H. unfold index.
  destruct (Z.ltb_spec i (size v)); [ lia | ].
  rewrite andb_false_r. reflexivity.
Qed.

Lemma scan_step (f : nat) (input : list Z) (N i p : Z) :
  scan_padding (S f) input N i p
  = if wrap64 (N - 3) <=? i then
      bind (index input i)
           (fun c => if c =? pad_char
                     then scan_padding f input N (wrap64 (i - 1)) (wrap64 (p + 1))
                     else Returned p)
    else Returned p.
Proof. reflexivity. Qed.

(** One iteration that reads inside the string. *)
Lemma scan_read (f : nat) (front l : list Z) (N k p : Z) :
  0 <= k < size l ->
  wrap64 (N - 3) <= Z.of_nat (length front) + k ->
  scan_padding (S f) (front ++ l) N (Z.of_nat (length front) + k) p
  = if nth (Z.to_nat k) l 0 =? pad_char
    then scan_padding f (front ++ l) N (wrap64 (Z.of_nat (length front) + k - 1))
                      (wrap64 (p + 1))
    else Returned p.
Proof.
  intros Hk Hb. rewrite scan_step.
  destruct (Z.leb_spec (wrap64 (N - 3)) (Z.of_nat (length front) + k)); [ | lia ].
  rewrite index_app_nth by assumption. reflexivity.
Qed.

Lemma last_three {A} (l : list A) :
  (3 <= length l)%nat ->
  exists front c b a, l = front ++ [c; b; a].
Proof.
  intros H. rewrite <- (rev_involutive l).
  assert (H' : (3 <= length (rev l))%nat) by (rewrite length_rev; exact H).
  destruct (rev l) as [ | a [ | b [ | c r ] ] ]; cbn [length] in H'; try lia.
  exists (rev r), c, b, a. cbn [rev]. rewrite <- !app_assoc. reflexivity.
Qed.

Lemma trailing_pads3_last_three (front : list Z) (c b a : Z) :
  trailing_pads3 (front ++ [c; b; a]) = leading_pads [a; b; c].
Proof.
  unfold trailing_pads3. rewrite rev_app_distr. reflexivity.
Qed.

Lemma scan_padding_empty (pad : list Z) :
  size pad < size_t_modulus ->
  scan_padding (scan_fuel pad) pad 0 (wrap64 (0 - 1)) 0
  = Undefined (OutOfBoundsRead (size_t_modulus - 1) (size pad)).
Proof.
  intros H. unfold scan_fuel. cbn [Nat.add]. rewrite scan_step.
  change (wrap64 (0 - 3) <=? wrap64 (0 - 1)) with true. cbv iota.
  change (wrap64 (0 - 1)) with (size_t_modulus - 1).
  rewrite index_beyond by lia. reflexivity.
Qed.

Lemma scan_padding_three (c b a : Z) (pad : list Z) :
  size pad + 3 < size_t_modulus ->
  scan_padding (scan_fuel ([c; b; a] ++ pad)) ([c; b; a] ++ pad) 3 (wrap64 (3 - 1)) 0
  = if (leading_pads [a; b; c] =? 3)
    then Undefined (OutOfBoundsRead (size_t_modulus - 1) (size ([c; b; a] ++ pad)))
    else Returned (leading_pads [a; b; c]).
Proof.
  intros H. unfold scan_fuel. cbn [app length leading_pads Nat.add].
  change (wrap64 (3 - 1)) with (Z.of_nat (length (@nil Z)) + 2).
  rewrite (scan_read _ [] (c :: b :: a :: pad));
    [ | unfold size; cbn [length]; lia | change (wrap64 (3 - 3)) with 0; cbn [length]; lia ].
  change (nth (Z.to_nat 2) (c :: b :: a :: pad) 0) with a.
  destruct (a =? pad_char); [ | reflexivity ].
  change (wrap64 (Z.of_nat (length (@nil Z)) + 2 - 1)) with (Z.of_nat (length (@nil Z)) + 1).
  rewrite (scan_read _ [] (c :: b :: a :: pad));
    [ | unfold size; cbn [length]; lia | change (wrap64 (3 - 3)) with 0; cbn [length]; lia ].
  change (nth (Z.to_nat 1) (c :: b :: a :: pad) 0) with b.
  destruct (b =? pad_char); [ | reflexivity ].
  change (wrap64 (Z.of_nat (length (@nil Z)) + 1 - 1)) with (Z.of_nat (length (@nil Z)) + 0).
  rewrite (scan_read _ [] (c :: b :: a :: pad));
    [ | unfold size; cbn [length]; lia | change (wrap64 (3 - 3)) with 0; cbn [length]; lia ].
  change (nth (Z.to_nat 0) (c :: b :: a :: pad) 0) with c.
  destruct (c =? pad_char); [ | reflexivity ].
  change (1 + (1 + (1 + 0)) =? 3) with true. cbv iota.
  rewrite scan_step.
  change (wrap64 (3 - 3) <=? wrap64 (Z.of_nat (length (@nil Z)) + 0 - 1)) with true.
  cbv iota. change (wrap64 (Z.of_nat (length (@nil Z)) + 0 - 1)) with (size_t_modulus - 1).
  cbn [app].
  rewrite index_beyond; [ reflexivity | ].
  unfold size in *. cbn [length]. lia.
Qed.

Lemma scan_padding_long (front : list Z) (c b a : Z) (pad : list Z) :
  (1 <= length front)%nat ->
  size (front ++ [c; b; a] ++ pad) < size_t_modulus ->
  scan_padding (scan_fuel (front ++ [c; b; a] ++ pad)) (front ++ [c; b; a] ++ pad)
               (size (front ++ [c; b; a])) (wrap64 (size (front ++ [c; b; a]) - 1)) 0
  = Returned (leading_pads [a; b; c]).
Proof.
  intros Hf Hlt. unfold scan_fuel. cbn [app leading_pads Nat.add].
  assert (En : size (front ++ [c; b; a]) = Z.of_nat (length front) + 3)
    by (unfold size; rewrite length_app; cbn [length]; lia).
  unfold size in Hlt. rewrite length_app in Hlt. cbn [app length] in Hlt.
  rewrite En. unfold size_t_modulus in Hlt.
  set (n := Z.of_nat (length front)) in *.
  assert (Hn : 1 <= n) by (subst n; lia).
  assert (Eb : wrap64 (n + 3 - 3) = n)
    by (rewrite wrap64_small by (unfold size_t_modulus; lia); lia).
  assert (E2 : wrap64 (n + 3 - 1) = n + 2)
    by (rewrite wrap64_small by (unfold size_t_modulus; lia); lia).
  assert (E1 : wrap64 (n + 2 - 1) = n + 1)
    by (rewrite wrap64_small by (unfold size_t_modulus; lia); lia).
  assert (E0 : wrap64 (n + 1 - 1) = n + 0)
    by (rewrite wrap64_small by (unfold size_t_modulus; lia); lia).
  assert (Em : wrap64 (n + 0 - 1) = n - 1)
    by (rewrite wrap64_small by (unfold size_t_modulus; lia); lia).
  rewrite E2. subst n.
  rewrite scan_read; [ | unfold size; cbn [length]; lia | lia ].
  change (nth (Z.to_nat 2) (c :: b :: a :: pad) 0) with a.
  destruct (a =? pad_char); [ | reflexivity ].
  rewrite E1.
  rewrite scan_read; [ | unfold size; cbn [length]; lia | lia ].
  change (nth (Z.to_nat 1) (c :: b :: a :: pad) 0) with b.
  destruct (b =? pad_char); [ | reflexivity ].
  rewrite E0.
  rewrite scan_read; [ | unfold size; cbn [length]; lia | lia ].
  change (nth (Z.to_nat 0) (c :: b :: a :: pad) 0) with c.
  destruct (c =? pad_char); [ | reflexivity ].
  rewrite Em.
  rewrite scan_step, Eb.
  destruct (Z.leb_spec (Z.of_nat (length front)) (Z.of_nat (length front) - 1)); [ lia | ].
  reflexivity.
Qed.

(** The scan on every string: it overruns on the empty string and on
    ["==="], and yields [scanned_padding] on all others. *)
Lemma scan_padding_spec (s pad : list Z) :
  size (s ++ pad) < size_t_modulus ->
  scan_padding (scan_fuel (s ++ pad)) (s ++ pad) (size s) (wrap64 (size s - 1)) 0
  = if scan_overruns s
    then Undefined (OutOfBoundsRead (size_t_modulus - 1) (size (s ++ pad)))
    else Returned (scanned_padding s).
Proof.
  intros Hlt.
  destruct s as [ | x [ | y [ | z s' ] ] ].
  - apply scan_padding_empty. exact Hlt.
  - reflexivity.
  - reflexivity.
  - destruct (last_three (x :: y :: z :: s')) as (front & c & b & a & E);
      [ cbn [length]; lia | ].
    rewrite E in *. clear E x y z s'.
    unfold scan_overruns, scanned_padding.
    rewrite trailing_pads3_last_three.
    destruct front as [ | x front ].
    + cbn [app] in *. change (size [c; b; a]) with 3.
      cbn [Z.eqb Z.ltb Z.compare orb andb].
      apply (scan_padding_three c b a pad).
      unfold size in *. cbn [length] in *. lia.
    + replace (size ((x :: front) ++ [c; b; a]) =? 0) with false.
      2:{ symmetry. apply Z.eqb_neq. unfold size. rewrite length_app. cbn [length]. lia. }
      replace (size ((x :: front) ++ [c; b; a]) =? 3) with false.
      2:{ symmetry. apply Z.eqb_neq. unfold size. rewrite length_app. cbn [length]. lia. }
      replace (size ((x :: front) ++ [c; b; a]) <? 3) with false.
      2:{ symmetry. apply Z.ltb_ge. unfold size. rewrite length_app. cbn [length]. lia. }
      cbn [orb andb]. rewrite <- app_assoc.
      apply scan_padding_long; [ cbn [length]; lia | ].
      rewrite <- app_assoc in Hlt. exact Hlt.
Qed.

(** *** Zero filling *)

Lemma quads_zeros (k : nat) : quads (repeat 0 (4 * k)) = repeat 0 (3 * k).
Proof.
  induction k as [ | k IH ]; [ reflexivity | ].
  replace (4 * S k)%nat with (4 + 4 * k)%nat by lia.
  replace (3 * S k)%nat with (3 + 3 * k)%nat by lia.
  rewrite !repeat_split. cbn [repeat app].
  rewrite quads_cons4, IH. reflexivity.
Qed.

Lemma mod4_witness (n : nat) : (n mod 4 = 0)%nat -> exists k, n = (4 * k)%nat.
Proof.
  intros H. exists (n / 4)%nat.
  pose proof (Nat.div_mod_eq n 4). lia.
Qed.

Lemma quads_pad (s : list Z) : forall j : nat,
  ((length s + j) mod 4 = 0)%nat ->
  exists t : nat, quads (s ++ repeat 0 j) = quads s ++ repeat 0 t.
Proof.
  induction s as [ | a | a b | a b c | a b c d r IH ] using list_ind4; intros j Hj.
  - destruct (mod4_witness _ Hj) as [k Ek]. cbn [length Nat.add] in Ek. subst j.
    exists (3 * k)%nat. apply quads_zeros.
  - destruct (mod4_witness _ Hj) as [k Ek]. cbn [length] in Ek.
    destruct k as [ | k ]; [ lia | ].
    replace j with (3 + 4 * k)%nat by lia.
    exists (3 * k)%nat. rewrite repeat_split. cbn [repeat app].
    rewrite quads_cons4, quads_zeros. reflexivity.
  - destruct (mod4_witness _ Hj) as [k Ek]. cbn [length] in Ek.
    destruct k as [ | k ]; [ lia | ].
    replace j with (2 + 4 * k)%nat by lia.
    exists (3 * k)%nat. rewrite repeat_split. cbn [repeat app].
    rewrite quads_cons4, quads_zeros. reflexivity.
  - destruct (mod4_witness _ Hj) as [k Ek]. cbn [length] in Ek.
    destruct k as [ | k ]; [ lia | ].
    replace j with (1 + 4 * k)%nat by lia.
    exists (3 * k)%nat. rewrite repeat_split. cbn [repeat app].
    rewrite quads_cons4, quads_zeros. reflexivity.
  - destruct (IH j) as [t Et].
    + cbn [length] in Hj.
      replace (S (S (S (S (length r)))) + j)%nat with ((length r + j) + 1 * 4)%nat in Hj by lia.
      rewrite Nat.Div0.mod_add in Hj. exact Hj.
    + exists t. change ((a :: b :: c :: d :: r) ++ repeat 0 j)
        with (a :: b :: c :: d :: (r ++ repeat 0 j)).
      rewrite !quads_cons4, Et, app_assoc. reflexivity.
Qed.

Lemma firstn_repeat {A} (x : A) (n m : nat) :
  firstn n (repeat x m) = repeat x (Nat.min n m).
Proof.
  revert m; induction n as [ | n IH ]; intros [ | m ]; cbn; try reflexivity.
  rewrite IH. reflexivity.
Qed.

Lemma skipn_repeat {A} (x : A) (n m : nat) :
  skipn n (repeat x m) = repeat x (m - n).
Proof.
  revert m; induction n as [ | n IH ]; intros [ | m ]; cbn; try reflexivity.
  apply IH.
Qed.

Lemma resize_zeros (v : list Z) (t : nat) (n : Z) :
  resize (v ++ repeat 0 t) n = resize v n.
Proof.
  unfold resize. rewrite length_app, repeat_length, firstn_app.
  rewrite firstn_repeat, <- app_assoc, <- repeat_app.
  do 2 f_equal. lia.
Qed.

Lemma memcpy_zeros (s : list Z) (P : Z) :
  size s <= P ->
  memcpy (vector_of_size P) s = Returned (s ++ repeat 0 (Z.to_nat P - length s)).
Proof.
  intros H. unfold memcpy, vector_of_size, size in *. rewrite repeat_length.
  destruct (Z.leb_spec (Z.of_nat (length s)) (Z.of_nat (Z.to_nat P))); [ | lia ].
  rewrite skipn_repeat. reflexivity.
Qed.

Lemma Forall_is_byte_zeros (n : nat) : Forall is_byte (repeat 0 n).
Proof. apply Forall_forall. intros x Hx. apply repeat_spec in Hx. subst. unfold is_byte. lia. Qed.

(** *** The vector decoders on every string *)

Lemma padded_input (s : list Z) (w k : Z) :
  w = 2 ^ k -> 2 <= k <= 64 -> size s + w - 1 < size_t_modulus ->
  exists m : nat,
    padded_size (size s) w = w * Z.of_nat m /\
    size s <= w * Z.of_nat m /\
    (size s = 0 -> m = 0%nat) /\ (0 < size s -> (1 <= m)%nat) /\
    w * Z.of_nat m < size_t_modulus /\
    ((length s + (Z.to_nat (w * Z.of_nat m) - length s)) mod 4 = 0)%nat.
Proof.
  intros Ew Hk Hlt. unfold size_t_modulus in Hlt.
  assert (Hs : 0 <= size s) by (unfold size; lia).
  assert (Hw : 4 <= w).
  { subst w. change 4 with (2 ^ 2). apply Z.pow_le_mono_r; lia. }
  rewrite (padded_size_spec (size s) w k) by (assumption || lia).
  assert (Hq : 0 <= (size s + w - 1) / w) by (apply Z.div_pos; lia).
  exists (Z.to_nat ((size s + w - 1) / w)). rewrite Z2Nat.id by assumption.
  assert (Hd := Z.div_mod (size s + w - 1) w ltac:(lia)).
  assert (Hm := Z.mod_pos_bound (size s + w - 1) w ltac:(lia)).
  repeat split.
  - lia.
  - intros E. rewrite E. rewrite Z.div_small by lia. reflexivity.
  - intros Hpos. 
    assert (1 <= (size s + w - 1) / w) by (apply Z.div_le_lower_bound; lia). lia.
  - unfold size_t_modulus. lia.
  - assert (Hle : size s <= w * ((size s + w - 1) / w)) by lia.
    assert (E4 : w = 4 * 2 ^ (k - 2)).
    { subst w. change 4 with (2 ^ 2). rewrite <- Z.pow_add_r by lia. f_equal. lia. }
    assert (H2 : 0 <= 2 ^ (k - 2)) by (apply Z.pow_nonneg; lia).
    assert (Ex : w * ((size s + w - 1) / w) = 4 * (2 ^ (k - 2) * ((size s + w - 1) / w)))
      by (rewrite E4 at 1; ring).
    revert Hle. rewrite Ex.
    generalize (2 ^ (k - 2) * ((size s + w - 1) / w)) (Z.mul_nonneg_nonneg _ _ H2 Hq).
    intros x Hx Hle. unfold size in Hle.
    replace (length s + (Z.to_nat (4 * x) - length s))%nat
      with (Z.to_nat x * 4)%nat by lia.
    apply Nat.Div0.mod_mul.
Qed.

Lemma scan_overruns_nonempty (s : list Z) : scan_overruns s = false -> 0 < size s.
Proof.
  unfold scan_overruns. intros H. apply orb_false_iff in H as [H _].
  apply Z.eqb_neq in H. unfold size in *. lia.
Qed.

(** [avx2_decode] on every string of bytes: the copy, the scan, the block
    loop and the cut to size, put together. *)
Theorem avx2_decode_meaning (s : list Z) :
  Forall is_byte s -> size s + 31 < size_t_modulus ->
  avx2_decode s = vector_decode 32 s.
Proof.
  intros HB Hlt. unfold avx2_decode, vector_decode.
  destruct (padded_input s 32 5 eq_refl ltac:(lia) ltac:(lia))
    as (m & EP & Hle & Hm0 & Hm1 & HP & Hmod).
  rewrite EP. rewrite memcpy_zeros by assumption. cbn [bind].
  set (pad := repeat 0 (Z.to_nat (32 * Z.of_nat m) - length s)) in *.
  assert (Elen : length (s ++ pad) = (32 * m)%nat).
  { subst pad. rewrite length_app, repeat_length. unfold size in Hle. lia. }
  assert (Esize : size (s ++ pad) = 32 * Z.of_nat m) by (unfold size; rewrite Elen; lia).
  rewrite scan_padding_spec by (rewrite Esize; exact HP).
  replace (32 * ((size s + 32 - 1) / 32)) with (32 * Z.of_nat m)
    by (rewrite <- EP; apply padded_size_spec with (k := 5);
        unfold size, size_t_modulus in *; lia).
  rewrite Esize.
  destruct (scan_overruns s) eqn:Eo; [ reflexivity | ].
  cbn [bind].
  apply scan_overruns_nonempty in Eo. specialize (Hm1 Eo).
  unfold vector_of_size. rewrite <- Esize. unfold size. rewrite Nat2Z.id.
  pose proof (avx2_blocks_spec m (s ++ pad) [] [] (S (length (s ++ pad)))
                (length (s ++ pad))) as Hloop.
  cbn [app length] in Hloop. change (Z.of_nat 0) with 0 in Hloop.
  rewrite Hloop; clear Hloop.
  - cbn [bind].
    destruct (quads_pad s (Z.to_nat (32 * Z.of_nat m) - length s) Hmod) as [t Et].
    fold pad in Et. rewrite Et.
    destruct (decoded_size (Z.of_nat (length s)) (scanned_padding s)); [ | reflexivity ].
    cbn [bind]. rewrite !resize_zeros. reflexivity.
  - exact Elen.
  - apply Forall_app. split; [ exact HB | apply Forall_is_byte_zeros ].
  - lia.
  - fold (size (s ++ pad)). rewrite Esize. exact HP.
  - lia.
Qed.

(** [sse4_decode] likewise, with blocks of 16 bytes. *)
Theorem sse4_decode_meaning (s : list Z) :
  Forall is_byte s -> size s + 15 < size_t_modulus ->
  sse4_decode s = vector_decode 16 s.
Proof.
  intros HB Hlt. unfold sse4_decode, vector_decode.
  destruct (padded_input s 16 4 eq_refl ltac:(lia) ltac:(lia))
    as (m & EP & Hle & Hm0 & Hm1 & HP & Hmod).
  rewrite EP. rewrite memcpy_zeros by assumption. cbn [bind].
  set (pad := repeat 0 (Z.to_nat (16 * Z.of_nat m) - length s)) in *.
  assert (Elen : length (s ++ pad) = (16 * m)%nat).
  { subst pad. rewrite length_app, repeat_length. unfold size in Hle. lia. }
  assert (Esize : size (s ++ pad) = 16 * Z.of_nat m) by (unfold size; rewrite Elen; lia).
  rewrite scan_padding_spec by (rewrite Esize; exact HP).
  replace (16 * ((size s + 16 - 1) / 16)) with (16 * Z.of_nat m)
    by (rewrite <- EP; apply padded_size_spec with (k := 4);
        unfold size, size_t_modulus in *; lia).
  rewrite Esize.
  destruct (scan_overruns s) eqn:Eo; [ reflexivity | ].
  cbn [bind].
  apply scan_overruns_nonempty in Eo. specialize (Hm1 Eo).
  unfold vector_of_size. rewrite <- Esize. unfold size. rewrite Nat2Z.id.
  pose proof (sse4_blocks_spec m (s ++ pad) [] [] (S (length (s ++ pad)))
                (length (s ++ pad))) as Hloop.
  cbn [app length] in Hloop. change (Z.of_nat 0) with 0 in Hloop.
  rewrite Hloop; clear Hloop.
  - cbn [bind].
    destruct (quads_pad s (Z.to_nat (16 * Z.of_nat m) - length s) Hmod) as [t Et].
    fold pad in Et. rewrite Et.
    destruct (decoded_size (Z.of_nat (length s)) (scanned_padding s)); [ | reflexivity ].
    cbn [bind]. rewrite !resize_zeros. reflexivity.
  - exact Elen.
  - apply Forall_app. split; [ exact HB | apply Forall_is_byte_zeros ].
  - lia.
  - fold (size (s ++ pad)). rewrite Esize. exact HP.
  - lia.
Qed.

(** *** The reference encoder *)

Section ListInduction3.
Context {A : Type} (P : list A -> Prop).
Hypothesis P0 : P [].
Hypothesis P1 : forall a, P [a].
Hypothesis P2 : forall a b, P [a; b].
Hypothesis P3 : forall a b c r, P r -> P (a :: b :: c :: r).

Lemma list_ind3 : forall l, P l.
Proof.
  fix IH 1.
  intros [ | a [ | b [ | c r ] ] ].
  - exact P0.
  - exact (P1 a).
  - exact (P2 a b).
  - exact (P3 a b c r (IH r)).
Qed.
End ListInduction3.

Lemma encode_cons3 (x y z : Z) (r : list Z) :
  encode (x :: y :: z :: r)
  = [encode_char (x / 4); encode_char ((x mod 4) * 16 + y / 16);
     encode_char ((y mod 16) * 4 + z / 64); encode_char (z mod 64)] ++ encode r.
Proof. reflexivity. Qed.

Lemma encode_char_facts (v : Z) :
  0 <= v < 64 ->
  sextet_of (encode_char v) = v /\ encode_char v <> pad_char /\
  is_byte (encode_char v) /\ find_six_bit (encode_char v) = v.
Proof.
  intros Hv.
  assert (H : sextet_ok v = true).
  { apply for_all_bytes; [ vm_compute; reflexivity | unfold is_byte; lia ]. }
  unfold sextet_ok in H.
  destruct (Z.leb_spec 64 v); [ lia | ].
  cbn [orb] in H. rewrite !andb_true_iff in H.
  destruct H as [[[H1 H2] H3] H4].
  apply Z.eqb_eq in H1, H4. apply negb_true_iff, Z.eqb_neq in H2.
  unfold is_byteb in H3. apply andb_true_iff in H3 as [H3 H3'].
  apply Z.leb_le in H3. apply Z.ltb_lt in H3'.
  unfold is_byte. auto.
Qed.

Lemma sextets_of_bytes (x y z : Z) :
  is_byte x -> is_byte y -> is_byte z ->
  0 <= x / 4 < 64 /\ 0 <= (x mod 4) * 16 + y / 16 < 64 /\
  0 <= (y mod 16) * 4 + z / 64 < 64 /\ 0 <= z mod 64 < 64 /\
  0 <= (x mod 4) * 16 < 64 /\ 0 <= (y mod 16) * 4 < 64.
Proof.
  unfold is_byte. intros Hx Hy Hz.
  repeat split; Z.div_mod_to_equations; lia.
Qed.

Lemma bytes_of_word (x y z : Z) :
  is_byte x -> is_byte y -> is_byte z ->
  [ ((65536 * x + 256 * y + z) / 256 / 256) mod 256;
    ((65536 * x + 256 * y + z) / 256) mod 256;
    (65536 * x + 256 * y + z) mod 256 ] = [x; y; z].
Proof.
  unfold is_byte. intros Hx Hy Hz.
  repeat f_equal; Z.div_mod_to_equations; lia.
Qed.

Lemma quad_bytes_full (x y z : Z) :
  is_byte x -> is_byte y -> is_byte z ->
  quad_bytes (encode_char (x / 4)) (encode_char ((x mod 4) * 16 + y / 16))
             (encode_char ((y mod 16) * 4 + z / 64)) (encode_char (z mod 64))
  = [x; y; z].
Proof.
  intros Hx Hy Hz.
  destruct (sextets_of_bytes x y z Hx Hy Hz) as (H0 & H1 & H2 & H3 & _ & _).
  unfold quad_bytes.
  rewrite (proj1 (encode_char_facts _ H0)), (proj1 (encode_char_facts _ H1)),
          (proj1 (encode_char_facts _ H2)), (proj1 (encode_char_facts _ H3)).
  unfold pack_word.
  replace ((x / 4 * 64 + (x mod 4 * 16 + y / 16)) * 4096
           + ((y mod 16 * 4 + z / 64) * 64 + z mod 64))
    with (65536 * x + 256 * y + z)
    by (unfold is_byte in *; Z.div_mod_to_equations; lia).
  apply bytes_of_word; assumption.
Qed.

(** The last group of one byte: ['='] translates to 65, which spills into
    the two bytes that are cut off. *)
Lemma quad_bytes_one (x : Z) :
  is_byte x ->
  exists g1 g2,
    quad_bytes (encode_char (x / 4)) (encode_char ((x mod 4) * 16)) pad_char pad_char
    = [x; g1; g2].
Proof.
  intros Hx.
  destruct (sextets_of_bytes x 0 0 Hx) as (H0 & _ & _ & _ & H1 & _);
    [ unfold is_byte; lia | unfold is_byte; lia | ].
  unfold quad_bytes.
  rewrite (proj1 (encode_char_facts _ H0)), (proj1 (encode_char_facts _ H1)).
  change (sextet_of pad_char) with 65.
  unfold pack_word.
  replace ((x / 4 * 64 + x mod 4 * 16) * 4096 + (65 * 64 + 65))
    with (65536 * x + 256 * 16 + 129)
    by (unfold is_byte in *; Z.div_mod_to_equations; lia).
  rewrite (bytes_of_word x 16 129) by (assumption || (unfold is_byte; lia)).
  eexists _, _. reflexivity.
Qed.

Lemma quad_bytes_two (x y : Z) :
  is_byte x -> is_byte y ->
  exists g,
    quad_bytes (encode_char (x / 4)) (encode_char ((x mod 4) * 16 + y / 16))
               (encode_char ((y mod 16) * 4)) pad_char
    = [x; y; g].
Proof.
  intros Hx Hy.
  destruct (sextets_of_bytes x y 0 Hx Hy) as (H0 & H1 & _ & _ & _ & H2);
    [ unfold is_byte; lia | ].
  unfold quad_bytes.
  rewrite (proj1 (encode_char_facts _ H0)), (proj1 (encode_char_facts _ H1)),
          (proj1 (encode_char_facts _ H2)).
  change (sextet_of pad_char) with 65.
  unfold pack_word.
  replace ((x / 4 * 64 + (x mod 4 * 16 + y / 16)) * 4096 + (y mod 16 * 4 * 64 + 65))
    with (65536 * x + 256 * y + 65)
    by (unfold is_byte in *; Z.div_mod_to_equations; lia).
  rewrite (bytes_of_word x y 65) by (assumption || (unfold is_byte; lia)).
  eexists. reflexivity.
Qed.

Lemma quads_encode (b : list Z) :
  Forall is_byte b -> exists g, quads (encode b) = b ++ g.
Proof.
  induction b as [ | x | x y | x y z r IH ] using list_ind3; intros HB.
  - exists []. reflexivity.
  - inversion HB; subst.
    destruct (quad_bytes_one x) as (g1 & g2 & E); [ assumption | ].
    exists [g1; g2]. cbn [encode quads]. exact E.
  - inversion HB as [ | ? ? Hx HB' ]; subst. inversion HB' as [ | ? ? Hy _ ]; subst.
    destruct (quad_bytes_two x y) as (g & E); [ assumption | assumption | ].
    exists [g]. cbn [encode quads]. exact E.
  - inversion HB as [ | ? ? Hx HB1 ]; subst. inversion HB1 as [ | ? ? Hy HB2 ]; subst.
    inversion HB2 as [ | ? ? Hz HB3 ]; subst.
    destruct (IH HB3) as [g E]. exists g.
    rewrite encode_cons3. cbn [app]. rewrite quads_cons4, quad_bytes_full by assumption.
    rewrite E. reflexivity.
Qed.

Lemma encode_is_bytes (b : list Z) : Forall is_byte b -> Forall is_byte (encode b).
Proof.
  induction b as [ | x | x y | x y z r IH ] using list_ind3; intros HB.
  - constructor.
  - inversion HB as [ | ? ? Hx _ ]; subst.
    destruct (sextets_of_bytes x 0 0 Hx) as (H0 & _ & _ & _ & H1 & _);
      [ unfold is_byte; lia | unfold is_byte; lia | ].
    cbn [encode]. repeat constructor; try (unfold is_byte, pad_char; lia);
      apply encode_char_facts; assumption.
  - inversion HB as [ | ? ? Hx HB1 ]; subst. inversion HB1 as [ | ? ? Hy _ ]; subst.
    destruct (sextets_of_bytes x y 0 Hx Hy) as (H0 & H1 & _ & _ & _ & H2);
      [ unfold is_byte; lia | ].
    cbn [encode]. repeat constructor; try (unfold is_byte, pad_char; lia);
      apply encode_char_facts; assumption.
  - inversion HB as [ | ? ? Hx HB1 ]; subst. inversion HB1 as [ | ? ? Hy HB2 ]; subst.
    inversion HB2 as [ | ? ? Hz HB3 ]; subst.
    destruct (sextets_of_bytes x y z Hx Hy Hz) as (H0 & H1 & H2 & H3 & _ & _).
    rewrite encode_cons3. cbn [app].
    repeat constructor; try (apply encode_char_facts; assumption).
    apply IH. assumption.
Qed.

Lemma encode_size (b : list Z) : size (encode b) = 4 * ((size b + 2) / 3).
Proof.
  unfold size.
  induction b as [ | x | x y | x y z r IH ] using list_ind3; try reflexivity.
  rewrite encode_cons3, length_app. cbn [length].
  rewrite Nat2Z.inj_add, IH.
  replace (Z.of_nat (S (S (S (length r)))) + 2) with ((Z.of_nat (length r) + 2) + 1 * 3) by lia.
  rewrite Z.div_add by lia. change (Z.of_nat 4) with 4. lia.
Qed.

Lemma trailing_pads3_app (front l : list Z) :
  (3 <= length l)%nat -> trailing_pads3 (front ++ l) = trailing_pads3 l.
Proof.
  intros H. unfold trailing_pads3. rewrite rev_app_distr.
  rewrite firstn_app.
  replace (3 - length (rev l))%nat with 0%nat by (rewrite length_rev; lia).
  rewrite firstn_O, app_nil_r. reflexivity.
Qed.

Lemma encode_padding (b : list Z) :
  Forall is_byte b -> b <> [] ->
  trailing_pads3 (encode b) = (3 - size b mod 3) mod 3 /\ 4 <= size (encode b).
Proof.
  induction b as [ | x | x y | x y z r IH ] using list_ind3; intros HB Hne.
  - contradiction.
  - inversion HB as [ | ? ? Hx _ ]; subst.
    destruct (sextets_of_bytes x 0 0 Hx) as (H0 & _ & _ & _ & H1 & _);
      [ unfold is_byte; lia | unfold is_byte; lia | ].
    destruct (encode_char_facts _ H1) as (_ & Hne1 & _).
    apply Z.eqb_neq in Hne1.
    split; [ | cbn; lia ].
    cbn [encode]. unfold trailing_pads3. cbn [rev app firstn leading_pads].
    rewrite Hne1. reflexivity.
  - inversion HB as [ | ? ? Hx HB1 ]; subst. inversion HB1 as [ | ? ? Hy _ ]; subst.
    destruct (sextets_of_bytes x y 0 Hx Hy) as (H0 & H1 & _ & _ & _ & H2);
      [ unfold is_byte; lia | ].
    destruct (encode_char_facts _ H2) as (_ & Hne2 & _).
    apply Z.eqb_neq in Hne2.
    split; [ | cbn; lia ].
    cbn [encode]. unfold trailing_pads3. cbn [rev app firstn leading_pads].
    rewrite Hne2. reflexivity.
  - inversion HB as [ | ? ? Hx HB1 ]; subst. inversion HB1 as [ | ? ? Hy HB2 ]; subst.
    inversion HB2 as [ | ? ? Hz HB3 ]; subst.
    destruct (sextets_of_bytes x y z Hx Hy Hz) as (H0 & H1 & H2 & H3 & _ & _).
    rewrite encode_cons3.
    assert (Esz : size (x :: y :: z :: r) mod 3 = size r mod 3).
    { unfold size. cbn [length].
      replace (Z.of_nat (S (S (S (length r))))) with (Z.of_nat (length r) + 1 * 3) by lia.
      apply Z.mod_add. lia. }
    rewrite Esz.
    split.
    + destruct r as [ | r0 r ].
      * destruct (encode_char_facts _ H3) as (_ & Hne3 & _).
        apply Z.eqb_neq in Hne3.
        cbn [encode app]. unfold trailing_pads3. cbn [rev app firstn leading_pads].
        rewrite Hne3. reflexivity.
      * destruct (IH HB3) as [E Hge]; [ discriminate | ].
        rewrite trailing_pads3_app; [ exact E | ].
        unfold size in Hge. lia.
    + unfold size. rewrite length_app. cbn [length]. lia.
Qed.

(** *** The scalar decoder on encodings *)

Lemma sextet_bits (v : Z) :
  0 <= v < 64 ->
  Z.shiftr (Z.land v 0x30) 4 = v / 16 /\ Z.land v 0xf = v mod 16 /\
  Z.shiftr (Z.land v 0x3c) 2 = v / 4 /\ Z.land v 0x3 = v mod 4.
Proof.
  intros Hv.
  assert (H : sextet_bits_ok v = true).
  { apply for_all_bytes; [ vm_compute; reflexivity | unfold is_byte; lia ]. }
  unfold sextet_bits_ok in H.
  destruct (Z.leb_spec 64 v); [ lia | ].
  cbn [orb] in H. rewrite !andb_true_iff, !Z.eqb_eq in H. tauto.
Qed.

Lemma eight_bit_chars_0 (x y : Z) (s2 s3 : Z) :
  is_byte x -> is_byte y ->
  nth 0 (eight_bit_chars [x / 4; (x mod 4) * 16 + y / 16; s2; s3]) 0 = x.
Proof.
  intros Hx Hy.
  destruct (sextets_of_bytes x y 0 Hx Hy) as (H0 & H1 & _); [ unfold is_byte; lia | ].
  destruct (sextet_bits _ H1) as (E1 & _).
  unfold eight_bit_chars. cbn [nth]. rewrite E1.
  rewrite Z.shiftl_mul_pow2 by lia. change (2 ^ 2) with 4. unfold u8.
  unfold is_byte in *. Z.div_mod_to_equations. lia.
Qed.

Lemma eight_bit_chars_1 (x y z : Z) (s0 s3 : Z) :
  is_byte x -> is_byte y -> is_byte z ->
  nth 1 (eight_bit_chars [s0; (x mod 4) * 16 + y / 16; (y mod 16) * 4 + z / 64; s3]) 0 = y.
Proof.
  intros Hx Hy Hz.
  destruct (sextets_of_bytes x y z Hx Hy Hz) as (H0 & H1 & H2 & _).
  destruct (sextet_bits _ H1) as (_ & E1 & _).
  destruct (sextet_bits _ H2) as (_ & _ & E2 & _).
  unfold eight_bit_chars. cbn [nth]. rewrite E1, E2.
  rewrite Z.shiftl_mul_pow2 by lia. change (2 ^ 4) with 16. unfold u8.
  unfold is_byte in *. Z.div_mod_to_equations. lia.
Qed.

Lemma eight_bit_chars_2 (y z : Z) (s0 s1 : Z) :
  is_byte y -> is_byte z ->
  nth 2 (eight_bit_chars [s0; s1; (y mod 16) * 4 + z / 64; z mod 64]) 0 = z.
Proof.
  intros Hy Hz.
  destruct (sextets_of_bytes 0 y z ltac:(unfold is_byte; lia) Hy Hz) as (_ & _ & H2 & _).
  destruct (sextet_bits _ H2) as (_ & _ & _ & E2).
  unfold eight_bit_chars. cbn [nth]. rewrite E2.
  rewrite Z.shiftl_mul_pow2 by lia. change (2 ^ 6) with 64. unfold u8.
  unfold is_byte in *. Z.div_mod_to_equations. lia.
Qed.

Lemma eight_bit_chars_parts (six : list Z) :
  eight_bit_chars six
  = [nth 0 (eight_bit_chars six) 0; nth 1 (eight_bit_chars six) 0;
     nth 2 (eight_bit_chars six) 0].
Proof. reflexivity. Qed.

Lemma eight_bit_chars_full (x y z : Z) :
  is_byte x -> is_byte y -> is_byte z ->
  eight_bit_chars [x / 4; (x mod 4) * 16 + y / 16; (y mod 16) * 4 + z / 64; z mod 64]
  = [x; y; z].
Proof.
  intros Hx Hy Hz. rewrite eight_bit_chars_parts.
  rewrite eight_bit_chars_0, eight_bit_chars_1, eight_bit_chars_2 by assumption.
  reflexivity.
Qed.

Lemma fallback_loop_char (c : Z) (rest six : list Z) (i : Z) (ret : list Z) :
  c <> pad_char ->
  fallback_loop (c :: rest) six i ret
  = if i + 1 =? 4
    then fallback_loop rest (map find_six_bit (array_set six (Z.to_nat i) c)) 0
           (ret ++ eight_bit_chars (map find_six_bit (array_set six (Z.to_nat i) c)))
    else fallback_loop rest (array_set six (Z.to_nat i) c) (i + 1) ret.
Proof.
  intros H. apply Z.eqb_neq in H. cbn [fallback_loop]. rewrite H. reflexivity.
Qed.

Lemma fallback_loop_pad (rest six : list Z) (i : Z) (ret : list Z) :
  fallback_loop (pad_char :: rest) six i ret = (six, i, ret).
Proof. reflexivity. Qed.

(** Four characters of the alphabet are one group. *)
Lemma fallback_loop_group (e0 e1 e2 e3 : Z) (rest : list Z) (s0 s1 s2 s3 : Z)
      (ret : list Z) :
  e0 <> pad_char -> e1 <> pad_char -> e2 <> pad_char -> e3 <> pad_char ->
  fallback_loop (e0 :: e1 :: e2 :: e3 :: rest) [s0; s1; s2; s3] 0 ret
  = fallback_loop rest (map find_six_bit [e0; e1; e2; e3]) 0
      (ret ++ eight_bit_chars (map find_six_bit [e0; e1; e2; e3])).
Proof.
  intros H0 H1 H2 H3.
  rewrite fallback_loop_char by assumption. change (0 + 1 =? 4) with false. cbv iota.
  rewrite fallback_loop_char by assumption. change (0 + 1 + 1 =? 4) with false. cbv iota.
  rewrite fallback_loop_char by assumption. change (0 + 1 + 1 + 1 =? 4) with false. cbv iota.
  rewrite fallback_loop_char by assumption. reflexivity.
Qed.

Lemma fallback_decode_finish (encoded : list Z) :
  fallback_decode encoded = fallback_finish (fallback_loop encoded [0; 0; 0; 0] 0 []).
Proof. reflexivity. Qed.

Lemma fallback_encode (b : list Z) : forall (s0 s1 s2 s3 : Z) (ret : list Z),
  Forall is_byte b ->
  fallback_finish (fallback_loop (encode b) [s0; s1; s2; s3] 0 ret) = Returned (ret ++ b).
Proof.
  induction b as [ | x | x y | x y z r IH ] using list_ind3; intros s0 s1 s2 s3 ret HB.
  - cbn. rewrite app_nil_r. reflexivity.
  - inversion HB as [ | ? ? Hx _ ]; subst.
    destruct (sextets_of_bytes x 0 0 Hx) as (H0 & _ & _ & _ & H1 & _);
      [ unfold is_byte; lia | unfold is_byte; lia | ].
    destruct (encode_char_facts _ H0) as (_ & N0 & _ & F0).
    destruct (encode_char_facts _ H1) as (_ & N1 & _ & F1).
    cbn [encode].
    rewrite fallback_loop_char by assumption. change (0 + 1 =? 4) with false. cbv iota.
    rewrite fallback_loop_char by assumption. change (0 + 1 + 1 =? 4) with false. cbv iota.
    rewrite fallback_loop_pad.
    change (Z.to_nat 0) with 0%nat. change (Z.to_nat (0 + 1)) with 1%nat.
    cbn [array_set]. unfold fallback_finish.
    change (negb (0 + 1 + 1 =? 0)) with true. cbv iota.
    change (Z.to_nat (wrap64 (0 + 1 + 1 - 1))) with 1%nat.
    change (clear_from [encode_char (x / 4); encode_char (x mod 4 * 16); s2; s3] (0 + 1 + 1))
      with [encode_char (x / 4); encode_char (x mod 4 * 16); 0; 0].
    cbn [map]. rewrite F0, F1, eight_bit_chars_parts. cbn [firstn].
    replace (x mod 4 * 16) with (x mod 4 * 16 + 0 / 16) by (change (0 / 16) with 0; lia).
    rewrite eight_bit_chars_0 by (assumption || (unfold is_byte; lia)).
    reflexivity.
  - inversion HB as [ | ? ? Hx HB1 ]; subst. inversion HB1 as [ | ? ? Hy _ ]; subst.
    destruct (sextets_of_bytes x y 0 Hx Hy) as (H0 & H1 & _ & _ & _ & H2);
      [ unfold is_byte; lia | ].
    destruct (encode_char_facts _ H0) as (_ & N0 & _ & F0).
    destruct (encode_char_facts _ H1) as (_ & N1 & _ & F1).
    destruct (encode_char_facts _ H2) as (_ & N2 & _ & F2).
    cbn [encode].
    rewrite fallback_loop_char by assumption. change (0 + 1 =? 4) with false. cbv iota.
    rewrite fallback_loop_char by assumption. change (0 + 1 + 1 =? 4) with false. cbv iota.
    rewrite fallback_loop_char by assumption. change (0 + 1 + 1 + 1 =? 4) with false. cbv iota.
    rewrite fallback_loop_pad.
    change (Z.to_nat 0) with 0%nat. change (Z.to_nat (0 + 1)) with 1%nat.
    change (Z.to_nat (0 + 1 + 1)) with 2%nat.
    cbn [array_set]. unfold fallback_finish.
    change (negb (0 + 1 + 1 + 1 =? 0)) with true. cbv iota.
    change (Z.to_nat (wrap64 (0 + 1 + 1 + 1 - 1))) with 2%nat.
    change (clear_from [encode_char (x / 4); encode_char (x mod 4 * 16 + y / 16);
                        encode_char (y mod 16 * 4); s3] (0 + 1 + 1 + 1))
      with [encode_char (x / 4); encode_char (x mod 4 * 16 + y / 16);
            encode_char (y mod 16 * 4); 0].
    cbn [map]. rewrite F0, F1, F2, eight_bit_chars_parts. cbn [firstn].
    replace (y mod 16 * 4) with (y mod 16 * 4 + 0 / 64) by (change (0 / 64) with 0; lia).
    rewrite eight_bit_chars_0, (eight_bit_chars_1 x y 0)
      by (assumption || (unfold is_byte; lia)).
    reflexivity.
  - inversion HB as [ | ? ? Hx HB1 ]; subst. inversion HB1 as [ | ? ? Hy HB2 ]; subst.
    inversion HB2 as [ | ? ? Hz HB3 ]; subst.
    destruct (sextets_of_bytes x y z Hx Hy Hz) as (H0 & H1 & H2 & H3 & _ & _).
    destruct (encode_char_facts _ H0) as (_ & N0 & _ & F0).
    destruct (encode_char_facts _ H1) as (_ & N1 & _ & F1).
    destruct (encode_char_facts _ H2) as (_ & N2 & _ & F2).
    destruct (encode_char_facts _ H3) as (_ & N3 & _ & F3).
    rewrite encode_cons3. cbn [app].
    rewrite fallback_loop_group by assumption.
    cbn [map]. rewrite F0, F1, F2, F3.
    rewrite eight_bit_chars_full by assumption.
    rewrite IH by assumption. rewrite <- app_assoc. reflexivity.
Qed.

(** The scalar decoder inverts the reference encoder on every byte
    sequence, the empty one included. *)
Theorem fallback_decode_encode (b : list Z) :
  Forall is_byte b -> fallback_decode (encode b) = Returned b.
Proof.
  intros HB. rewrite fallback_decode_finish. apply (fallback_encode b 0 0 0 0 []). exact HB.
Qed.

(** *** Single precision on small sizes *)

Lemma digits2_pos_bounds (p : positive) :
  2 ^ (Zpos (digits2_pos p) - 1) <= Zpos p < 2 ^ Zpos (digits2_pos p).
Proof.
  induction p as [ p IH | p IH | ]; cbn [digits2_pos].
  - rewrite Pos2Z.inj_succ.
    replace (Z.succ (Zpos (digits2_pos p)) - 1) with (Z.succ (Zpos (digits2_pos p) - 1)) by lia.
    rewrite !Z.pow_succ_r by lia. lia.
  - rewrite Pos2Z.inj_succ.
    replace (Z.succ (Zpos (digits2_pos p)) - 1) with (Z.succ (Zpos (digits2_pos p) - 1)) by lia.
    rewrite !Z.pow_succ_r by lia. lia.
  - cbn. lia.
Qed.

Lemma digits2_pos_unique (p : positive) (d : Z) :
  2 ^ (d - 1) <= Zpos p < 2 ^ d -> Zpos (digits2_pos p) = d.
Proof.
  intros [Hlo Hhi]. pose proof (digits2_pos_bounds p) as [Hlo' Hhi'].
  assert (Hd : 0 < d).
  { destruct (Z.ltb_spec 0 d) as [ | Hle ]; [ assumption | exfalso ].
    apply Zle_lt_or_eq in Hle as [Hneg | ->].
    - rewrite Z.pow_neg_r in Hhi by assumption. lia.
    - change (2 ^ 0) with 1 in Hhi. lia. }
  destruct (Z.lt_trichotomy (Zpos (digits2_pos p)) d) as [H | [H | H]]; [ | exact H | ].
  - assert (2 ^ Zpos (digits2_pos p) <= 2 ^ (d - 1)) by (apply Z.pow_le_mono_r; lia). lia.
  - assert (2 ^ d <= 2 ^ (Zpos (digits2_pos p) - 1)) by (apply Z.pow_le_mono_r; lia). lia.
Qed.

Lemma Zpos_iter_xO (p n : positive) :
  Zpos (Pos.iter xO p n) = Zpos p * 2 ^ Zpos n.
Proof.
  change (Pos.iter xO p n) with (shift_pos n p).
  rewrite shift_pos_correct, Zpower_pos_nat, Zpower_nat_Z, positive_nat_Z. ring.
Qed.

Lemma shr_iter_exact (n : positive) : forall r : positive,
  iter_pos shr_1 n {| shr_m := Zpos (Pos.iter xO r n); shr_r := false; shr_s := false |}
  = {| shr_m := Zpos r; shr_r := false; shr_s := false |}.
Proof.
  induction n as [ n IH | n IH | ]; intros r; cbn [iter_pos Pos.iter shr_1 orb].
  - rewrite IH, IH. reflexivity.
  - rewrite IH, IH. reflexivity.
  - reflexivity.
Qed.

Lemma digits2_pos_shifted (r n : positive) :
  Zpos (digits2_pos (Pos.iter xO r n)) = Zpos (digits2_pos r) + Zpos n.
Proof.
  apply digits2_pos_unique. rewrite Zpos_iter_xO.
  pose proof (digits2_pos_bounds r) as [Hlo Hhi].
  replace (Zpos (digits2_pos r) + Zpos n - 1) with (Zpos (digits2_pos r) - 1 + Zpos n) by lia.
  rewrite !Z.pow_add_r by lia.
  assert (0 < 2 ^ Zpos n) by (apply Z.pow_pos_nonneg; lia).
  split; [ apply Z.mul_le_mono_nonneg_r | apply Z.mul_lt_mono_pos_r ]; lia.
Qed.

(** A significand of 24 bits with an exponent in range is kept as it is. *)
Lemma round_aux_exact (m : positive) (e : Z) :
  Zpos (digits2_pos m) = 24 -> -149 <= e <= 104 ->
  binary_round_aux Float32.prec Float32.emax false (Zpos m) e loc_Exact
  = S754_finite false m e.
Proof.
  intros Hd He.
  assert (Es : shr_fexp Float32.prec Float32.emax (Zpos m) e loc_Exact
               = ({| shr_m := Zpos m; shr_r := false; shr_s := false |}, e)).
  { unfold shr_fexp, Zdigits2, fexp, emin, Float32.prec, Float32.emax.
    rewrite Hd. replace (Z.max (24 + e - 24) (3 - 128 - 24) - e) with 0 by lia.
    reflexivity. }
  unfold binary_round_aux. rewrite Es.
  cbn [shr_m loc_of_shr_record round_nearest_even]. rewrite Es. cbn [shr_m].
  unfold Float32.emax, Float32.prec.
  destruct (Z.leb_spec e (128 - 24)); [ reflexivity | lia ].
Qed.

(** Trailing zero bits beyond 24 are shifted out without rounding. *)
Lemma round_aux_shift (r n : positive) (e : Z) :
  Zpos (digits2_pos r) = 24 -> -149 <= e + Zpos n <= 104 ->
  binary_round_aux Float32.prec Float32.emax false (Zpos (Pos.iter xO r n)) e loc_Exact
  = S754_finite false r (e + Zpos n).
Proof.
  intros Hd He.
  assert (Es : shr_fexp Float32.prec Float32.emax (Zpos (Pos.iter xO r n)) e loc_Exact
               = ({| shr_m := Zpos r; shr_r := false; shr_s := false |}, e + Zpos n)).
  { unfold shr_fexp, Zdigits2, fexp, emin, Float32.prec, Float32.emax.
    rewrite digits2_pos_shifted, Hd.
    replace (Z.max (24 + Zpos n + e - 24) (3 - 128 - 24) - e) with (Zpos n) by lia.
    cbn [shr shr_record_of_loc]. rewrite shr_iter_exact. reflexivity. }
  assert (Es' : shr_fexp Float32.prec Float32.emax (Zpos r) (e + Zpos n) loc_Exact
               = ({| shr_m := Zpos r; shr_r := false; shr_s := false |}, e + Zpos n)).
  { unfold shr_fexp, Zdigits2, fexp, emin, Float32.prec, Float32.emax.
    rewrite Hd.
    replace (Z.max (24 + (e + Zpos n) - 24) (3 - 128 - 24) - (e + Zpos n)) with 0 by lia.
    reflexivity. }
  unfold binary_round_aux. rewrite Es.
  cbn [shr_m loc_of_shr_record round_nearest_even]. rewrite Es'. cbn [shr_m].
  unfold Float32.emax, Float32.prec.
  destruct (Z.leb_spec (e + Zpos n) (128 - 24)); [ reflexivity | lia ].
Qed.

(** [static_cast<float>] of a size below 2^23 is exact. *)
Lemma of_size_t_small (p : positive) :
  Zpos (digits2_pos p) <= 23 ->
  Float32.of_size_t (Zpos p)
  = S754_finite false (Pos.iter xO p (Z.to_pos (24 - Zpos (digits2_pos p))))
                (Zpos (digits2_pos p) - 24).
Proof.
  intros Hd.
  unfold Float32.of_size_t, binary_normalize, binary_round, shl_align.
  unfold fexp, emin, Float32.prec, Float32.emax.
  replace (Z.max (Zpos (digits2_pos p) + 0 - 24) (3 - 128 - 24) - 0)
    with (Zneg (Z.to_pos (24 - Zpos (digits2_pos p)))) by lia.
  replace (Z.max (Zpos (digits2_pos p) + 0 - 24) (3 - 128 - 24))
    with (Zpos (digits2_pos p) - 24) by lia.
  apply round_aux_exact; [ | lia ].
  rewrite digits2_pos_shifted. lia.
Qed.

Lemma digits2_pos_le (p : positive) (n : Z) :
  0 <= n -> Zpos p < 2 ^ n -> Zpos (digits2_pos p) <= n.
Proof.
  intros Hn Hp. pose proof (digits2_pos_bounds p) as [Hlo _].
  destruct (Z.leb_spec (Zpos (digits2_pos p)) n) as [ | Hgt ]; [ assumption | exfalso ].
  assert (2 ^ n <= 2 ^ (Zpos (digits2_pos p) - 1)) by (apply Z.pow_le_mono_r; lia).
  lia.
Qed.

Lemma to_size_t_of_size_t (q : Z) :
  0 <= q < 2 ^ 23 -> Float32.to_size_t (Float32.of_size_t q) = Returned q.
Proof.
  intros [H0 H1]. destruct q as [ | p | p ]; [ reflexivity | | lia ].
  assert (Hd : Zpos (digits2_pos p) <= 23) by (apply digits2_pos_le; lia).
  rewrite of_size_t_small by assumption.
  unfold Float32.to_size_t.
  destruct (Z.leb_spec 0 (Zpos (digits2_pos p) - 24)); [ lia | ].
  rewrite Zpos_iter_xO, Z2Pos.id by lia.
  replace (- (Zpos (digits2_pos p) - 24)) with (24 - Zpos (digits2_pos p)) by lia.
  rewrite Z.div_mul by (apply Z.pow_nonzero; lia).
  unfold size_t_modulus.
  destruct (Z.leb_spec 0 (Zpos p)); [ | lia ].
  destruct (Z.ltb_spec (Zpos p) (2 ^ 64)); [ reflexivity | ].
  assert (2 ^ 23 <= 2 ^ 64) by (apply Z.pow_le_mono_r; lia). lia.
Qed.

(** The product with [0.75f] and its floor are exact as long as three
    times the size fits the 24 bits of the significand. *)
Lemma three_quarters_exact (k : Z) :
  0 <= k -> 3 * k < 2 ^ 24 ->
  Float32.to_size_t
    (Float32.floor (Float32.mul (Float32.of_size_t k) Float32.three_quarters))
  = Returned (3 * k / 4).
Proof.
  intros H0 H3. destruct k as [ | p | p ]; [ reflexivity | | lia ].
  assert (Hp : Zpos p < 2 ^ 23) by (change (2 ^ 24) with (2 * 2 ^ 23) in H3; lia).
  pose proof (digits2_pos_bounds p) as [Hlo Hhi].
  assert (Hd : Zpos (digits2_pos p) <= 23) by (apply digits2_pos_le; lia).
  set (d := Zpos (digits2_pos p)) in *.
  set (t := (p * 3)%positive).
  assert (Et : Zpos t = 3 * Zpos p) by (subst t; lia).
  pose proof (digits2_pos_bounds t) as [Tlo Thi].
  assert (HD : Zpos (digits2_pos t) <= 24) by (apply digits2_pos_le; lia).
  set (D := Zpos (digits2_pos t)) in *.
  assert (HDd : d + 1 <= D).
  { destruct (Z.leb_spec (d + 1) D) as [ | Hlt ]; [ assumption | exfalso ].
    assert (2 ^ D <= 2 ^ d) by (apply Z.pow_le_mono_r; subst D; lia).
    replace d with (Z.succ (d - 1)) in H by lia.
    rewrite Z.pow_succ_r in H by (subst d; lia). lia. }
  assert (Hpow : 0 < 2 ^ (24 - D)) by (apply Z.pow_pos_nonneg; lia).
  set (r := Z.to_pos (Zpos t * 2 ^ (24 - D))).
  assert (Er : Zpos r = Zpos t * 2 ^ (24 - D)) by (subst r; rewrite Z2Pos.id; lia).
  assert (Hr : Zpos (digits2_pos r) = 24).
  { apply digits2_pos_unique. rewrite Er.
    assert (E1 : 2 ^ (24 - 1) = 2 ^ (D - 1) * 2 ^ (24 - D))
      by (rewrite <- Z.pow_add_r by (subst D; lia); f_equal; lia).
    assert (E2 : 2 ^ 24 = 2 ^ D * 2 ^ (24 - D))
      by (rewrite <- Z.pow_add_r by (subst D; lia); f_equal; lia).
    rewrite E1, E2.
    split; [ apply Z.mul_le_mono_nonneg_r | apply Z.mul_lt_mono_pos_r ]; lia. }
  set (n := Z.to_pos (D + 22 - d)).
  assert (En : Zpos n = D + 22 - d) by (subst n; rewrite Z2Pos.id; lia).
  rewrite of_size_t_small by assumption. fold d.
  unfold Float32.mul, Float32.three_quarters, SFmul. cbn [xorb].
  replace (Pos.iter xO p (Z.to_pos (24 - d)) * 12582912)%positive
    with (Pos.iter xO r n).
  2:{ apply Pos2Z.inj. rewrite Pos2Z.inj_mul, !Zpos_iter_xO, Er, En, Et.
      rewrite Z2Pos.id by lia.
      change (Zpos 12582912) with (3 * 2 ^ 22).
      replace (3 * Zpos p * 2 ^ (24 - D) * 2 ^ (D + 22 - d))
        with (3 * Zpos p * (2 ^ (24 - D) * 2 ^ (D + 22 - d))) by ring.
      rewrite <- Z.pow_add_r by lia.
      replace (Zpos p * 2 ^ (24 - d) * (3 * 2 ^ 22))
        with (3 * Zpos p * (2 ^ (24 - d) * 2 ^ 22)) by ring.
      rewrite <- Z.pow_add_r by lia.
      do 2 f_equal. lia. }
  rewrite round_aux_shift by (assumption || lia).
  rewrite En. replace (d - 24 + -24 + (D + 22 - d)) with (D - 26) by lia.
  unfold Float32.floor.
  destruct (Z.leb_spec 0 (D - 26)); [ lia | ].
  replace (Zpos r / 2 ^ (- (D - 26))) with (3 * Zpos p / 4).
  2:{ rewrite Er, Et. replace (- (D - 26)) with (2 + (24 - D)) by lia.
      rewrite Z.pow_add_r by lia. change (2 ^ 2) with 4.
      rewrite Z.div_mul_cancel_r by lia. reflexivity. }
  apply to_size_t_of_size_t.
  split; [ apply Z.div_pos; lia | ].
  apply Z.div_lt_upper_bound; [ lia | ].
  change (4 * 2 ^ 23) with (2 * 2 ^ 24). lia.
Qed.

Lemma decoded_size_exact (n p : Z) :
  0 <= p <= n -> n < size_t_modulus -> 3 * (n - p) < 2 ^ 24 ->
  decoded_size n p = Returned (3 * (n - p) / 4).
Proof.
  intros Hp Hn H3. unfold decoded_size.
  rewrite wrap64_small by lia.
  apply three_quarters_exact; lia.
Qed.

(** *** Consequences for the decoders *)

Lemma resize_prefix (b g : list Z) : resize (b ++ g) (size b) = b.
Proof.
  unfold resize, size. rewrite Nat2Z.id, firstn_app, firstn_all, Nat.sub_diag, firstn_O.
  rewrite length_app. replace (length b - (length b + length g))%nat with 0%nat by lia.
  cbn [repeat]. rewrite !app_nil_r. reflexivity.
Qed.

Lemma resize_size (v : list Z) (n : Z) : 0 <= n -> size (resize v n) = n.
Proof.
  intros Hn. unfold resize, size. rewrite length_app, length_firstn, repeat_length. lia.
Qed.

Lemma leading_pads_bounds (v : list Z) : 0 <= leading_pads v <= size v.
Proof.
  unfold size. induction v as [ | c v IH ]; cbn [leading_pads length]; [ lia | ].
  destruct (c =? pad_char); lia.
Qed.

Lemma trailing_pads3_bounds (v : list Z) :
  0 <= trailing_pads3 v <= 3 /\ trailing_pads3 v <= size v.
Proof.
  unfold trailing_pads3.
  pose proof (leading_pads_bounds (firstn 3 (rev v))) as H.
  unfold size in *. rewrite length_firstn, length_rev in H. lia.
Qed.

Lemma scan_overruns_long (v : list Z) : 4 <= size v -> scan_overruns v = false.
Proof.
  intros H. unfold scan_overruns.
  destruct (Z.eqb_spec (size v) 0); [ lia | ].
  destruct (Z.eqb_spec (size v) 3); [ lia | ]. reflexivity.
Qed.

Lemma scanned_padding_long (v : list Z) : 3 <= size v -> scanned_padding v = trailing_pads3 v.
Proof.
  intros H. unfold scanned_padding. destruct (Z.ltb_spec (size v) 3); [ lia | reflexivity ].
Qed.

Lemma bytes_of_string_are_bytes (s : string) : Forall is_byte (bytes_of_string s).
Proof.
  unfold bytes_of_string. apply Forall_forall. intros x Hx.
  apply in_map_iff in Hx as [c [<- _]].
  unfold byte_of_ascii, is_byte.
  pose proof (N_ascii_bounded c). lia.
Qed.

(** X19: the two vector decoders on the bytes of any string: both overrun
    in the padding scan on the empty string and on ["==="], and on every
    other string both return the three bytes of every group of four
    characters of the zero-filled input, cut to the size computed in
    single precision. *)
Theorem vector_decoders_on_strings (encoded : string) :
  size (sv encoded) + 31 < size_t_modulus ->
  avx2_decode (sv encoded) = vector_decode 32 (sv encoded) /\
  sse4_decode (sv encoded) = vector_decode 16 (sv encoded).
Proof.
  intros Hlt. split.
  - apply avx2_decode_meaning; [ apply bytes_of_string_are_bytes | exact Hlt ].
  - apply sse4_decode_meaning; [ apply bytes_of_string_are_bytes | lia ].
Qed.

(** X20: on every string of at least four bytes that is short enough for
    the single-precision product to be exact, both vector decoders return, and
    what they return has [floor (0.75 * (size - padding))] bytes, where the
    padding is counted over the last three characters. *)
Theorem vector_output_size (s : list Z) :
  Forall is_byte s -> 4 <= size s -> 3 * size s < 2 ^ 24 ->
  exists out,
    avx2_decode s = Returned out /\ sse4_decode s = Returned out /\
    size out = 3 * (size s - trailing_pads3 s) / 4.
Proof.
  intros HB H4 H3.
  assert (Hlt : size s + 31 < size_t_modulus) by (unfold size_t_modulus; lia).
  pose proof (trailing_pads3_bounds s) as [Hp Hps].
  exists (resize (quads s) (3 * (size s - trailing_pads3 s) / 4)).
  rewrite avx2_decode_meaning, sse4_decode_meaning by (assumption || lia).
  unfold vector_decode.
  rewrite scan_overruns_long, scanned_padding_long by lia.
  rewrite decoded_size_exact by (unfold size_t_modulus; lia).
  cbn [bind]. repeat split.
  apply resize_size. apply Z.div_pos; lia.
Qed.

(** X21: the two vector decoders do the same on every string: both
    overrun, or both return the same bytes. *)
Theorem vector_decoders_agree (s : list Z) :
  Forall is_byte s -> size s + 31 < size_t_modulus ->
  returns (avx2_decode s) = returns (sse4_decode s) /\
  (forall out, avx2_decode s = Returned out <-> sse4_decode s = Returned out).
Proof.
  intros HB Hlt.
  rewrite avx2_decode_meaning, sse4_decode_meaning by (assumption || lia).
  unfold vector_decode.
  destruct (scan_overruns s).
  - split; [ reflexivity | ]. intros out; split; discriminate.
  - split; [ reflexivity | ]. intros out; split; auto.
Qed.

Lemma to_size_t_fault (x : spec_float) (f : fault) :
  Float32.to_size_t x = Undefined f -> f = FloatOutOfRange.
Proof.
  unfold Float32.to_size_t. destruct x as [ | | | sg m e ]; try congruence.
  match goal with |- context [if ?b then _ else _] => destruct b end; congruence.
Qed.

(** On every string except the empty one and ["==="] the vector decoders
    run into no access outside a vector and never out of fuel: the copy,
    every read of the scan, every block load and every store succeed. *)
Theorem vector_decoders_memory_safe (s : list Z) (f : fault) :
  Forall is_byte s -> size s + 31 < size_t_modulus -> scan_overruns s = false ->
  avx2_decode s = Undefined f \/ sse4_decode s = Undefined f ->
  f = FloatOutOfRange.
Proof.
  intros HB Hlt Ho.
  rewrite avx2_decode_meaning, sse4_decode_meaning by (assumption || lia).
  unfold vector_decode, decoded_size. rewrite Ho.
  destruct (Float32.to_size_t _) eqn:E; cbn [bind].
  - intros [H | H]; discriminate H.
  - apply to_size_t_fault in E. intros [H | H]; congruence.
Qed.

(** With a size for which the single-precision product is exact they
    return. *)
Theorem vector_decoders_in_bounds (s : list Z) :
  Forall is_byte s -> 3 * size s < 2 ^ 24 -> scan_overruns s = false ->
  returns (avx2_decode s) = true /\ returns (sse4_decode s) = true.
Proof.
  intros HB H3 Ho.
  assert (Hlt : size s + 31 < size_t_modulus) by (unfold size_t_modulus; lia).
  rewrite avx2_decode_meaning, sse4_decode_meaning by (assumption || lia).
  unfold vector_decode. rewrite Ho.
  assert (Hp : 0 <= scanned_padding s <= size s).
  { unfold scanned_padding. pose proof (trailing_pads3_bounds s).
    destruct (Z.ltb_spec (size s) 3); unfold size in *; lia. }
  rewrite decoded_size_exact by (unfold size_t_modulus; lia).
  split; reflexivity.
Qed.

(** All three decoders invert the reference encoder on every non-empty
    byte sequence of less than 2^22 bytes. *)
Theorem decoders_invert_encode (b : list Z) :
  Forall is_byte b -> b <> [] -> size b < 2 ^ 22 ->
  avx2_decode (encode b) = Returned b /\
  sse4_decode (encode b) = Returned b /\
  fallback_decode (encode b) = Returned b.
Proof.
  intros HB Hne Hsz.
  pose proof (encode_is_bytes b HB) as HE.
  pose proof (encode_size b) as Esz.
  destruct (encode_padding b HB Hne) as [Epad Hge].
  destruct (quads_encode b HB) as [g Eg].
  assert (Hb0 : 0 < size b) by (destruct b; [ contradiction | unfold size; cbn [length]; lia ]).
  assert (Hq : (3 * (size (encode b) - trailing_pads3 (encode b))) / 4 = size b
               /\ 3 * (size (encode b) - trailing_pads3 (encode b)) < 2 ^ 24
               /\ 0 <= trailing_pads3 (encode b) <= size (encode b)).
  { rewrite Epad, Esz. change (2 ^ 22) with 4194304 in Hsz. change (2 ^ 24) with 16777216.
    Z.div_mod_to_equations. lia. }
  destruct Hq as (Eq & Hq3 & Hq0).
  assert (Hlt : size (encode b) + 31 < size_t_modulus).
  { rewrite Esz. change (2 ^ 22) with 4194304 in Hsz. unfold size_t_modulus.
    Z.div_mod_to_equations. lia. }
  rewrite avx2_decode_meaning, sse4_decode_meaning by (assumption || lia).
  unfold vector_decode.
  rewrite scan_overruns_long, scanned_padding_long by lia.
  rewrite decoded_size_exact by (unfold size_t_modulus in *; lia).
  cbn [bind]. rewrite Eq, Eg, resize_prefix.
  repeat split. apply fallback_decode_encode. exact HB.
Qed.

(** So does [decode], whatever the CPU supports. *)
Theorem decode_inverts_encode (c : cpu) (b : list Z) :
  Forall is_byte b -> b <> [] -> size b < 2 ^ 22 ->
  decode c (encode b) = Returned b.
Proof.
  intros HB Hne Hsz.
  destruct (decoders_invert_encode b HB Hne Hsz) as (Ea & Es & Ef).
  unfold decode. destruct (supported (haswell c)); [ exact Ea | ].
  destruct (supported (westmere c)); [ exact Es | exact Ef ].
Qed.

(** *** Canonical strings *)

Lemma in_alphabet_facts (c : Z) :
  in_alphabet c = true ->
  0 <= find_six_bit c < 64 /\ encode_char (find_six_bit c) = c /\ c <> pad_char.
Proof.
  unfold in_alphabet. intros H. apply existsb_exists in H as (x & Hx & E).
  apply Z.eqb_eq in E. subst x.
  assert (Hok : forallb alphabet_ok base64_chars = true) by (vm_compute; reflexivity).
  rewrite forallb_forall in Hok. specialize (Hok c Hx).
  unfold alphabet_ok in Hok. rewrite !andb_true_iff in Hok.
  destruct Hok as [[[H0 H1] H2] H3].
  apply Z.leb_le in H0. apply Z.ltb_lt in H1. apply Z.eqb_eq in H2.
  apply negb_true_iff, Z.eqb_neq in H3. auto.
Qed.

Lemma bytes_of_sextets (v0 v1 v2 v3 : Z) :
  0 <= v0 < 64 -> 0 <= v1 < 64 -> 0 <= v2 < 64 -> 0 <= v3 < 64 ->
  let x := v0 * 4 + v1 / 16 in
  let y := (v1 mod 16) * 16 + v2 / 4 in
  let z := (v2 mod 4) * 64 + v3 in
  is_byte x /\ is_byte y /\ is_byte z /\
  x / 4 = v0 /\ (x mod 4) * 16 + y / 16 = v1 /\
  (y mod 16) * 4 + z / 64 = v2 /\ z mod 64 = v3 /\
  (v1 mod 16 = 0 -> (x mod 4) * 16 = v1) /\
  (v2 mod 4 = 0 -> (y mod 16) * 4 = v2).
Proof.
  intros H0 H1 H2 H3. cbv zeta. unfold is_byte.
  pose proof (Z.div_mod v1 16 ltac:(lia)) as D1.
  pose proof (Z.mod_pos_bound v1 16 ltac:(lia)) as B1.
  pose proof (Z.div_mod v2 4 ltac:(lia)) as D2.
  pose proof (Z.mod_pos_bound v2 4 ltac:(lia)) as B2.
  revert D1 B1 D2 B2.
  generalize (v1 / 16) (v1 mod 16) (v2 / 4) (v2 mod 4). intros q1 r1 q2 r2 D1 B1 D2 B2.
  assert (0 <= q1 < 4 /\ 0 <= q2 < 16) as [Q1 Q2] by lia.
  repeat match goal with |- _ /\ _ => split end;
    try match goal with |- _ = _ -> _ => intros ? end;
    Z.div_mod_to_equations; lia.
Qed.

Lemma canonical_base64_is_encoding (s : list Z) :
  canonical_base64 s = true ->
  Forall is_byte (bytes_of_base64 s) /\ encode (bytes_of_base64 s) = s.
Proof.
  induction s as [ | a | a b | a b c | c0 c1 c2 c3 r IH ] using list_ind4;
    intros H; try discriminate H.
  - split; [ constructor | reflexivity ].
  - cbn [canonical_base64] in H.
    apply andb_true_iff in H as [H01 H].
    apply andb_true_iff in H01 as [A0 A1].
    destruct (in_alphabet_facts _ A0) as (V0 & E0 & N0).
    destruct (in_alphabet_facts _ A1) as (V1 & E1 & N1).
    destruct r as [ | r0 r ].
    + (* the last group *)
      cbn [bytes_of_base64]. rewrite app_nil_r.
      destruct (Z.eqb_spec c3 pad_char) as [-> | N3].
      * destruct (Z.eqb_spec c2 pad_char) as [-> | N2].
        -- apply Z.eqb_eq in H.
           destruct (bytes_of_sextets _ _ 0 0 V0 V1 ltac:(lia) ltac:(lia))
             as (Bx & _ & _ & Ex & _ & _ & _ & Ey & _).
           split; [ repeat (apply Forall_cons; [ assumption | ]); apply Forall_nil | ].
           cbn [encode]. rewrite Ex, (Ey H), E0, E1. reflexivity.
        -- apply andb_true_iff in H as [A2 H]. apply Z.eqb_eq in H.
           destruct (in_alphabet_facts _ A2) as (V2 & E2 & _).
           destruct (bytes_of_sextets _ _ _ 0 V0 V1 V2 ltac:(lia))
             as (Bx & By & _ & Ex & Ey & _ & _ & _ & Ez).
           split; [ repeat (apply Forall_cons; [ assumption | ]); apply Forall_nil | ].
           cbn [encode]. rewrite Ex, Ey, (Ez H), E0, E1, E2. reflexivity.
      * apply andb_true_iff in H as [A2 A3].
        destruct (in_alphabet_facts _ A2) as (V2 & E2 & _).
        destruct (in_alphabet_facts _ A3) as (V3 & E3 & _).
        destruct (bytes_of_sextets _ _ _ _ V0 V1 V2 V3)
          as (Bx & By & Bz & Ex & Ey & Ez & Ew & _).
        split; [ repeat (apply Forall_cons; [ assumption | ]); apply Forall_nil | ].
        cbn [encode]. rewrite Ex, Ey, Ez, Ew, E0, E1, E2, E3. reflexivity.
    + (* a group followed by more *)
      apply andb_true_iff in H as [H23 Hr].
      apply andb_true_iff in H23 as [A2 A3].
      destruct (in_alphabet_facts _ A2) as (V2 & E2 & _).
      destruct (in_alphabet_facts _ A3) as (V3 & E3 & N3).
      destruct (bytes_of_sextets _ _ _ _ V0 V1 V2 V3)
        as (Bx & By & Bz & Ex & Ey & Ez & Ew & _).
      destruct (IH Hr) as [HB HE].
      change (bytes_of_base64 (c0 :: c1 :: c2 :: c3 :: r0 :: r))
        with ((if c3 =? pad_char then
                 if c2 =? pad_char then [find_six_bit c0 * 4 + find_six_bit c1 / 16]
                 else [find_six_bit c0 * 4 + find_six_bit c1 / 16;
                       (find_six_bit c1 mod 16) * 16 + find_six_bit c2 / 4]
               else [find_six_bit c0 * 4 + find_six_bit c1 / 16;
                     (find_six_bit c1 mod 16) * 16 + find_six_bit c2 / 4;
                     (find_six_bit c2 mod 4) * 64 + find_six_bit c3])
              ++ bytes_of_base64 (r0 :: r)).
      destruct (Z.eqb_spec c3 pad_char) as [ | _ ]; [ contradiction | ].
      split.
      * cbn [app]. repeat (apply Forall_cons; [ assumption | ]). exact HB.
      * cbn [app]. rewrite encode_cons3, HE, Ex, Ey, Ez, Ew, E0, E1, E2, E3. reflexivity.
Qed.

Lemma in_alphabet_encode_char (v : Z) : 0 <= v < 64 -> in_alphabet (encode_char v) = true.
Proof.
  intros Hv. unfold in_alphabet, encode_char.
  apply existsb_exists. exists (nth (Z.to_nat v) base64_chars 0).
  split; [ | apply Z.eqb_refl ].
  apply nth_In. change (length base64_chars) with 64%nat. lia.
Qed.

(** Every encoding is canonical, so the canonical strings are exactly the
    encodings. *)
Lemma encode_is_canonical (b : list Z) :
  Forall is_byte b -> canonical_base64 (encode b) = true.
Proof.
  induction b as [ | x | x y | x y z r IH ] using list_ind3; intros HB.
  - reflexivity.
  - invert_bytes.
    match goal with H : is_byte x |- _ =>
      destruct (sextets_of_bytes x 0 0 H) as (S0 & _ & _ & _ & S1 & _);
        [ unfold is_byte; lia | unfold is_byte; lia | ] end.
    destruct (encode_char_facts _ S1) as (_ & _ & _ & F1).
    cbn [encode canonical_base64].
    rewrite !in_alphabet_encode_char by assumption. rewrite !Z.eqb_refl, F1.
    cbn [andb]. apply Z.eqb_eq. apply Z.mod_mul. lia.
  - invert_bytes.
    match goal with Hx : is_byte x, Hy : is_byte y |- _ =>
      destruct (sextets_of_bytes x y 0 Hx Hy) as (S0 & S1 & _ & _ & _ & S2);
        [ unfold is_byte; lia | ] end.
    destruct (encode_char_facts _ S2) as (_ & N2 & _ & F2).
    apply Z.eqb_neq in N2.
    cbn [encode canonical_base64].
    rewrite !in_alphabet_encode_char by assumption. rewrite Z.eqb_refl, N2, F2.
    cbn [andb]. apply Z.eqb_eq. apply Z.mod_mul. lia.
  - invert_bytes.
    match goal with Hx : is_byte x, Hy : is_byte y, Hz : is_byte z |- _ =>
      destruct (sextets_of_bytes x y z Hx Hy Hz) as (S0 & S1 & S2 & S3 & _ & _) end.
    destruct (encode_char_facts _ S3) as (_ & N3 & _ & _).
    apply Z.eqb_neq in N3.
    rewrite encode_cons3. cbn [app canonical_base64].
    rewrite !in_alphabet_encode_char by assumption. rewrite N3. cbn [andb].
    specialize (IH ltac:(assumption)).
    destruct (encode r); [ reflexivity | exact IH ].
Qed.

(** On every non-empty canonical base64 string the three decoders return
    the same bytes. *)
Theorem decoders_agree_on_canonical (s : list Z) :
  canonical_base64 s = true -> s <> [] -> 3 * size s < 2 ^ 24 ->
  avx2_decode s = Returned (bytes_of_base64 s) /\
  sse4_decode s = Returned (bytes_of_base64 s) /\
  fallback_decode s = Returned (bytes_of_base64 s).
Proof.
  intros Hc Hne Hsz.
  destruct (canonical_base64_is_encoding s Hc) as [HB HE].
  assert (Hb : bytes_of_base64 s <> []).
  { intros E. rewrite E in HE. cbn [encode] in HE. congruence. }
  pose proof (encode_size (bytes_of_base64 s)) as Esz. rewrite HE in Esz.
  assert (Hlt : size (bytes_of_base64 s) < 2 ^ 22).
  { change (2 ^ 24) with 16777216 in Hsz. change (2 ^ 22) with 4194304.
    Z.div_mod_to_equations. lia. }
  pose proof (decoders_invert_encode _ HB Hb Hlt) as Hd.
  rewrite HE in Hd. exact Hd.
Qed.

Lemma decoders_differ_on_nonzero_pad_bits :
  canonical_base64 (sv "//==") = false /\
  avx2_decode (sv "//==") = Returned [0] /\
  sse4_decode (sv "//==") = Returned [0] /\
  fallback_decode (sv "//==") = Returned [255].
Proof. repeat split; reflexivity. Qed.

(** The model on text: a string of two 32-byte blocks through each
    decoder. *)
Example decode_pangram :
  let encoded := sv "VGhlIHF1aWNrIGJyb3duIGZveCBqdW1wcyBvdmVyIHRoZSBsYXp5IGRvZw==" in
  let text := sv "The quick brown fox jumps over the lazy dog" in
  avx2_decode encoded = Returned text /\
  sse4_decode encoded = Returned text /\
  fallback_decode encoded = Returned text /\
  encode text = encoded.
Proof. repeat split; vm_compute; reflexivity. Qed.

(** The reference encoder on the test vectors of RFC 4648. *)
Example encode_rfc4648_vectors :
  map (fun s => string_of_bytes (encode (sv s)))
      ["f"; "fo"; "foo"; "foob"; "fooba"; "foobar"]%string
  = ["Zg=="; "Zm8="; "Zm9v"; "Zm9vYg=="; "Zm9vYmE="; "Zm9vYmFy"]%string.
Proof. reflexivity. Qed.

(** ** The statements of the specification about the decoders *)

(** C4: on the empty string the scalar decoder returns the empty sequence,
    but the two vector decoders do not return it: their padding scan starts
    at index [encodedSize - 1], which is [SIZE_MAX] for an empty string, and
    reads [input[SIZE_MAX]] of an empty vector.  [decode] therefore returns
    the empty sequence only on a CPU that supports neither vector
    extension. *)
Theorem decode_empty_string :
  avx2_decode (sv "") = Undefined (OutOfBoundsRead 18446744073709551615 0) /\
  sse4_decode (sv "") = Undefined (OutOfBoundsRead 18446744073709551615 0) /\
  fallback_decode (sv "") = Returned [] /\
  (forall c : cpu,
     decode c (sv "")
     = if supported (haswell c) || supported (westmere c)
       then Undefined (OutOfBoundsRead 18446744073709551615 0)
       else Returned []).
Proof.
  repeat split; try reflexivity.
  intros [[[]|] [[]|]]; reflexivity.
Qed.

(** C1: the empty string is valid base64 of length 0 without padding, and
    on it the three decoders do not agree: the scalar decoder returns, the
    two vector decoders run into undefined behaviour. *)
Theorem decoders_differ_on_empty_string :
  returns (avx2_decode (sv "")) = false /\
  returns (sse4_decode (sv "")) = false /\
  returns (fallback_decode (sv "")) = true /\
  avx2_decode (sv "") <> fallback_decode (sv "") /\
  sse4_decode (sv "") <> fallback_decode (sv "").
Proof.
  repeat split; try reflexivity; discriminate.
Qed.

(** C3: the reference encoding of the empty byte sequence is the empty
    string, and [decode] of it is undefined on every CPU that dispatches to
    a vector decoder. *)
Theorem decode_of_encoded_empty :
  encode [] = sv "" /\
  (forall westmere_impl : option bool,
     decode {| haswell := Some true; westmere := westmere_impl |} (encode [])
     = Undefined (OutOfBoundsRead 18446744073709551615 0)) /\
  decode {| haswell := Some false; westmere := Some true |} (encode [])
  = Undefined (OutOfBoundsRead 18446744073709551615 0) /\
  decode {| haswell := None; westmere := Some true |} (encode [])
  = Undefined (OutOfBoundsRead 18446744073709551615 0).
Proof.
  repeat split; reflexivity.
Qed.

(** C6: [decode "/w=="] is the byte 0xFF and [decode "/+8="] the bytes
    0xFF 0xEF, whichever decoder the CPU selects; a vector of ['/'] is
    translated to 63 in every lane by both lookups, through the added 16 of
    the equality test, and the scalar table finds ['/'] at position 63. *)
Theorem decode_slash_fixtures :
  (forall c : cpu, decode c (sv "/w==") = Returned [0xFF]) /\
  (forall c : cpu, decode c (sv "/+8=") = Returned [0xFF; 0xEF]) /\
  lookup_pshufb_bitmask (mm256_set1_epi8 0x2f) = mm256_set1_epi8 63 /\
  sse4_lookup_pshufb_bitmask (mm_set1_epi8 0x2f) = mm_set1_epi8 63 /\
  shift_of 0x2f = 16 /\
  find_six_bit 0x2f = 63.
Proof.
  repeat split; try reflexivity.
  - intros [[[]|] [[]|]]; reflexivity.
  - intros [[[]|] [[]|]]; reflexivity.
Qed.

(** C10: on the non-empty string ["==="] the padding scan of both vector
    decoders leaves the input: with [encodedSize = 3] its bound
    [encodedSize - 3] is 0, every index passes [i >= 0], and after the
    three ['='] at indices 2, 1 and 0 the index wraps to [SIZE_MAX], which
    is read. *)
Theorem padding_scan_overruns_on_three_pads :
  avx2_decode (sv "===") = Undefined (OutOfBoundsRead 18446744073709551615 32) /\
  sse4_decode (sv "===") = Undefined (OutOfBoundsRead 18446744073709551615 16) /\
  scan_padding 4 (sv "===" ++ repeat 0 29) 3 2 0
  = Undefined (OutOfBoundsRead 18446744073709551615 32).
Proof.
  split; [ reflexivity | ]. split; reflexivity.
Qed.

Lemma Forall_is_byte_repeat (c : Z) (n : nat) : is_byte c -> Forall is_byte (repeat c n).
Proof.
  intros Hc. apply Forall_forall. intros x Hx. apply repeat_spec in Hx. subst. exact Hc.
Qed.

(** C5: the output of the vector decoders does not have
    [floor (0.75 * (length - padding))] bytes on every string.  On the
    empty string they return nothing.  On ["a="], of one trailing ['='],
    the scan is skipped and they return one byte where the formula gives
    none.  On the encoding of 8388613 zero bytes, 11184820 characters with
    two trailing ['='], the product [11184818 * 0.75f] is rounded to
    8388614 in single precision, and they return 8388614 bytes. *)
Theorem vector_output_size_failures :
  returns (avx2_decode (sv "")) = false /\
  returns (sse4_decode (sv "")) = false /\
  (avx2_decode (sv "a=") = Returned [108] /\ sse4_decode (sv "a=") = Returned [108] /\
   trailing_pads (sv "a=") = 1 /\ 3 * (size (sv "a=") - trailing_pads (sv "a=")) / 4 = 0) /\
  (size long_valid_input = 11184820 /\ trailing_pads3 long_valid_input = 2 /\
   3 * (size long_valid_input - 2) / 4 = 8388613 /\
   exists out,
     avx2_decode long_valid_input = Returned out /\
     sse4_decode long_valid_input = Returned out /\
     size out = 8388614).
Proof.
  split; [ reflexivity | ]. split; [ reflexivity | ].
  split; [ repeat split; reflexivity | ].
  assert (HB : Forall is_byte long_valid_input).
  { unfold long_valid_input. apply Forall_app. split.
    - apply Forall_is_byte_repeat. unfold is_byte. lia.
    - repeat constructor; unfold is_byte, pad_char; lia. }
  assert (Es : size long_valid_input = 11184820).
  { unfold long_valid_input, size. rewrite length_app, repeat_length.
    cbn [length]. rewrite Nat2Z.inj_add, Z2Nat.id by lia. reflexivity. }
  assert (Ep : trailing_pads3 long_valid_input = 2).
  { unfold long_valid_input. rewrite trailing_pads3_last_three. reflexivity. }
  split; [ exact Es | ]. split; [ exact Ep | ].
  split; [ rewrite Es; reflexivity | ].
  exists (resize (quads long_valid_input) 8388614).
  rewrite avx2_decode_meaning, sse4_decode_meaning
    by (assumption || (rewrite Es; unfold size_t_modulus; lia)).
  unfold vector_decode.
  rewrite scan_overruns_long, scanned_padding_long by (rewrite Es; lia).
  rewrite Es, Ep.
  assert (Ed : decoded_size 11184820 2 = Returned 8388614) by (vm_compute; reflexivity).
  rewrite Ed. unfold bind.
  split; [ reflexivity | ]. split; [ reflexivity | ].
  apply resize_size. lia.
Qed.

(** ** The flag enumerations and their operators *)

Section FlagFacts.
Import Parser.

Lemma land_lor_test (a x f : Z) :
  Z.land (Z.lor a x) f = Z.lor (Z.land a f) (Z.land x f).
Proof. apply Z.land_lor_distr_l. Qed.

Lemma extensions_pairwise (g f : Extensions) :
  Z.land (extensions_value g) (extensions_value f)
  = if extensions_value g =? extensions_value f then extensions_value f else 0.
Proof. destruct g, f; reflexivity. Qed.

Lemma extensions_value_injective (g f : Extensions) :
  extensions_value g = extensions_value f -> g = f.
Proof. destruct g, f; intros H; try reflexivity; discriminate H. Qed.

Lemma extensions_test (fs : list Extensions) (f : Extensions) :
  extensions_and (extensions_of fs) (extensions_value f)
  = if existsb (fun g => extensions_value g =? extensions_value f) fs
    then extensions_value f else 0.
Proof.
  unfold extensions_and. induction fs as [ | g fs IH ].
  - destruct f; reflexivity.
  - cbn [extensions_of fold_right existsb]. fold (extensions_of fs).
    unfold extensions_or. rewrite land_lor_test, IH, extensions_pairwise.
    destruct (extensions_value g =? extensions_value f); cbn [orb].
    + destruct (existsb _ fs); [ apply Z.lor_diag | apply Z.lor_0_r ].
    + apply Z.lor_0_l.
Qed.

Lemma extensions_listed (fs : list Extensions) (f : Extensions) :
  existsb (fun g => extensions_value g =? extensions_value f) fs = true <-> In f fs.
Proof.
  rewrite existsb_exists. split.
  - intros (g & Hg & E). apply Z.eqb_eq, extensions_value_injective in E. subst. exact Hg.
  - intros H. exists f. split; [ exact H | apply Z.eqb_refl ].
Qed.

(** X1: the enumerators of [Extensions] other than [None] are single bits,
    all different, so [operator&] tests membership exactly: for a value
    built with [operator|] from any list of enumerators, [value & f] is [f]
    when [f] is [None] or is in the list, and is [None] for every other
    enumerator. *)
Theorem extensions_test_is_membership (fs : list Extensions) (f : Extensions) :
  (extensions_and (extensions_of fs) (extensions_value f) = extensions_value f
   <-> f = Extensions_None \/ In f fs) /\
  (extensions_and (extensions_of fs) (extensions_value f)
   <> extensions_value Extensions_None
   <-> f <> Extensions_None /\ In f fs).
Proof.
  rewrite extensions_test. pose proof (extensions_listed fs f) as HL.
  destruct (existsb _ fs).
  - assert (Hin : In f fs) by (apply HL; reflexivity). split.
    + split; [ intros _; right; exact Hin | reflexivity ].
    + split.
      * intros Hne. split; [ intros ->; apply Hne; reflexivity | exact Hin ].
      * intros [Hne _] E. apply Hne. apply extensions_value_injective. exact E.
  - assert (Hout : ~ In f fs) by (intros Hin; apply HL in Hin; discriminate Hin). split.
    + split.
      * intros E. left. apply extensions_value_injective. symmetry. exact E.
      * intros [-> | Hin]; [ reflexivity | contradiction ].
    + split.
      * intros Hne. exfalso. apply Hne. reflexivity.
      * intros [_ Hin]. contradiction.
Qed.

Lemma options_pairwise (g f : Options) :
  Z.land (options_value g) (options_value f)
  = if options_value g =? options_value f then options_value f else 0.
Proof. destruct g, f; reflexivity. Qed.

Lemma options_value_injective (g f : Options) :
  options_value g = options_value f -> g = f.
Proof. destruct g, f; intros H; try reflexivity; discriminate H. Qed.

Lemma options_test (os : list Options) (o : Options) :
  options_and (options_of os) (options_value o)
  = if existsb (fun g => options_value g =? options_value o) os
    then options_value o else 0.
Proof.
  unfold options_and. induction os as [ | g os IH ].
  - destruct o; reflexivity.
  - cbn [options_of fold_right existsb]. fold (options_of os).
    unfold options_or. rewrite land_lor_test, IH, options_pairwise.
    destruct (options_value g =? options_value o); cbn [orb].
    + destruct (existsb _ os); [ apply Z.lor_diag | apply Z.lor_0_r ].
    + apply Z.lor_0_l.
Qed.

Lemma options_listed (os : list Options) (o : Options) :
  existsb (fun g => options_value g =? options_value o) os = true <-> In o os.
Proof.
  rewrite existsb_exists. split.
  - intros (g & Hg & E). apply Z.eqb_eq, options_value_injective in E. subst. exact Hg.
  - intros H. exists o. split; [ exact H | apply Z.eqb_refl ].
Qed.

(** X2: the same for [Options], whose enumerators other than [None] are the
    bits 0 to 4: for a value built with [operator|] from any list of
    enumerators, [value & o] is different from [None] exactly when [o] is
    an enumerator of the list other than [None], and then it is [o]. *)
Theorem options_test_is_membership (os : list Options) (o : Options) :
  (options_and (options_of os) (options_value o) = options_value o
   <-> o = Options_None \/ In o os) /\
  (options_and (options_of os) (options_value o) <> options_value Options_None
   <-> o <> Options_None /\ In o os).
Proof.
  rewrite options_test. pose proof (options_listed os o) as HL.
  destruct (existsb _ os).
  - assert (Hin : In o os) by (apply HL; reflexivity). split.
    + split; [ intros _; right; exact Hin | reflexivity ].
    + split.
      * intros Hne. split; [ intros ->; apply Hne; reflexivity | exact Hin ].
      * intros [Hne _] E. apply Hne. apply options_value_injective. exact E.
  - assert (Hout : ~ In o os) by (intros Hin; apply HL in Hin; discriminate Hin). split.
    + split.
      * intros E. left. apply options_value_injective. symmetry. exact E.
      * intros [-> | Hin]; [ reflexivity | contradiction ].
    + split.
      * intros Hne. exfalso. apply Hne. reflexivity.
      * intros [_ Hin]. contradiction.
Qed.


End FlagFacts.

(** ** The steps of the vector decoders *)

Lemma find_six_bit_facts (c : Z) : is_byte c -> find_ok c = true.
Proof. apply (for_all_bytes find_ok). vm_compute. reflexivity. Qed.

Lemma in_alphabet_is_byte (c : Z) : in_alphabet c = true -> is_byte c.
Proof.
  unfold in_alphabet. intros H. apply existsb_exists in H as (x & Hx & E).
  apply Z.eqb_eq in E. subst x.
  assert (Hok : forallb is_byteb base64_chars = true) by (vm_compute; reflexivity).
  rewrite forallb_forall in Hok. specialize (Hok c Hx).
  unfold is_byteb in Hok. apply andb_true_iff in Hok as [H0 H1].
  apply Z.leb_le in H0. apply Z.ltb_lt in H1. split; assumption.
Qed.

Lemma alphabet_sextet (c : Z) :
  in_alphabet c = true -> sextet_of c = find_six_bit c /\ 0 <= find_six_bit c < 64.
Proof.
  intros H. pose proof (find_six_bit_facts c (in_alphabet_is_byte c H)) as Hok.
  unfold find_ok in Hok. rewrite H in Hok. rewrite !andb_true_iff in Hok.
  destruct Hok as [[[H0 H1] _] H3].
  apply Z.leb_le in H0. apply Z.ltb_lt in H1. apply Z.eqb_eq in H3. auto.
Qed.

Lemma alphabet_vector (v : list Z) :
  forallb in_alphabet v = true ->
  Forall is_byte v /\ map sextet_of v = map find_six_bit v /\
  Forall (fun a => 0 <= a < 64) (map find_six_bit v).
Proof.
  intros H. rewrite forallb_forall in H. repeat split.
  - apply Forall_forall. intros c Hc. apply in_alphabet_is_byte, H, Hc.
  - apply map_ext_in. intros c Hc. apply alphabet_sextet, H, Hc.
  - apply Forall_forall. intros a Ha. apply in_map_iff in Ha as (c & <- & Hc).
    apply alphabet_sextet, H, Hc.
Qed.

(** X4: on a vector of characters of the base64 alphabet both lookups give,
    in every lane, what the scalar decoder finds in [base64_chars]: the
    position of the character, a value below 64. *)
Theorem lookups_agree_with_table (v w : list Z) :
  length v = 32%nat -> length w = 16%nat ->
  forallb in_alphabet v = true -> forallb in_alphabet w = true ->
  lookup_pshufb_bitmask v = map find_six_bit v /\
  sse4_lookup_pshufb_bitmask w = map find_six_bit w /\
  Forall (fun a => 0 <= a < 64) (lookup_pshufb_bitmask v) /\
  Forall (fun a => 0 <= a < 64) (sse4_lookup_pshufb_bitmask w).
Proof.
  intros Lv Lw Hv Hw.
  destruct (alphabet_vector v Hv) as (Bv & Ev & Rv).
  destruct (alphabet_vector w Hw) as (Bw & Ew & Rw).
  assert (E1 : lookup_pshufb_bitmask v = map find_six_bit v).
  { rewrite avx2_lookup_meaning; [ exact Ev | exact Bv | rewrite Lv; reflexivity
                                 | rewrite Lv; apply Nat.le_refl ]. }
  assert (E2 : sse4_lookup_pshufb_bitmask w = map find_six_bit w).
  { rewrite sse4_lookup_meaning; [ exact Ew | exact Bw | rewrite Lw; reflexivity
                                 | rewrite Lw; apply Nat.le_refl ]. }
  rewrite E1, E2. auto.
Qed.

Lemma lookups_agree_with_table_witness :
  lookup_pshufb_bitmask (sv "ABCDEFGHIJKLMNOPQRSTUVWXYZabcdef")
  = map find_six_bit (sv "ABCDEFGHIJKLMNOPQRSTUVWXYZabcdef") /\
  sse4_lookup_pshufb_bitmask (sv "ghijklmnopqrstuv")
  = map find_six_bit (sv "ghijklmnopqrstuv") /\
  Forall (fun a => 0 <= a < 64)
         (lookup_pshufb_bitmask (sv "ABCDEFGHIJKLMNOPQRSTUVWXYZabcdef")) /\
  Forall (fun a => 0 <= a < 64) (sse4_lookup_pshufb_bitmask (sv "ghijklmnopqrstuv")).
Proof.
  apply (lookups_agree_with_table (sv "ABCDEFGHIJKLMNOPQRSTUVWXYZabcdef")
                                  (sv "ghijklmnopqrstuv")); reflexivity.
Defined.

Lemma pack_word_bytes (a0 a1 a2 a3 : Z) :
  0 <= a0 < 64 -> 0 <= a1 < 64 -> 0 <= a2 < 64 -> 0 <= a3 < 64 ->
  le_bytes 4 (pack_word a0 a1 a2 a3)
  = [ (a2 mod 4) * 64 + a3; (a1 mod 16) * 16 + a2 / 4; a0 * 4 + a1 / 16; 0 ].
Proof.
  intros H0 H1 H2 H3.
  destruct (bytes_of_sextets a0 a1 a2 a3 H0 H1 H2 H3) as (Bx & By & Bz & _).
  cbv zeta in Bx, By, Bz.
  assert (E : pack_word a0 a1 a2 a3
              = 65536 * (a0 * 4 + a1 / 16) + 256 * ((a1 mod 16) * 16 + a2 / 4)
                + ((a2 mod 4) * 64 + a3)).
  { unfold pack_word. Z.div_mod_to_equations. lia. }
  rewrite E. revert Bx By Bz.
  generalize (a0 * 4 + a1 / 16) ((a1 mod 16) * 16 + a2 / 4) ((a2 mod 4) * 64 + a3).
  intros x y z Bx By Bz.
  pose proof (bytes_of_word x y z Bx By Bz) as Hw.
  assert (Et : (65536 * x + 256 * y + z) / 256 / 256 / 256 mod 256 = 0)
    by (unfold is_byte in *; Z.div_mod_to_equations; lia).
  revert Hw Et. generalize (65536 * x + 256 * y + z). intros w Hw Et.
  injection Hw as Ex Ey Ez.
  cbn [le_bytes]. rewrite Ex, Ey, Ez, Et. reflexivity.
Qed.

(** X5: [pack_ints] and [sse4_pack_ints] join the four bytes of every
    32-bit lane without saturation, the first byte highest:
    [((a0 * 64 + a1) * 4096) + (a2 * 64 + a3)].  For four six-bit values
    the lane then holds, from its third byte down to its first, the three
    bytes the values spell, and a zero byte on top. *)
Theorem pack_ints_joins_lanes (v w : list Z) :
  length v = 32%nat -> length w = 16%nat -> Forall is_byte v -> Forall is_byte w ->
  pack_ints v = pack_lanes v /\ sse4_pack_ints w = pack_lanes w /\
  (forall a0 a1 a2 a3 : Z,
     0 <= a0 < 64 -> 0 <= a1 < 64 -> 0 <= a2 < 64 -> 0 <= a3 < 64 ->
     sse4_pack_ints ([a0; a1; a2; a3] ++ skipn 4 w)
     = [ (a2 mod 4) * 64 + a3; (a1 mod 16) * 16 + a2 / 4; a0 * 4 + a1 / 16; 0 ]
         ++ pack_lanes (skipn 4 w)).
Proof.
  intros Lv Lw Bv Bw. split; [ | split ].
  - unfold pack_ints, mm256_set1_epi32.
    apply pack_meaning_gen; [ exact Bv | rewrite Lv; reflexivity | rewrite Lv; apply Nat.le_refl ].
  - unfold sse4_pack_ints, mm_set1_epi32.
    apply pack_meaning_gen; [ exact Bw | rewrite Lw; reflexivity | rewrite Lw; apply Nat.le_refl ].
  - intros a0 a1 a2 a3 H0 H1 H2 H3.
    assert (Ls : length (skipn 4 w) = 12%nat) by (rewrite length_skipn, Lw; reflexivity).
    unfold sse4_pack_ints, mm_set1_epi32.
    rewrite pack_meaning_gen.
    + cbn [app pack_lanes]. rewrite pack_word_bytes by assumption. reflexivity.
    + apply Forall_app. split.
      * repeat (apply Forall_cons; [ unfold is_byte; lia | ]). apply Forall_nil.
      * apply Forall_forall. intros x Hx. rewrite Forall_forall in Bw.
        apply Bw. rewrite <- (firstn_skipn 4 w). apply in_or_app. right. exact Hx.
    + rewrite length_app, Ls. reflexivity.
    + rewrite length_app, Ls. cbn [length]. apply Nat.le_refl.
Qed.

Lemma pack_ints_joins_lanes_witness :
  pack_ints (repeat 63 32) = pack_lanes (repeat 63 32) /\
  sse4_pack_ints (repeat 63 16) = pack_lanes (repeat 63 16) /\
  (forall a0 a1 a2 a3 : Z,
     0 <= a0 < 64 -> 0 <= a1 < 64 -> 0 <= a2 < 64 -> 0 <= a3 < 64 ->
     sse4_pack_ints ([a0; a1; a2; a3] ++ skipn 4 (repeat 63 16))
     = [ (a2 mod 4) * 64 + a3; (a1 mod 16) * 16 + a2 / 4; a0 * 4 + a1 / 16; 0 ]
         ++ pack_lanes (skipn 4 (repeat 63 16))).
Proof.
  apply (pack_ints_joins_lanes (repeat 63 32) (repeat 63 16));
    try reflexivity; apply Forall_is_byte_repeat; unfold is_byte; lia.
Defined.

(** X6: the size of the padded copy of the input,
    [(encodedSize + dataSetSize - 1) & -dataSetSize], is the least multiple
    of the block width that is not below the size of the input, for the
    blocks of 32 bytes of [avx2_decode] and for the blocks of 16 bytes of
    [sse4_decode], as long as the sum does not wrap. *)
Theorem padded_size_least_multiple (n : Z) :
  0 <= n -> n + 31 < size_t_modulus ->
  (padded_size n 32 mod 32 = 0 /\ n <= padded_size n 32 < n + 32) /\
  (padded_size n 16 mod 16 = 0 /\ n <= padded_size n 16 < n + 16).
Proof.
  intros Hn Hlt. unfold size_t_modulus in Hlt.
  rewrite (padded_size_spec n 32 5), (padded_size_spec n 16 4) by (reflexivity || lia).
  split; split.
  - rewrite Z.mul_comm. apply Z.mod_mul. lia.
  - Z.div_mod_to_equations. lia.
  - rewrite Z.mul_comm. apply Z.mod_mul. lia.
  - Z.div_mod_to_equations. lia.
Qed.

Lemma padded_size_least_multiple_witness :
  (padded_size 33 32 mod 32 = 0 /\ 33 <= padded_size 33 32 < 33 + 32) /\
  (padded_size 33 16 mod 16 = 0 /\ 33 <= padded_size 33 16 < 33 + 16).
Proof.
  apply (padded_size_least_multiple 33); [ lia | unfold size_t_modulus; lia ].
Defined.

Lemma leading_pads_firstn3 (l : list Z) :
  leading_pads (firstn 3 l) = Z.min 3 (leading_pads l).
Proof.
  destruct l as [ | a [ | b [ | c r ] ] ]; cbn [firstn leading_pads];
    repeat match goal with |- context [?x =? pad_char] => destruct (x =? pad_char) end;
    try lia.
  pose proof (leading_pads_bounds r). lia.
Qed.

(** X7: what the padding scan of the vector decoders computes.  On an
    input of one or two characters the loop body never runs and the padding
    is 0, whatever the characters are.  On an input of three or more
    characters other than ["==="] the scan stays inside the input and
    counts the ['='] the input ends with, up to three of them. *)
Theorem padding_scan_result (s pad : list Z) :
  size (s ++ pad) < size_t_modulus -> 1 <= size s -> s <> [pad_char; pad_char; pad_char] ->
  scan_padding (scan_fuel (s ++ pad)) (s ++ pad) (size s) (wrap64 (size s - 1)) 0
  = Returned (if size s <? 3 then 0 else Z.min 3 (trailing_pads s)).
Proof.
  intros Hlt H1 Hne. rewrite scan_padding_spec by exact Hlt.
  assert (Ho : scan_overruns s = false).
  { unfold scan_overruns. destruct (Z.eqb_spec (size s) 0); [ lia | ]. cbn [orb].
    destruct (Z.eqb_spec (size s) 3) as [E3 | ]; [ | reflexivity ]. cbn [andb].
    apply Z.eqb_neq. intros Ep. apply Hne.
    destruct s as [ | a [ | b [ | c [ | d r ] ] ] ]; try discriminate E3.
    - revert Ep. unfold trailing_pads3. cbn [rev app firstn leading_pads].
      destruct (Z.eqb_spec c pad_char); [ | lia ].
      destruct (Z.eqb_spec b pad_char); [ | lia ].
      destruct (Z.eqb_spec a pad_char); [ | lia ].
      intros _. subst. reflexivity.
    - unfold size in E3. cbn [length] in E3. lia. }
  rewrite Ho. unfold scanned_padding, trailing_pads3, trailing_pads.
  rewrite leading_pads_firstn3. reflexivity.
Qed.

Lemma padding_scan_result_witness :
  scan_padding (scan_fuel (sv "QQ==" ++ repeat 0 28)) (sv "QQ==" ++ repeat 0 28)
               (size (sv "QQ==")) (wrap64 (size (sv "QQ==") - 1)) 0
  = Returned (if size (sv "QQ==") <? 3 then 0 else Z.min 3 (trailing_pads (sv "QQ=="))).
Proof.
  apply (padding_scan_result (sv "QQ==") (repeat 0 28));
    [ vm_compute; reflexivity | vm_compute; discriminate | discriminate ].
Defined.

(** ** Single precision on larger sizes *)

Lemma iter_pos_comm {A : Type} (f : A -> A) (n : positive) : forall x : A,
  iter_pos f n (f x) = f (iter_pos f n x).
Proof.
  induction n as [ n IH | n IH | ]; intros x; cbn [iter_pos].
  - rewrite !IH. reflexivity.
  - rewrite !IH. reflexivity.
  - reflexivity.
Qed.

Lemma iter_pos_succ {A : Type} (f : A -> A) (n : positive) : forall x : A,
  iter_pos f (Pos.succ n) x = f (iter_pos f n x).
Proof.
  induction n as [ n IH | n IH | ]; intros x; cbn [Pos.succ iter_pos].
  - rewrite !IH, !iter_pos_comm. reflexivity.
  - rewrite !iter_pos_comm. reflexivity.
  - reflexivity.
Qed.

(** The significand of a size of 24 bits is the size. *)
Lemma of_size_t_24 (p : positive) :
  Zpos (digits2_pos p) = 24 -> Float32.of_size_t (Zpos p) = S754_finite false p 0.
Proof.
  intros Hd.
  unfold Float32.of_size_t, binary_normalize, binary_round, shl_align.
  unfold fexp, emin, Float32.prec, Float32.emax. rewrite Hd.
  change (Z.max (24 + 0 - 24) (3 - 128 - 24) - 0) with 0.
  change (Z.max (24 + 0 - 24) (3 - 128 - 24)) with 0.
  apply round_aux_exact; [ exact Hd | lia ].
Qed.

(** One bit beyond 24 is rounded to the nearest significand, a tie to the
    even one. *)
Lemma round_aux_tie (t j r : positive) (e : Z) :
  Zpos (digits2_pos t) = 25 ->
  Zpos r = (if Z.even (Zpos t) then Zpos t / 2
            else if Z.even (Zpos t / 2) then Zpos t / 2 else Zpos t / 2 + 1) ->
  Zpos (digits2_pos r) = 24 ->
  -149 <= e + Zpos j + 1 <= 104 ->
  binary_round_aux Float32.prec Float32.emax false (Zpos (Pos.iter xO t j)) e loc_Exact
  = S754_finite false r (e + Zpos j + 1).
Proof.
  intros Ht Er Hr He.
  assert (Es : shr_fexp Float32.prec Float32.emax (Zpos (Pos.iter xO t j)) e loc_Exact
               = (shr_1 {| shr_m := Zpos t; shr_r := false; shr_s := false |},
                  e + Zpos j + 1)).
  { unfold shr_fexp, Zdigits2, fexp, emin, Float32.prec, Float32.emax.
    rewrite digits2_pos_shifted, Ht.
    replace (Z.max (25 + Zpos j + e - 24) (3 - 128 - 24) - e) with (Zpos (Pos.succ j)) by lia.
    cbn [shr shr_record_of_loc]. rewrite iter_pos_succ, shr_iter_exact.
    f_equal. lia. }
  assert (Es' : shr_fexp Float32.prec Float32.emax (Zpos r) (e + Zpos j + 1) loc_Exact
               = ({| shr_m := Zpos r; shr_r := false; shr_s := false |}, e + Zpos j + 1)).
  { unfold shr_fexp, Zdigits2, fexp, emin, Float32.prec, Float32.emax.
    rewrite Hr.
    replace (Z.max (24 + (e + Zpos j + 1) - 24) (3 - 128 - 24) - (e + Zpos j + 1))
      with 0 by lia.
    reflexivity. }
  assert (Em : round_nearest_even
                 (shr_m (shr_1 {| shr_m := Zpos t; shr_r := false; shr_s := false |}))
                 (loc_of_shr_record
                    (shr_1 {| shr_m := Zpos t; shr_r := false; shr_s := false |}))
               = Zpos r).
  { rewrite Er. destruct t as [ q | q | ].
    - cbn [shr_1 orb shr_m loc_of_shr_record round_nearest_even].
      change (Z.even (Zpos q~1)) with false. cbv iota.
      replace (Zpos q~1 / 2) with (Zpos q)
        by (rewrite Pos2Z.inj_xI; Z.div_mod_to_equations; lia).
      reflexivity.
    - cbn [shr_1 orb shr_m loc_of_shr_record round_nearest_even].
      change (Z.even (Zpos q~0)) with true. cbv iota.
      rewrite Pos2Z.inj_xO. Z.div_mod_to_equations. lia.
    - discriminate Ht. }
  unfold binary_round_aux. rewrite Es, Em, Es'. cbn [shr_m].
  unfold Float32.emax, Float32.prec.
  destruct (Z.leb_spec (e + Zpos j + 1) (128 - 24)); [ reflexivity | lia ].
Qed.

(** Where three times the size needs 25 bits the product with [0.75f] is
    rounded; the floor of the rounded product is still the exact one unless
    the size leaves the remainder 1 when divided by 4. *)
Lemma three_quarters_tie (k : Z) :
  2 ^ 24 <= 3 * k < 2 ^ 25 -> k mod 4 <> 1 ->
  Float32.to_size_t
    (Float32.floor (Float32.mul (Float32.of_size_t k) Float32.three_quarters))
  = Returned (3 * k / 4).
Proof.
  intros [Hlo Hhi] Hmod.
  change (2 ^ 24) with 16777216 in Hlo. change (2 ^ 25) with 33554432 in Hhi.
  destruct k as [ | p | p ]; [ lia | | lia ].
  set (t := (p * 3)%positive).
  assert (Et : Zpos t = 3 * Zpos p) by (subst t; lia).
  assert (Ht : Zpos (digits2_pos t) = 25)
    by (apply digits2_pos_unique; change (2 ^ (25 - 1)) with 16777216;
        change (2 ^ 25) with 33554432; lia).
  pose proof (Zmod_even (Zpos t)) as Ev1. pose proof (Zmod_even (Zpos t / 2)) as Ev2.
  set (rz := if Z.even (Zpos t) then Zpos t / 2
             else if Z.even (Zpos t / 2) then Zpos t / 2 else Zpos t / 2 + 1) in *.
  assert (Hrz : 8388608 <= rz < 16777216 /\ rz / 2 = 3 * Zpos p / 4).
  { subst rz. rewrite Et in *.
    destruct (Z.even (3 * Zpos p)); [ | destruct (Z.even (3 * Zpos p / 2)) ];
      Z.div_mod_to_equations; lia. }
  destruct Hrz as [Brz Erz].
  set (r := Z.to_pos rz).
  assert (Er : Zpos r = rz) by (subst r; rewrite Z2Pos.id; lia).
  assert (Hr : Zpos (digits2_pos r) = 24)
    by (apply digits2_pos_unique; rewrite Er; change (2 ^ (24 - 1)) with 8388608;
        change (2 ^ 24) with 16777216; lia).
  assert (Hm : Float32.mul (Float32.of_size_t (Zpos p)) Float32.three_quarters
               = S754_finite false r (-1)).
  { destruct (Z.lt_ge_cases (Zpos p) 8388608) as [Hs | Hl].
    - assert (Hd : Zpos (digits2_pos p) = 23)
        by (apply digits2_pos_unique; change (2 ^ (23 - 1)) with 4194304;
            change (2 ^ 23) with 8388608; lia).
      rewrite of_size_t_small by lia. rewrite Hd.
      change (Z.to_pos (24 - 23)) with 1%positive. change (23 - 24) with (-1).
      unfold Float32.mul, Float32.three_quarters, SFmul. cbn [xorb].
      replace (Pos.iter xO p 1 * 12582912)%positive with (Pos.iter xO t 23).
      2:{ apply Pos2Z.inj. rewrite Pos2Z.inj_mul, !Zpos_iter_xO, Et.
          change (2 ^ Zpos 23) with 8388608. change (2 ^ Zpos 1) with 2. lia. }
      rewrite (round_aux_tie t 23 r) by (assumption || lia). reflexivity.
    - assert (Hd : Zpos (digits2_pos p) = 24)
        by (apply digits2_pos_unique; change (2 ^ (24 - 1)) with 8388608;
            change (2 ^ 24) with 16777216; lia).
      rewrite of_size_t_24 by exact Hd.
      unfold Float32.mul, Float32.three_quarters, SFmul. cbn [xorb].
      replace (p * 12582912)%positive with (Pos.iter xO t 22).
      2:{ apply Pos2Z.inj. rewrite Pos2Z.inj_mul, !Zpos_iter_xO, Et.
          change (2 ^ Zpos 22) with 4194304. lia. }
      rewrite (round_aux_tie t 22 r) by (assumption || lia). reflexivity. }
  rewrite Hm. unfold Float32.floor.
  change (0 <=? -1) with false. cbv iota. change (2 ^ (- -1)) with 2.
  rewrite Er, Erz.
  apply to_size_t_of_size_t.
  change (2 ^ 23) with 8388608. Z.div_mod_to_equations. lia.
Qed.

Lemma decoded_size_exact_wide (n p : Z) :
  0 <= p <= n -> n < size_t_modulus -> (n - p) mod 4 <> 1 -> n - p < 11184818 ->
  decoded_size n p = Returned (3 * (n - p) / 4).
Proof.
  intros Hp Hn Hmod Hk.
  destruct (Z.lt_ge_cases (3 * (n - p)) (2 ^ 24)) as [Hs | Hl];
    [ apply decoded_size_exact; assumption | ].
  unfold decoded_size. rewrite wrap64_small by lia.
  destruct (Z.lt_ge_cases (3 * (n - p)) (2 ^ 25)) as [Hm | Hh];
    [ apply three_quarters_tie; [ split; assumption | exact Hmod ] | ].
  change (2 ^ 25) with 33554432 in Hh.
  assert (Hc : n - p = 11184811 \/ n - p = 11184812 \/ n - p = 11184814
               \/ n - p = 11184815 \/ n - p = 11184816)
    by (Z.div_mod_to_equations; lia).
  destruct Hc as [-> | [-> | [-> | [-> | ->]]]]; vm_compute; reflexivity.
Qed.

(** X8: the size [floor (static_cast<float>(encodedSize - padding) * 0.75f)]
    of the vector decoders against the exact
    [floor (3 * (encodedSize - padding) / 4)].  The two are equal for every
    difference below 5592409, and for every difference below 11184818 that
    does not leave the remainder 1 when divided by 4, as is the case for a
    padded base64 string less its padding.  Both bounds are the least
    failures: 5592409 gives 4194307 for 4194306, and a string of 11184820
    characters with two ['='] gives 8388614 for 8388613. *)
Theorem decoded_size_exact_range (n p : Z) :
  0 <= p <= n -> n < size_t_modulus ->
  n - p < 5592409 \/ ((n - p) mod 4 <> 1 /\ n - p < 11184818) ->
  decoded_size n p = Returned (3 * (n - p) / 4) /\
  (decoded_size 5592409 0 = Returned 4194307 /\ 3 * (5592409 - 0) / 4 = 4194306) /\
  (decoded_size 11184820 2 = Returned 8388614 /\ 3 * (11184820 - 2) / 4 = 8388613).
Proof.
  intros Hp Hn Hk. split; [ | split; split; vm_compute; reflexivity ].
  destruct Hk as [Hk | [Hmod Hk]]; [ | apply decoded_size_exact_wide; assumption ].
  destruct (Z.eq_dec ((n - p) mod 4) 1) as [E1 | N1];
    [ | apply decoded_size_exact_wide; (assumption || lia) ].
  destruct (Z.lt_ge_cases (3 * (n - p)) (2 ^ 24)) as [Hs | Hl];
    [ apply decoded_size_exact; assumption | ].
  change (2 ^ 24) with 16777216 in Hl. exfalso.
  Z.div_mod_to_equations. lia.
Qed.

Lemma decoded_size_exact_range_witness :
  decoded_size 11184816 1 = Returned (3 * (11184816 - 1) / 4) /\
  (decoded_size 5592409 0 = Returned 4194307 /\ 3 * (5592409 - 0) / 4 = 4194306) /\
  (decoded_size 11184820 2 = Returned 8388614 /\ 3 * (11184820 - 2) / 4 = 8388613).
Proof.
  apply (decoded_size_exact_range 11184816 1);
    [ lia | unfold size_t_modulus; lia | right; split; [ discriminate | lia ] ].
Defined.

(** *** Single precision on every size *)

Lemma shr_1_half (r : shr_record) :
  0 <= shr_m r -> shr_m (shr_1 r) = shr_m r / 2.
Proof.
  destruct r as [m b s]. cbn [shr_m]. intros Hm.
  destruct m as [ | p | p ]; [ reflexivity | | lia ].
  destruct p as [ q | q | ]; cbn [shr_1 shr_m].
  - rewrite Pos2Z.inj_xI. Z.div_mod_to_equations. lia.
  - rewrite Pos2Z.inj_xO. Z.div_mod_to_equations. lia.
  - reflexivity.
Qed.

Lemma shr_iter_div (n : positive) : forall r : shr_record,
  0 <= shr_m r -> shr_m (iter_pos shr_1 n r) = shr_m r / 2 ^ Zpos n.
Proof.
  induction n as [ n IH | n IH | ]; intros r Hr; cbn [iter_pos].
  - assert (H1 : 0 <= shr_m (shr_1 r)) by (rewrite shr_1_half by exact Hr; apply Z.div_pos; lia).
    assert (H2 : 0 <= shr_m (iter_pos shr_1 n (shr_1 r)))
      by (rewrite IH by exact H1; apply Z.div_pos; [ exact H1 | apply Z.pow_pos_nonneg; lia ]).
    rewrite IH, IH, shr_1_half by assumption.
    assert (Hp : 0 < 2 ^ Zpos n) by (apply Z.pow_pos_nonneg; lia).
    rewrite !Z.div_div by lia.
    f_equal.
    assert (E : 2 ^ Zpos n~1 = 2 * (2 ^ Zpos n * 2 ^ Zpos n)).
    { rewrite <- Z.pow_add_r, <- Z.pow_succ_r by lia. f_equal. lia. }
    rewrite E. reflexivity.
  - assert (H2 : 0 <= shr_m (iter_pos shr_1 n r))
      by (rewrite IH by exact Hr; apply Z.div_pos; [ exact Hr | apply Z.pow_pos_nonneg; lia ]).
    rewrite IH, IH by assumption.
    assert (Hp : 0 < 2 ^ Zpos n) by (apply Z.pow_pos_nonneg; lia).
    rewrite Z.div_div by lia.
    f_equal.
    assert (E : 2 ^ Zpos n~0 = 2 ^ Zpos n * 2 ^ Zpos n).
    { rewrite <- Z.pow_add_r by lia. f_equal. lia. }
    rewrite E. reflexivity.
  - rewrite shr_1_half by exact Hr. reflexivity.
Qed.

Lemma round_nearest_even_step (q : Z) (l : location) :
  round_nearest_even q l = q \/ round_nearest_even q l = q + 1.
Proof.
  destruct l as [ | [ | | ] ]; cbn [round_nearest_even]; auto.
  destruct (Z.even q); auto.
Qed.

(** Rounding a significand of 24 bits or more, with the exponents in
    range: the result is finite with a significand of 24 bits, and it is at
    most one unit of the kept bits above the significand it came from. *)
Lemma round_aux_finite (M : positive) (e n : Z) :
  n = Zpos (digits2_pos M) - 24 -> 0 <= n -> -149 <= e + n -> e + n + 1 <= 104 ->
  exists (m' : positive) (e' : Z),
    binary_round_aux Float32.prec Float32.emax false (Zpos M) e loc_Exact
    = S754_finite false m' e' /\
    Zpos (digits2_pos m') = 24 /\ e + n <= e' <= e + n + 1 /\
    Zpos m' * 2 ^ (e' - e) <= (Zpos M / 2 ^ n + 1) * 2 ^ n.
Proof.
  intros En Hn Hlo Hhi.
  destruct n as [ | np | np ]; [ | | lia ].
  - (* nothing is shifted out *)
    exists M, e. rewrite round_aux_exact by lia.
    split; [ reflexivity | ]. split; [ lia | ]. split; [ lia | ].
    rewrite Z.sub_diag. change (2 ^ 0) with 1. rewrite Z.div_1_r. lia.
  - pose proof (digits2_pos_bounds M) as [Mlo Mhi].
    assert (Hpn : 0 < 2 ^ Zpos np) by (apply Z.pow_pos_nonneg; lia).
    assert (Ed : Zpos (digits2_pos M) = 24 + Zpos np) by lia.
    rewrite Ed in Mlo, Mhi.
    replace (24 + Zpos np - 1) with (23 + Zpos np) in Mlo by lia.
    rewrite Z.pow_add_r in Mlo, Mhi by lia.
    change (2 ^ 23) with 8388608 in Mlo. change (2 ^ 24) with 16777216 in Mhi.
    set (R := iter_pos shr_1 np {| shr_m := Zpos M; shr_r := false; shr_s := false |}).
    assert (Eq : shr_m R = Zpos M / 2 ^ Zpos np)
      by (subst R; rewrite shr_iter_div by (cbn [shr_m]; lia); reflexivity).
    assert (Bq : 8388608 <= shr_m R < 16777216).
    { rewrite Eq. split.
      - apply Z.div_le_lower_bound; lia.
      - apply Z.div_lt_upper_bound; lia. }
    assert (Es : shr_fexp Float32.prec Float32.emax (Zpos M) e loc_Exact = (R, e + Zpos np)).
    { unfold shr_fexp, Zdigits2, fexp, emin, Float32.prec, Float32.emax.
      rewrite Ed.
      replace (Z.max (24 + Zpos np + e - 24) (3 - 128 - 24) - e) with (Zpos np) by lia.
      reflexivity. }
    unfold binary_round_aux. rewrite Es.
    destruct (round_nearest_even_step (shr_m R) (loc_of_shr_record R)) as [Er | Er];
      rewrite Er; clear Er.
    + (* rounded down *)
      destruct (shr_m R) as [ | r | r ] eqn:Em; [ lia | | lia ].
      assert (Hr : Zpos (digits2_pos r) = 24)
        by (apply digits2_pos_unique; change (2 ^ (24 - 1)) with 8388608;
            change (2 ^ 24) with 16777216; lia).
      exists r, (e + Zpos np).
      assert (Es' : shr_fexp Float32.prec Float32.emax (Zpos r) (e + Zpos np) loc_Exact
                    = ({| shr_m := Zpos r; shr_r := false; shr_s := false |}, e + Zpos np)).
      { unfold shr_fexp, Zdigits2, fexp, emin, Float32.prec, Float32.emax. rewrite Hr.
        replace (Z.max (24 + (e + Zpos np) - 24) (3 - 128 - 24) - (e + Zpos np)) with 0 by lia.
        reflexivity. }
      rewrite Es'. cbn [shr_m]. unfold Float32.emax, Float32.prec.
      destruct (Z.leb_spec (e + Zpos np) (128 - 24)); [ | lia ].
      split; [ reflexivity | ]. split; [ exact Hr | ]. split; [ lia | ].
      replace (e + Zpos np - e) with (Zpos np) by lia. rewrite <- Eq. nia.
    + (* rounded up *)
      destruct (Z.eq_dec (shr_m R + 1) 16777216) as [E24 | N24].
      * rewrite E24. exists 8388608%positive, (e + Zpos np + 1).
        assert (Es' : shr_fexp Float32.prec Float32.emax 16777216 (e + Zpos np) loc_Exact
                      = ({| shr_m := 8388608; shr_r := false; shr_s := false |},
                         e + Zpos np + 1)).
        { unfold shr_fexp, Zdigits2, fexp, emin, Float32.prec, Float32.emax.
          change (Zpos (digits2_pos 16777216)) with 25.
          replace (Z.max (25 + (e + Zpos np) - 24) (3 - 128 - 24) - (e + Zpos np)) with 1 by lia.
          reflexivity. }
        rewrite Es'. cbn [shr_m]. unfold Float32.emax, Float32.prec.
        destruct (Z.leb_spec (e + Zpos np + 1) (128 - 24)); [ | lia ].
        split; [ reflexivity | ]. split; [ reflexivity | ]. split; [ lia | ].
        replace (e + Zpos np + 1 - e) with (1 + Zpos np) by lia.
        rewrite Z.pow_add_r by lia. change (2 ^ 1) with 2. rewrite <- Eq. nia.
      * destruct (shr_m R + 1) as [ | r | r ] eqn:Em; [ lia | | lia ].
        assert (Hr : Zpos (digits2_pos r) = 24)
          by (apply digits2_pos_unique; change (2 ^ (24 - 1)) with 8388608;
              change (2 ^ 24) with 16777216; lia).
        exists r, (e + Zpos np).
        assert (Es' : shr_fexp Float32.prec Float32.emax (Zpos r) (e + Zpos np) loc_Exact
                      = ({| shr_m := Zpos r; shr_r := false; shr_s := false |}, e + Zpos np)).
        { unfold shr_fexp, Zdigits2, fexp, emin, Float32.prec, Float32.emax. rewrite Hr.
          replace (Z.max (24 + (e + Zpos np) - 24) (3 - 128 - 24) - (e + Zpos np)) with 0 by lia.
          reflexivity. }
        rewrite Es'. cbn [shr_m]. unfold Float32.emax, Float32.prec.
        destruct (Z.leb_spec (e + Zpos np) (128 - 24)); [ | lia ].
        split; [ reflexivity | ]. split; [ exact Hr | ]. split; [ lia | ].
        replace (e + Zpos np - e) with (Zpos np) by lia. rewrite <- Eq. nia.
Qed.

Lemma digits_24_bounds (m : positive) :
  Zpos (digits2_pos m) = 24 -> 8388608 <= Zpos m < 16777216.
Proof.
  intros H. pose proof (digits2_pos_bounds m) as B. rewrite H in B. exact B.
Qed.

(** [static_cast<float>] of any size is a finite number, not above 2^64. *)
Lemma of_size_t_finite (p : positive) :
  Zpos p < 2 ^ 64 ->
  exists (m1 : positive) (e1 : Z),
    Float32.of_size_t (Zpos p) = S754_finite false m1 e1 /\
    Zpos (digits2_pos m1) = 24 /\ -23 <= e1 <= 41 /\
    (0 <= e1 -> Zpos m1 * 2 ^ e1 <= 2 ^ 64).
Proof.
  intros Hp.
  assert (Hd64 : Zpos (digits2_pos p) <= 64) by (apply digits2_pos_le; lia).
  pose proof (digits2_pos_bounds p) as [Plo Phi].
  destruct (Z.le_gt_cases (Zpos (digits2_pos p)) 23) as [H23 | H24].
  - exists (Pos.iter xO p (Z.to_pos (24 - Zpos (digits2_pos p)))), (Zpos (digits2_pos p) - 24).
    split; [ apply of_size_t_small; exact H23 | ].
    split; [ rewrite digits2_pos_shifted, Z2Pos.id by lia; lia | ].
    split; [ lia | intros H0; lia ].
  - destruct (Z.eq_dec (Zpos (digits2_pos p)) 24) as [E24 | N24].
    + exists p, 0. split; [ apply of_size_t_24; exact E24 | ].
      split; [ exact E24 | ]. split; [ lia | intros _ ]. change (2 ^ 0) with 1. lia.
    + set (n := Zpos (digits2_pos p) - 24).
      assert (Hn : 1 <= n <= 40) by (subst n; lia).
      destruct (round_aux_finite p 0 n eq_refl ltac:(lia) ltac:(lia) ltac:(lia))
        as (m' & e' & Er & Hm & He & Hb).
      exists m', e'.
      split.
      * unfold Float32.of_size_t, binary_normalize, binary_round, shl_align.
        unfold fexp, emin, Float32.prec, Float32.emax.
        replace (Z.max (Zpos (digits2_pos p) + 0 - 24) (3 - 128 - 24) - 0)
          with (Zpos (Z.to_pos n)) by (rewrite Z2Pos.id; subst n; lia).
        exact Er.
      * split; [ exact Hm | ]. split; [ lia | intros _ ].
        rewrite Z.sub_0_r in Hb.
        assert (Hpn : 0 < 2 ^ n) by (apply Z.pow_pos_nonneg; lia).
        assert (E64 : 2 ^ 64 = 2 ^ (64 - n) * 2 ^ n)
          by (rewrite <- Z.pow_add_r by lia; f_equal; lia).
        assert (Hq : Zpos p / 2 ^ n < 2 ^ (64 - n))
          by (apply Z.div_lt_upper_bound; [ lia | rewrite Z.mul_comm, <- E64; exact Hp ]).
        rewrite E64. nia.
Qed.

(** The product with [0.75f] of such a number is finite and below 2^64. *)
Lemma mul_three_quarters_finite (m1 : positive) (e1 : Z) :
  Zpos (digits2_pos m1) = 24 -> -23 <= e1 <= 41 ->
  (0 <= e1 -> Zpos m1 * 2 ^ e1 <= 2 ^ 64) ->
  exists (m2 : positive) (e2 : Z),
    Float32.mul (S754_finite false m1 e1) Float32.three_quarters = S754_finite false m2 e2 /\
    Zpos (digits2_pos m2) = 24 /\ e2 <= 42 /\
    (0 <= e2 -> Zpos m2 * 2 ^ e2 < 2 ^ 64).
Proof.
  intros Hd He Hv. pose proof (digits_24_bounds m1 Hd) as Bm.
  unfold Float32.mul, Float32.three_quarters, SFmul. cbn [xorb].
  set (M := (m1 * 12582912)%positive).
  assert (EM : Zpos M = 12582912 * Zpos m1) by (subst M; lia).
  pose proof (digits2_pos_bounds M) as [Mlo Mhi].
  assert (HD : 47 <= Zpos (digits2_pos M) <= 48).
  { split.
    - destruct (Z.le_gt_cases 47 (Zpos (digits2_pos M))) as [ | Hlt ]; [ assumption | exfalso ].
      assert (2 ^ Zpos (digits2_pos M) <= 2 ^ 46) by (apply Z.pow_le_mono_r; lia).
      change (2 ^ 46) with 70368744177664 in *. lia.
    - apply digits2_pos_le; [ lia | ]. change (2 ^ 48) with 281474976710656. lia. }
  set (n := Zpos (digits2_pos M) - 24).
  destruct (round_aux_finite M (e1 + -24) n eq_refl ltac:(lia) ltac:(lia) ltac:(lia))
    as (m2 & e2 & Er & Hm & Hr & Hb).
  exists m2, e2. split; [ exact Er | ]. split; [ exact Hm | ]. split; [ lia | ].
  intros H0. pose proof (digits_24_bounds m2 Hm) as Bm2.
  assert (Hn : n = 23 \/ n = 24) by (subst n; lia).
  assert (Hpn : 0 < 2 ^ n <= 16777216).
  { destruct Hn as [-> | ->]; [ change (2 ^ 23) with 8388608 | change (2 ^ 24) with 16777216 ]; lia. }
  assert (Hq : Zpos M / 2 ^ n * 2 ^ n <= Zpos M).
  { rewrite Z.mul_comm. apply Z.mul_div_le. lia. }
  destruct (Z.lt_ge_cases e1 24) as [Hs | Hl].
  - (* the product is below 2^48 *)
    assert (2 ^ e2 <= 2 ^ 24) by (apply Z.pow_le_mono_r; lia).
    change (2 ^ 24) with 16777216 in *. change (2 ^ 64) with 18446744073709551616.
    assert (0 < 2 ^ e2) by (apply Z.pow_pos_nonneg; lia). nia.
  - set (E := e1 - 24).
    assert (HE : 0 <= E <= 17) by (subst E; lia).
    assert (E1 : 2 ^ e1 = 2 ^ E * 16777216).
    { change 16777216 with (2 ^ 24). rewrite <- Z.pow_add_r by lia. f_equal. subst E. lia. }
    assert (E2 : 2 ^ e2 = 2 ^ (e2 - (e1 + -24)) * 2 ^ E).
    { rewrite <- Z.pow_add_r by lia. f_equal. subst E. lia. }
    assert (HP : 0 < 2 ^ E <= 131072).
    { split; [ apply Z.pow_pos_nonneg; lia | ].
      change 131072 with (2 ^ 17). apply Z.pow_le_mono_r; lia. }
    specialize (Hv ltac:(lia)). rewrite E1 in Hv. rewrite E2.
    change (2 ^ 64) with 18446744073709551616 in *.
    revert Hb Hq Hv HP Hpn EM Bm. 
    generalize (2 ^ (e2 - (e1 + -24))) (2 ^ E) (2 ^ n) (Zpos M / 2 ^ n) (Zpos M) (Zpos m1) (Zpos m2).
    intros s P N q Mz m1z m2z Hb Hq Hv HP Hpn EM Bm.
    assert (B1 : m2z * s <= Mz + N) by nia.
    assert (B2 : m2z * s * P <= (Mz + N) * P) by (apply Z.mul_le_mono_nonneg_r; lia).
    assert (B3 : m1z * P <= 1099511627776) by nia.
    nia.
Qed.

Lemma to_size_t_of_size_t_24 (q : Z) :
  0 <= q < 2 ^ 24 -> Float32.to_size_t (Float32.of_size_t q) = Returned q.
Proof.
  intros [H0 H1]. change (2 ^ 24) with 16777216 in H1.
  destruct (Z.lt_ge_cases q 8388608) as [Hs | Hl];
    [ apply to_size_t_of_size_t; change (2 ^ 23) with 8388608; lia | ].
  destruct q as [ | p | p ]; [ lia | | lia ].
  assert (Hd : Zpos (digits2_pos p) = 24)
    by (apply digits2_pos_unique; change (2 ^ (24 - 1)) with 8388608;
        change (2 ^ 24) with 16777216; lia).
  rewrite of_size_t_24 by exact Hd.
  unfold Float32.to_size_t. change (0 <=? 0) with true. cbv iota.
  change (2 ^ 0) with 1. rewrite Z.mul_1_r. unfold size_t_modulus.
  destruct (Z.leb_spec 0 (Zpos p)); [ | lia ].
  destruct (Z.ltb_spec (Zpos p) (2 ^ 64)); [ reflexivity | ].
  change (2 ^ 64) with 18446744073709551616 in *. lia.
Qed.

(** The size computed in single precision is defined for every input size. *)
Lemma decoded_size_returns (n p : Z) :
  0 <= p <= n -> n < size_t_modulus -> exists k, decoded_size n p = Returned k.
Proof.
  intros Hp Hn. unfold decoded_size. rewrite wrap64_small by lia.
  destruct (n - p) as [ | k | k ] eqn:Ek; [ exists 0; reflexivity | | lia ].
  assert (Hk : Zpos k < 2 ^ 64) by (unfold size_t_modulus in Hn; lia).
  destruct (of_size_t_finite k Hk) as (m1 & e1 & E1 & D1 & R1 & V1).
  destruct (mul_three_quarters_finite m1 e1 D1 R1 V1) as (m2 & e2 & E2 & D2 & R2 & V2).
  rewrite E1, E2. pose proof (digits_24_bounds m2 D2) as B2.
  unfold Float32.floor.
  destruct (Z.leb_spec 0 e2) as [H0 | Hneg].
  - exists (Zpos m2 * 2 ^ e2). unfold Float32.to_size_t.
    destruct (Z.leb_spec 0 e2); [ | lia ].
    assert (0 < 2 ^ e2) by (apply Z.pow_pos_nonneg; lia).
    destruct (Z.leb_spec 0 (Zpos m2 * 2 ^ e2)); [ | nia ].
    unfold size_t_modulus.
    destruct (Z.ltb_spec (Zpos m2 * 2 ^ e2) (2 ^ 64)); [ reflexivity | ].
    specialize (V2 H0). lia.
  - exists (Zpos m2 / 2 ^ (- e2)).
    apply (to_size_t_of_size_t_24 (Zpos m2 / 2 ^ (- e2))).
    assert (0 < 2 ^ (- e2)) by (apply Z.pow_pos_nonneg; lia).
    split; [ apply Z.div_pos; lia | ].
    apply Z.div_lt_upper_bound; [ lia | ]. change (2 ^ 24) with 16777216. nia.
Qed.

(** ** The scalar decoder on every string *)

Lemma fallback_loop_before_pad (rest : list Z) : forall (six : list Z) (i : Z) (ret : list Z),
  fallback_loop rest six i ret = fallback_loop (before_pad rest) six i ret.
Proof.
  induction rest as [ | c rest IH ]; intros six i ret; [ reflexivity | ].
  cbn [before_pad]. destruct (Z.eqb_spec c pad_char) as [-> | Hc].
  - reflexivity.
  - rewrite !fallback_loop_char by exact Hc.
    destruct (i + 1 =? 4); apply IH.
Qed.

Lemma before_pad_no_pad (s : list Z) : Forall (fun c => c <> pad_char) (before_pad s).
Proof.
  induction s as [ | c s IH ]; cbn [before_pad]; [ constructor | ].
  destruct (Z.eqb_spec c pad_char); [ constructor | ].
  constructor; assumption.
Qed.

Lemma before_pad_fixed (s : list Z) :
  Forall (fun c => c <> pad_char) s -> before_pad s = s.
Proof.
  induction 1 as [ | c s Hc _ IH ]; cbn [before_pad]; [ reflexivity | ].
  destruct (Z.eqb_spec c pad_char); [ contradiction | ]. rewrite IH. reflexivity.
Qed.

Lemma before_pad_app (s t : list Z) :
  Forall (fun c => c <> pad_char) s -> before_pad (s ++ t) = s ++ before_pad t.
Proof.
  induction 1 as [ | c s Hc _ IH ]; cbn [before_pad app]; [ reflexivity | ].
  destruct (Z.eqb_spec c pad_char); [ contradiction | ]. rewrite IH. reflexivity.
Qed.

Lemma before_pad_app_pad (s t : list Z) :
  before_pad (s ++ pad_char :: t) = before_pad s.
Proof.
  induction s as [ | c s IH ]; cbn [before_pad app]; [ reflexivity | ].
  destruct (c =? pad_char); [ reflexivity | ]. rewrite IH. reflexivity.
Qed.

Ltac scalar_step :=
  rewrite fallback_loop_char by assumption;
  match goal with
  | |- context [?i + 1 =? 4] => change (i + 1 =? 4) with false
  end;
  cbv iota.

(** The loop and the code after it on a string without ['=']. *)
Lemma fallback_no_pad (p : list Z) : forall (s0 s1 s2 s3 : Z) (ret : list Z),
  Forall (fun c => c <> pad_char) p ->
  fallback_finish (fallback_loop p [s0; s1; s2; s3] 0 ret)
  = Returned (ret ++ scalar_groups p).
Proof.
  induction p as [ | a | a b | a b c | a b c d r IH ] using list_ind4;
    intros s0 s1 s2 s3 ret HP.
  - cbn. rewrite app_nil_r. reflexivity.
  - inversion HP as [ | ? ? Ha _ ]; subst.
    scalar_step. cbn [fallback_loop scalar_groups].
    change (Z.to_nat 0) with 0%nat. cbn [array_set]. unfold fallback_finish.
    change (negb (0 + 1 =? 0)) with true. cbv iota.
    change (Z.to_nat (wrap64 (0 + 1 - 1))) with 0%nat. reflexivity.
  - inversion HP as [ | ? ? Ha HP1 ]; subst. inversion HP1 as [ | ? ? Hb _ ]; subst.
    do 2 scalar_step. cbn [fallback_loop scalar_groups].
    change (Z.to_nat 0) with 0%nat. change (Z.to_nat (0 + 1)) with 1%nat.
    cbn [array_set]. unfold fallback_finish.
    change (negb (0 + 1 + 1 =? 0)) with true. cbv iota.
    change (Z.to_nat (wrap64 (0 + 1 + 1 - 1))) with 1%nat.
    change (clear_from [a; b; s2; s3] (0 + 1 + 1)) with [a; b; 0; 0].
    reflexivity.
  - inversion HP as [ | ? ? Ha HP1 ]; subst. inversion HP1 as [ | ? ? Hb HP2 ]; subst.
    inversion HP2 as [ | ? ? Hc _ ]; subst.
    do 3 scalar_step. cbn [fallback_loop scalar_groups].
    change (Z.to_nat 0) with 0%nat. change (Z.to_nat (0 + 1)) with 1%nat.
    change (Z.to_nat (0 + 1 + 1)) with 2%nat.
    cbn [array_set]. unfold fallback_finish.
    change (negb (0 + 1 + 1 + 1 =? 0)) with true. cbv iota.
    change (Z.to_nat (wrap64 (0 + 1 + 1 + 1 - 1))) with 2%nat.
    change (clear_from [a; b; c; s3] (0 + 1 + 1 + 1)) with [a; b; c; 0].
    reflexivity.
  - inversion HP as [ | ? ? Ha HP1 ]; subst. inversion HP1 as [ | ? ? Hb HP2 ]; subst.
    inversion HP2 as [ | ? ? Hc HP3 ]; subst. inversion HP3 as [ | ? ? Hd HP4 ]; subst.
    rewrite fallback_loop_group by assumption.
    change (map find_six_bit [a; b; c; d])
      with [find_six_bit a; find_six_bit b; find_six_bit c; find_six_bit d].
    rewrite IH by assumption.
    change (scalar_groups (a :: b :: c :: d :: r))
      with (eight_bit_chars (map find_six_bit [a; b; c; d]) ++ scalar_groups r).
    rewrite <- app_assoc. reflexivity.
Qed.

(** The scalar decoder on every string: it reads the characters before the
    first ['='] and nothing else. *)
Lemma fallback_decode_meaning (s : list Z) :
  fallback_decode s = Returned (scalar_groups (before_pad s)).
Proof.
  unfold fallback_decode. rewrite fallback_loop_before_pad.
  rewrite fallback_no_pad by apply before_pad_no_pad. reflexivity.
Qed.

Lemma scalar_groups_cons4 (a b c d : Z) (r : list Z) :
  scalar_groups (a :: b :: c :: d :: r)
  = eight_bit_chars (map find_six_bit [a; b; c; d]) ++ scalar_groups r.
Proof. reflexivity. Qed.

Lemma scalar_groups_app (a b : list Z) :
  (length a mod 4 = 0)%nat -> scalar_groups (a ++ b) = scalar_groups a ++ scalar_groups b.
Proof.
  induction a as [ | x | x y | x y z | x y z w r IH ] using list_ind4;
    intros HL; try discriminate HL; [ reflexivity | ].
  change ((x :: y :: z :: w :: r) ++ b) with (x :: y :: z :: w :: (r ++ b)).
  rewrite !scalar_groups_cons4, IH, app_assoc; [ reflexivity | ].
  exact (length4_mod _ _ _ _ _ HL).
Qed.

Lemma eight_bit_chars_bytes (six : list Z) :
  Forall is_byte (eight_bit_chars six) /\ length (eight_bit_chars six) = 3%nat.
Proof.
  split; [ | reflexivity ].
  unfold eight_bit_chars, u8, is_byte.
  repeat (apply Forall_cons; [ apply Z.mod_pos_bound; lia | ]). apply Forall_nil.
Qed.

Lemma scalar_groups_size (p : list Z) :
  Forall is_byte (scalar_groups p) /\
  size (scalar_groups p) = 3 * (size p / 4) + Z.max 0 (size p mod 4 - 1).
Proof.
  induction p as [ | a | a b | a b c | a b c d r IH ] using list_ind4.
  - split; [ constructor | reflexivity ].
  - split; [ constructor | reflexivity ].
  - split; [ | reflexivity ].
    destruct (eight_bit_chars_bytes (map find_six_bit [a; b; 0; 0])) as [HB _].
    cbn [scalar_groups]. rewrite eight_bit_chars_parts in *. cbn [firstn].
    inversion HB; subst. constructor; [ assumption | constructor ].
  - split; [ | reflexivity ].
    destruct (eight_bit_chars_bytes (map find_six_bit [a; b; c; 0])) as [HB _].
    cbn [scalar_groups]. rewrite eight_bit_chars_parts in *. cbn [firstn].
    inversion HB as [ | ? ? H0 HB1 ]; subst. inversion HB1; subst.
    constructor; [ assumption | constructor; [ assumption | constructor ] ].
  - destruct IH as [IB IS].
    destruct (eight_bit_chars_bytes (map find_six_bit [a; b; c; d])) as [HB HL].
    rewrite scalar_groups_cons4. split.
    + apply Forall_app. split; assumption.
    + unfold size in *. rewrite length_app, HL. cbn [length].
      rewrite Nat2Z.inj_add, IS.
      replace (Z.of_nat (S (S (S (S (length r)))))) with (Z.of_nat (length r) + 1 * 4) by lia.
      rewrite Z.div_add, Z.mod_add by lia. change (Z.of_nat 3) with 3. lia.
Qed.

(** X9: the scalar decoder stops at the first ['=']: whatever follows it,
    more characters or more ['='], changes nothing of the result. *)
Theorem fallback_decode_stops_at_pad (s t : list Z) :
  fallback_decode (s ++ pad_char :: t) = fallback_decode s /\
  fallback_decode s = fallback_decode (before_pad s).
Proof.
  rewrite !fallback_decode_meaning, before_pad_app_pad.
  rewrite (before_pad_fixed (before_pad s)) by apply before_pad_no_pad.
  split; reflexivity.
Qed.

(** X10: the scalar decoder returns on every string, and what it returns
    are bytes: three for every four characters before the first ['='], and
    [i - 1] more for [i] characters left over, so that a single character
    left over yields nothing. *)
Theorem fallback_decode_size (s : list Z) :
  exists out,
    fallback_decode s = Returned out /\ Forall is_byte out /\
    size out = 3 * (size (before_pad s) / 4) + Z.max 0 (size (before_pad s) mod 4 - 1).
Proof.
  exists (scalar_groups (before_pad s)).
  split; [ apply fallback_decode_meaning | apply scalar_groups_size ].
Qed.

(** X11: the scalar decoder works group by group: after a string without
    ['='] whose length is a multiple of four, the bytes of what follows
    are appended to the bytes of the string. *)
Theorem fallback_decode_compose (s1 s2 o1 o2 : list Z) :
  Forall (fun c => c <> pad_char) s1 -> (length s1 mod 4 = 0)%nat ->
  fallback_decode s1 = Returned o1 -> fallback_decode s2 = Returned o2 ->
  fallback_decode (s1 ++ s2) = Returned (o1 ++ o2).
Proof.
  intros HP HL. rewrite !fallback_decode_meaning.
  rewrite before_pad_app, (before_pad_fixed s1) by exact HP.
  intros E1 E2. injection E1 as <-. injection E2 as <-.
  rewrite scalar_groups_app by exact HL. reflexivity.
Qed.

Lemma fallback_decode_compose_witness :
  fallback_decode (sv "QUJD" ++ sv "RA==") = Returned (sv "ABC" ++ sv "D").
Proof.
  apply (fallback_decode_compose (sv "QUJD") (sv "RA==") (sv "ABC") (sv "D"));
    [ repeat (apply Forall_cons; [ discriminate | ]); apply Forall_nil
    | reflexivity | reflexivity | reflexivity ].
Defined.

(** X12: the scalar decoder inverts the reference encoder on every byte
    sequence, the empty one included and of any length, and also when the
    ['='] at the end of the encoding are left out. *)
Theorem fallback_decode_inverts_encode (b : list Z) :
  Forall is_byte b ->
  fallback_decode (encode b) = Returned b /\
  fallback_decode (before_pad (encode b)) = Returned b.
Proof.
  intros HB. pose proof (fallback_decode_encode b HB) as E. split; [ exact E | ].
  rewrite fallback_decode_meaning in *.
  rewrite (before_pad_fixed (before_pad (encode b))) by apply before_pad_no_pad.
  exact E.
Qed.

Lemma fallback_decode_inverts_encode_witness :
  fallback_decode (encode (sv "fooba")) = Returned (sv "fooba") /\
  fallback_decode (before_pad (encode (sv "fooba"))) = Returned (sv "fooba").
Proof.
  apply (fallback_decode_inverts_encode (sv "fooba")). apply bytes_of_string_are_bytes.
Defined.

(** X13: what the scalar decoder finds for a byte in [base64_chars]: for a
    character of the alphabet its position, which is below 64; for every
    other byte, the zero byte that fills a last group included,
    [std::string::npos] cut down to [uint8_t], which is 255.  No byte is
    rejected. *)
Theorem find_six_bit_of_byte (c : Z) :
  is_byte c ->
  (in_alphabet c = true ->
   0 <= find_six_bit c < 64 /\ nth (Z.to_nat (find_six_bit c)) base64_chars 0 = c) /\
  (in_alphabet c = false -> find_six_bit c = 255).
Proof.
  intros Hc. pose proof (find_six_bit_facts c Hc) as Hok. unfold find_ok in Hok.
  destruct (in_alphabet c).
  - split; [ intros _ | discriminate ].
    rewrite !andb_true_iff in Hok. destruct Hok as [[[H0 H1] H2] _].
    apply Z.leb_le in H0. apply Z.ltb_lt in H1. apply Z.eqb_eq in H2. auto.
  - split; [ discriminate | intros _ ]. apply Z.eqb_eq. exact Hok.
Qed.

Lemma find_six_bit_of_byte_witness :
  (in_alphabet 0 = true ->
   0 <= find_six_bit 0 < 64 /\ nth (Z.to_nat (find_six_bit 0)) base64_chars 0 = 0) /\
  (in_alphabet 0 = false -> find_six_bit 0 = 255).
Proof.
  apply (find_six_bit_of_byte 0). unfold is_byte. lia.
Defined.

(** ** The vector decoders from end to end *)

Lemma resize_app_exact (a b : list Z) (m : Z) :
  0 <= m -> resize (a ++ b) (size a + m) = a ++ resize b m.
Proof.
  intros Hm. unfold resize, size.
  replace (Z.to_nat (Z.of_nat (length a) + m)) with (length a + Z.to_nat m)%nat by lia.
  rewrite firstn_app_2, length_app, <- app_assoc.
  replace (length a + Z.to_nat m - (length a + length b))%nat
    with (Z.to_nat m - length b)%nat by lia.
  reflexivity.
Qed.

Lemma Returned_inj {A : Type} (a b : A) : Returned a = Returned b -> a = b.
Proof. intros H. injection H. auto. Qed.


Lemma leading_pads_no_pad (l : list Z) :
  Forall (fun c => c <> pad_char) l -> leading_pads l = 0.
Proof.
  intros H. destruct H as [ | c l Hc _ ]; cbn [leading_pads]; [ reflexivity | ].
  destruct (Z.eqb_spec c pad_char); [ contradiction | reflexivity ].
Qed.

Lemma trailing_pads3_min (s : list Z) : trailing_pads3 s = Z.min 3 (trailing_pads s).
Proof. unfold trailing_pads3, trailing_pads. apply leading_pads_firstn3. Qed.



Lemma before_pad_encode1 (x : Z) :
  is_byte x ->
  before_pad (encode [x]) = [encode_char (x / 4); encode_char ((x mod 4) * 16)].
Proof.
  intros Hx.
  destruct (sextets_of_bytes x 0 0 Hx) as (H0 & _ & _ & _ & H1 & _);
    [ unfold is_byte; lia | unfold is_byte; lia | ].
  destruct (encode_char_facts _ H0) as (_ & N0 & _).
  destruct (encode_char_facts _ H1) as (_ & N1 & _).
  apply Z.eqb_neq in N0, N1.
  cbn [encode before_pad]. rewrite N0, N1, Z.eqb_refl. reflexivity.
Qed.

Lemma before_pad_encode2 (x y : Z) :
  is_byte x -> is_byte y ->
  before_pad (encode [x; y])
  = [encode_char (x / 4); encode_char ((x mod 4) * 16 + y / 16);
     encode_char ((y mod 16) * 4)].
Proof.
  intros Hx Hy.
  destruct (sextets_of_bytes x y 0 Hx Hy) as (H0 & H1 & _ & _ & _ & H2);
    [ unfold is_byte; lia | ].
  destruct (encode_char_facts _ H0) as (_ & N0 & _).
  destruct (encode_char_facts _ H1) as (_ & N1 & _).
  destruct (encode_char_facts _ H2) as (_ & N2 & _).
  apply Z.eqb_neq in N0, N1, N2.
  cbn [encode before_pad]. rewrite N0, N1, N2, Z.eqb_refl. reflexivity.
Qed.

Lemma before_pad_encode3 (x y z : Z) (r : list Z) :
  is_byte x -> is_byte y -> is_byte z ->
  before_pad (encode (x :: y :: z :: r))
  = [encode_char (x / 4); encode_char ((x mod 4) * 16 + y / 16);
     encode_char ((y mod 16) * 4 + z / 64); encode_char (z mod 64)]
      ++ before_pad (encode r).
Proof.
  intros Hx Hy Hz.
  destruct (sextets_of_bytes x y z Hx Hy Hz) as (H0 & H1 & H2 & H3 & _ & _).
  destruct (encode_char_facts _ H0) as (_ & N0 & _).
  destruct (encode_char_facts _ H1) as (_ & N1 & _).
  destruct (encode_char_facts _ H2) as (_ & N2 & _).
  destruct (encode_char_facts _ H3) as (_ & N3 & _).
  rewrite encode_cons3. apply before_pad_app.
  repeat (apply Forall_cons; [ assumption | ]). apply Forall_nil.
Qed.

(** A last group of two or three characters, filled with zero bytes. *)
Lemma quad_bytes_one_unpadded (x : Z) :
  is_byte x ->
  quad_bytes (encode_char (x / 4)) (encode_char ((x mod 4) * 16)) 0 0 = [x; 0; 0].
Proof.
  intros Hx.
  destruct (sextets_of_bytes x 0 0 Hx) as (H0 & _ & _ & _ & H1 & _);
    [ unfold is_byte; lia | unfold is_byte; lia | ].
  unfold quad_bytes.
  rewrite (proj1 (encode_char_facts _ H0)), (proj1 (encode_char_facts _ H1)).
  change (sextet_of 0) with 0.
  unfold pack_word.
  replace ((x / 4 * 64 + x mod 4 * 16) * 4096 + (0 * 64 + 0))
    with (65536 * x + 256 * 0 + 0)
    by (unfold is_byte in *; Z.div_mod_to_equations; lia).
  apply bytes_of_word; (assumption || (unfold is_byte; lia)).
Qed.

Lemma quad_bytes_two_unpadded (x y : Z) :
  is_byte x -> is_byte y ->
  quad_bytes (encode_char (x / 4)) (encode_char ((x mod 4) * 16 + y / 16))
             (encode_char ((y mod 16) * 4)) 0
  = [x; y; 0].
Proof.
  intros Hx Hy.
  destruct (sextets_of_bytes x y 0 Hx Hy) as (H0 & H1 & _ & _ & _ & H2);
    [ unfold is_byte; lia | ].
  unfold quad_bytes.
  rewrite (proj1 (encode_char_facts _ H0)), (proj1 (encode_char_facts _ H1)),
          (proj1 (encode_char_facts _ H2)).
  change (sextet_of 0) with 0.
  unfold pack_word.
  replace ((x / 4 * 64 + (x mod 4 * 16 + y / 16)) * 4096 + (y mod 16 * 4 * 64 + 0))
    with (65536 * x + 256 * y + 0)
    by (unfold is_byte in *; Z.div_mod_to_equations; lia).
  apply bytes_of_word; (assumption || (unfold is_byte; lia)).
Qed.

Lemma unpadded_encoding (b : list Z) :
  Forall is_byte b ->
  (exists g, quads (before_pad (encode b)) = b ++ g) /\
  size (before_pad (encode b)) = (4 * size b + 2) / 3.
Proof.
  induction b as [ | x | x y | x y z r IH ] using list_ind3; intros HB.
  - split; [ exists []; reflexivity | reflexivity ].
  - invert_bytes. rewrite before_pad_encode1 by assumption.
    split; [ | reflexivity ].
    exists [0; 0]. cbn [quads]. apply quad_bytes_one_unpadded. assumption.
  - invert_bytes. rewrite before_pad_encode2 by assumption.
    split; [ | reflexivity ].
    exists [0]. cbn [quads]. apply quad_bytes_two_unpadded; assumption.
  - invert_bytes. rewrite before_pad_encode3 by assumption.
    match goal with H : Forall is_byte r |- _ => destruct (IH H) as [[g Eg] Es] end.
    split.
    + exists g. cbn [app]. rewrite quads_cons4, quad_bytes_full by assumption.
      rewrite Eg. reflexivity.
    + unfold size in *. rewrite length_app. cbn [length].
      rewrite Nat2Z.inj_add, Es.
      replace (4 * Z.of_nat (S (S (S (length r)))) + 2)
        with ((4 * Z.of_nat (length r) + 2) + 4 * 3) by lia.
      rewrite Z.div_add by lia. change (Z.of_nat 4) with 4. lia.
Qed.

Lemma Forall_before_pad (P : Z -> Prop) (s : list Z) :
  Forall P s -> Forall P (before_pad s).
Proof.
  induction 1 as [ | c s Hc _ IH ]; cbn [before_pad]; [ constructor | ].
  destruct (c =? pad_char); constructor; assumption.
Qed.

(** X15: the vector decoders accept an encoding whose ['='] are left out:
    on the reference encoding of a non-empty byte sequence of less than
    8388613 bytes, cut before its first ['='], both return the sequence. *)
Theorem vector_decoders_accept_unpadded (b : list Z) :
  Forall is_byte b -> b <> [] -> size b < 8388613 ->
  avx2_decode (before_pad (encode b)) = Returned b /\
  sse4_decode (before_pad (encode b)) = Returned b.
Proof.
  intros HB Hne Hsz.
  destruct (unpadded_encoding b HB) as [[g Eg] Es].
  assert (Hb0 : 0 < size b) by (destruct b; [ contradiction | unfold size; cbn [length]; lia ]).
  set (p := before_pad (encode b)) in *.
  assert (Bp : Forall is_byte p) by (apply Forall_before_pad, encode_is_bytes, HB).
  assert (Np : Forall (fun c => c <> pad_char) p) by apply before_pad_no_pad.
  assert (H2 : 2 <= size p /\ size p - 0 < 11184818 /\ 3 * (size p - 0) / 4 = size b
               /\ (size p - 0) mod 4 <> 1).
  { rewrite Es. Z.div_mod_to_equations. lia. }
  destruct H2 as (H2 & H3 & H4 & H5).
  assert (Ep : trailing_pads3 p = 0).
  { rewrite trailing_pads3_min. unfold trailing_pads.
    rewrite leading_pads_no_pad; [ reflexivity | apply Forall_rev, Np ]. }
  assert (Eo : scan_overruns p = false).
  { unfold scan_overruns. rewrite Ep.
    destruct (Z.eqb_spec (size p) 0); [ lia | ]. apply andb_false_r. }
  assert (Esp : scanned_padding p = 0).
  { unfold scanned_padding. rewrite Ep. destruct (size p <? 3); reflexivity. }
  rewrite avx2_decode_meaning, sse4_decode_meaning
    by (assumption || (unfold size_t_modulus; lia)).
  unfold vector_decode. rewrite Eo, Esp.
  rewrite decoded_size_exact_wide by (assumption || (unfold size_t_modulus; lia)).
  cbn [bind]. rewrite H4, Eg, resize_prefix. split; reflexivity.
Qed.

Lemma vector_decoders_accept_unpadded_witness :
  avx2_decode (before_pad (encode (sv "fooba"))) = Returned (sv "fooba") /\
  sse4_decode (before_pad (encode (sv "fooba"))) = Returned (sv "fooba").
Proof.
  apply (vector_decoders_accept_unpadded (sv "fooba"));
    [ apply bytes_of_string_are_bytes | discriminate | vm_compute; reflexivity ].
Defined.

(** X16: all three decoders, and so [decode] on every CPU, invert the
    reference encoder on every non-empty byte sequence of less than
    8388613 bytes.  The bound is the least length at which the size
    computed in single precision is wrong. *)
Theorem decoders_invert_encode_wide (c : cpu) (b : list Z) :
  Forall is_byte b -> b <> [] -> size b < 8388613 ->
  avx2_decode (encode b) = Returned b /\
  sse4_decode (encode b) = Returned b /\
  fallback_decode (encode b) = Returned b /\
  decode c (encode b) = Returned b.
Proof.
  intros HB Hne Hsz.
  pose proof (encode_is_bytes b HB) as HE.
  pose proof (encode_size b) as Esz.
  destruct (encode_padding b HB Hne) as [Epad Hge].
  destruct (quads_encode b HB) as [g Eg].
  assert (Hb0 : 0 < size b) by (destruct b; [ contradiction | unfold size; cbn [length]; lia ]).
  assert (Hq : (3 * (size (encode b) - trailing_pads3 (encode b))) / 4 = size b
               /\ size (encode b) - trailing_pads3 (encode b) < 11184818
               /\ (size (encode b) - trailing_pads3 (encode b)) mod 4 <> 1
               /\ 0 <= trailing_pads3 (encode b) <= size (encode b)
               /\ size (encode b) < 11184820).
  { rewrite Epad, Esz. Z.div_mod_to_equations. lia. }
  destruct Hq as (Eq & Hq3 & Hq4 & Hq0 & Hq5).
  assert (Ea : avx2_decode (encode b) = Returned b /\ sse4_decode (encode b) = Returned b).
  { rewrite avx2_decode_meaning, sse4_decode_meaning
      by (assumption || (unfold size_t_modulus; lia)).
    unfold vector_decode.
    rewrite scan_overruns_long, scanned_padding_long by lia.
    rewrite decoded_size_exact_wide by (assumption || (unfold size_t_modulus; lia)).
    cbn [bind]. rewrite Eq, Eg, resize_prefix. split; reflexivity. }
  destruct Ea as [Ea Es].
  pose proof (fallback_decode_encode b HB) as Ef.
  repeat match goal with |- _ /\ _ => split end; try assumption.
  unfold decode. destruct (supported (haswell c)); [ exact Ea | ].
  destruct (supported (westmere c)); [ exact Es | exact Ef ].
Qed.

Lemma decoders_invert_encode_wide_witness :
  avx2_decode (encode (sv "foobar")) = Returned (sv "foobar") /\
  sse4_decode (encode (sv "foobar")) = Returned (sv "foobar") /\
  fallback_decode (encode (sv "foobar")) = Returned (sv "foobar") /\
  decode {| haswell := None; westmere := Some true |} (encode (sv "foobar"))
  = Returned (sv "foobar").
Proof.
  apply (decoders_invert_encode_wide {| haswell := None; westmere := Some true |}
                                     (sv "foobar"));
    [ apply bytes_of_string_are_bytes | discriminate | vm_compute; reflexivity ].
Defined.

(** X17: on every non-empty canonical base64 string of less than 11184820
    characters the three decoders return the same bytes, the bytes the
    string stands for, and so does [decode] whatever the CPU supports. *)
Theorem decoders_agree_on_canonical_wide (c : cpu) (s : list Z) :
  canonical_base64 s = true -> s <> [] -> size s < 11184820 ->
  avx2_decode s = Returned (bytes_of_base64 s) /\
  sse4_decode s = Returned (bytes_of_base64 s) /\
  fallback_decode s = Returned (bytes_of_base64 s) /\
  decode c s = Returned (bytes_of_base64 s).
Proof.
  intros Hc Hne Hsz.
  destruct (canonical_base64_is_encoding s Hc) as [HB HE].
  assert (Hb : bytes_of_base64 s <> []).
  { intros E. rewrite E in HE. cbn [encode] in HE. congruence. }
  pose proof (encode_size (bytes_of_base64 s)) as Esz. rewrite HE in Esz.
  assert (Hlt : size (bytes_of_base64 s) < 8388613)
    by (Z.div_mod_to_equations; lia).
  pose proof (encode_is_bytes _ HB) as HS. rewrite HE in HS.
  pose proof (encode_padding _ HB Hb) as [Epad Hge]. rewrite HE in Epad, Hge.
  destruct (quads_encode _ HB) as [g Eg]. rewrite HE in Eg.
  pose proof (fallback_decode_encode _ HB) as Ef. rewrite HE in Ef.
  assert (Hq : (3 * (size s - trailing_pads3 s)) / 4 = size (bytes_of_base64 s)
               /\ size s - trailing_pads3 s < 11184818
               /\ (size s - trailing_pads3 s) mod 4 <> 1
               /\ 0 <= trailing_pads3 s <= size s).
  { rewrite Epad, Esz. Z.div_mod_to_equations. lia. }
  destruct Hq as (Eq & Hq3 & Hq4 & Hq0).
  assert (Ea : avx2_decode s = Returned (bytes_of_base64 s)
               /\ sse4_decode s = Returned (bytes_of_base64 s)).
  { rewrite avx2_decode_meaning, sse4_decode_meaning
      by (assumption || (unfold size_t_modulus; lia)).
    unfold vector_decode.
    rewrite scan_overruns_long, scanned_padding_long by lia.
    rewrite decoded_size_exact_wide by (assumption || (unfold size_t_modulus; lia)).
    cbn [bind]. rewrite Eq, Eg, resize_prefix. split; reflexivity. }
  destruct Ea as [Ea Es].
  repeat match goal with |- _ /\ _ => split end; try assumption.
  unfold decode. destruct (supported (haswell c)); [ exact Ea | ].
  destruct (supported (westmere c)); [ exact Es | exact Ef ].
Qed.

Lemma decoders_agree_on_canonical_wide_witness :
  avx2_decode (sv "Zm9vYg==") = Returned (bytes_of_base64 (sv "Zm9vYg==")) /\
  sse4_decode (sv "Zm9vYg==") = Returned (bytes_of_base64 (sv "Zm9vYg==")) /\
  fallback_decode (sv "Zm9vYg==") = Returned (bytes_of_base64 (sv "Zm9vYg==")) /\
  decode {| haswell := Some true; westmere := None |} (sv "Zm9vYg==")
  = Returned (bytes_of_base64 (sv "Zm9vYg==")).
Proof.
  apply (decoders_agree_on_canonical_wide {| haswell := Some true; westmere := None |}
                                          (sv "Zm9vYg=="));
    [ reflexivity | discriminate | vm_compute; reflexivity ].
Defined.

Lemma scan_overruns_false (s : list Z) :
  s <> [] -> s <> [pad_char; pad_char; pad_char] -> scan_overruns s = false.
Proof.
  intros Hne H3. unfold scan_overruns.
  destruct (Z.eqb_spec (size s) 0) as [E0 | _].
  - destruct s; [ contradiction | unfold size in E0; cbn [length] in E0; lia ].
  - cbn [orb]. destruct (Z.eqb_spec (size s) 3) as [E3 | ]; [ | reflexivity ].
    cbn [andb]. apply Z.eqb_neq. intros Ep. apply H3.
    destruct s as [ | a [ | b [ | c [ | d r ] ] ] ]; try discriminate E3.
    + revert Ep. unfold trailing_pads3. cbn [rev app firstn leading_pads].
      destruct (Z.eqb_spec c pad_char); [ | lia ].
      destruct (Z.eqb_spec b pad_char); [ | lia ].
      destruct (Z.eqb_spec a pad_char); [ | lia ].
      intros _. subst. reflexivity.
    + unfold size in E3. cbn [length] in E3. lia.
Qed.

(** X22: on every string of any size except the empty one and ["==="]
    both vector decoders return, and they return the same bytes: the copy
    into the padded input, every read of the padding scan, every block load
    and every store stay inside their vectors, the loops end, and the size
    computed in single precision always fits [size_t].  (A vector is taken
    to be allocated whatever its size.) *)
Theorem vector_decoders_return (s : list Z) :
  Forall is_byte s -> size s + 31 < size_t_modulus ->
  s <> [] -> s <> [pad_char; pad_char; pad_char] ->
  exists out, avx2_decode s = Returned out /\ sse4_decode s = Returned out.
Proof.
  intros HB Hlt Hne H3.
  rewrite avx2_decode_meaning, sse4_decode_meaning by (assumption || lia).
  unfold vector_decode. rewrite (scan_overruns_false s Hne H3).
  assert (Hp : 0 <= scanned_padding s <= size s).
  { unfold scanned_padding. pose proof (trailing_pads3_bounds s).
    destruct (Z.ltb_spec (size s) 3); unfold size in *; lia. }
  destruct (decoded_size_returns (size s) (scanned_padding s) Hp ltac:(lia)) as [k Ek].
  rewrite Ek. cbn [bind]. eexists. split; reflexivity.
Qed.

Lemma vector_decoders_return_witness :
  exists out, avx2_decode (sv "Zg==") = Returned out /\ sse4_decode (sv "Zg==") = Returned out.
Proof.
  apply (vector_decoders_return (sv "Zg=="));
    [ apply bytes_of_string_are_bytes | vm_compute; reflexivity
    | discriminate | discriminate ].
Defined.

(** *** Instances of the theorems on the decoders *)

Lemma vector_decoders_on_strings_witness :
  avx2_decode (sv "Zm9vYg==") = vector_decode 32 (sv "Zm9vYg==") /\
  sse4_decode (sv "Zm9vYg==") = vector_decode 16 (sv "Zm9vYg==").
Proof.
  apply (vector_decoders_on_strings "Zm9vYg=="). vm_compute. reflexivity.
Defined.

Lemma vector_output_size_witness :
  exists out,
    avx2_decode (sv "Zm9vYg==") = Returned out /\
    sse4_decode (sv "Zm9vYg==") = Returned out /\
    size out = 3 * (size (sv "Zm9vYg==") - trailing_pads3 (sv "Zm9vYg==")) / 4.
Proof.
  apply (vector_output_size (sv "Zm9vYg=="));
    [ apply bytes_of_string_are_bytes | vm_compute; discriminate | vm_compute; reflexivity ].
Defined.

Lemma vector_decoders_agree_witness :
  returns (avx2_decode (sv "Zm9vYg==")) = returns (sse4_decode (sv "Zm9vYg==")) /\
  (forall out,
     avx2_decode (sv "Zm9vYg==") = Returned out
     <-> sse4_decode (sv "Zm9vYg==") = Returned out).
Proof.
  apply (vector_decoders_agree (sv "Zm9vYg=="));
    [ apply bytes_of_string_are_bytes | vm_compute; reflexivity ].
Defined.

(** ** Where the vector decoders and the scalar decoder part *)

Lemma quad_sextets (v0 v1 v2 v3 : Z) :
  0 <= v0 < 64 -> 0 <= v1 < 64 -> 0 <= v2 < 64 -> 0 <= v3 < 64 ->
  [ (pack_word v0 v1 v2 v3 / 256 / 256) mod 256; (pack_word v0 v1 v2 v3 / 256) mod 256;
    pack_word v0 v1 v2 v3 mod 256 ]
  = [ v0 * 4 + v1 / 16; (v1 mod 16) * 16 + v2 / 4; (v2 mod 4) * 64 + v3 ].
Proof.
  intros H0 H1 H2 H3.
  destruct (bytes_of_sextets v0 v1 v2 v3 H0 H1 H2 H3) as (Bx & By & Bz & _).
  cbv zeta in Bx, By, Bz.
  replace (pack_word v0 v1 v2 v3)
    with (65536 * (v0 * 4 + v1 / 16) + 256 * ((v1 mod 16) * 16 + v2 / 4)
          + ((v2 mod 4) * 64 + v3))
    by (unfold pack_word; Z.div_mod_to_equations; lia).
  apply bytes_of_word; assumption.
Qed.

Lemma quad_one_pad (v0 v1 v2 : Z) :
  0 <= v0 < 64 -> 0 <= v1 < 64 -> 0 <= v2 < 64 ->
  (v2 mod 4 <> 3 ->
   (pack_word v0 v1 v2 65 / 256 / 256) mod 256 = v0 * 4 + v1 / 16 /\
   (pack_word v0 v1 v2 65 / 256) mod 256 = (v1 mod 16) * 16 + v2 / 4) /\
  (v2 mod 4 = 3 ->
   (pack_word v0 v1 v2 65 / 256) mod 256 <> (v1 mod 16) * 16 + v2 / 4).
Proof.
  intros H0 H1 H2. unfold pack_word.
  split; [ intros Hm; split | intros Hm ]; Z.div_mod_to_equations; lia.
Qed.

Lemma quad_two_pads (v0 v1 : Z) :
  0 <= v0 < 64 -> 0 <= v1 < 64 ->
  (v1 mod 16 <> 15 -> (pack_word v0 v1 65 65 / 256 / 256) mod 256 = v0 * 4 + v1 / 16) /\
  (v1 mod 16 = 15 -> (pack_word v0 v1 65 65 / 256 / 256) mod 256 <> v0 * 4 + v1 / 16).
Proof.
  intros H0 H1. unfold pack_word.
  split; intros Hm; Z.div_mod_to_equations; lia.
Qed.

Lemma eight_sextets_0 (v0 v1 s2 s3 : Z) :
  0 <= v0 < 64 -> 0 <= v1 < 64 ->
  nth 0 (eight_bit_chars [v0; v1; s2; s3]) 0 = v0 * 4 + v1 / 16.
Proof.
  intros H0 H1.
  destruct (bytes_of_sextets v0 v1 0 0 H0 H1 ltac:(lia) ltac:(lia))
    as (Bx & By & _ & Ex & Ey & _).
  cbv zeta in *.
  transitivity (nth 0 (eight_bit_chars
                         [(v0 * 4 + v1 / 16) / 4;
                          (v0 * 4 + v1 / 16) mod 4 * 16 + (v1 mod 16 * 16 + 0 / 4) / 16;
                          s2; s3]) 0).
  - rewrite Ex, Ey. reflexivity.
  - apply eight_bit_chars_0; assumption.
Qed.

Lemma eight_sextets_1 (s0 v1 v2 s3 : Z) :
  0 <= v1 < 64 -> 0 <= v2 < 64 ->
  nth 1 (eight_bit_chars [s0; v1; v2; s3]) 0 = (v1 mod 16) * 16 + v2 / 4.
Proof.
  intros H1 H2.
  assert (E1 : v1 = ((v1 / 16) mod 4) * 16 + ((v1 mod 16) * 16 + v2 / 4) / 16)
    by (Z.div_mod_to_equations; lia).
  assert (E2 : v2 = (((v1 mod 16) * 16 + v2 / 4) mod 16) * 4 + ((v2 mod 4) * 64) / 64)
    by (Z.div_mod_to_equations; lia).
  transitivity (nth 1 (eight_bit_chars
                         [s0;
                          ((v1 / 16) mod 4) * 16 + ((v1 mod 16) * 16 + v2 / 4) / 16;
                          (((v1 mod 16) * 16 + v2 / 4) mod 16) * 4 + ((v2 mod 4) * 64) / 64;
                          s3]) 0).
  - rewrite <- E1, <- E2. reflexivity.
  - apply eight_bit_chars_1; unfold is_byte; Z.div_mod_to_equations; lia.
Qed.

Lemma eight_sextets (v0 v1 v2 v3 : Z) :
  0 <= v0 < 64 -> 0 <= v1 < 64 -> 0 <= v2 < 64 -> 0 <= v3 < 64 ->
  eight_bit_chars [v0; v1; v2; v3]
  = [ v0 * 4 + v1 / 16; (v1 mod 16) * 16 + v2 / 4; (v2 mod 4) * 64 + v3 ].
Proof.
  intros H0 H1 H2 H3.
  destruct (bytes_of_sextets v0 v1 v2 v3 H0 H1 H2 H3)
    as (Bx & By & Bz & Ex & Ey & Ez & Ew & _).
  cbv zeta in *.
  rewrite <- (eight_bit_chars_full _ _ _ Bx By Bz).
  rewrite Ex, Ey, Ez, Ew. reflexivity.
Qed.

(** A full group of characters of the alphabet gives the same three bytes
    in the vector decoders and in the scalar decoder. *)
Lemma quad_bytes_alphabet (c0 c1 c2 c3 : Z) :
  in_alphabet c0 = true -> in_alphabet c1 = true ->
  in_alphabet c2 = true -> in_alphabet c3 = true ->
  quad_bytes c0 c1 c2 c3 = eight_bit_chars (map find_six_bit [c0; c1; c2; c3]).
Proof.
  intros A0 A1 A2 A3.
  destruct (alphabet_sextet _ A0) as [E0 V0]. destruct (alphabet_sextet _ A1) as [E1 V1].
  destruct (alphabet_sextet _ A2) as [E2 V2]. destruct (alphabet_sextet _ A3) as [E3 V3].
  unfold quad_bytes. cbv zeta. rewrite E0, E1, E2, E3. cbn [map].
  rewrite eight_sextets by assumption. apply quad_sextets; assumption.
Qed.

Lemma in_alphabet_not_pad (c : Z) : in_alphabet c = true -> c <> pad_char.
Proof. intros H. apply in_alphabet_facts. exact H. Qed.

Lemma resize_short (a b c : Z) :
  resize [a; b; c] 2 = [a; b] /\ resize [a; b; c] 1 = [a] /\ resize [a; b; c] 3 = [a; b; c].
Proof. repeat split. Qed.

(** The bytes both kinds of decoder make of a well-formed string. *)
Lemma well_formed_values (s : list Z) :
  well_formed_base64 s = true -> s <> [] ->
  Forall is_byte s /\ 4 <= size s /\ size s mod 4 = 0 /\ 0 <= trailing_pads3 s <= 2 /\
  (resize (quads s) (3 * (size s - trailing_pads3 s) / 4) = scalar_groups (before_pad s)
   <-> pad_bits_all_ones s = false).
Proof.
  induction s as [ | c0 | c0 c1 | c0 c1 c2 | c0 c1 c2 c3 r IH ] using list_ind4;
    intros H Hne; try discriminate H; [ contradiction | ].
  cbn [well_formed_base64] in H.
  apply andb_true_iff in H as [H01 H]. apply andb_true_iff in H01 as [A0 A1].
  destruct (alphabet_sextet _ A0) as [E0 V0]. destruct (alphabet_sextet _ A1) as [E1 V1].
  pose proof (in_alphabet_is_byte _ A0) as B0. pose proof (in_alphabet_is_byte _ A1) as B1.
  pose proof (in_alphabet_not_pad _ A0) as N0. pose proof (in_alphabet_not_pad _ A1) as N1.
  apply Z.eqb_neq in N0, N1.
  destruct r as [ | r0 r ].
  - (* the last group *)
    change (size [c0; c1; c2; c3]) with 4.
    unfold trailing_pads3. cbn [rev app firstn leading_pads quads pad_bits_all_ones before_pad].
    rewrite app_nil_r. rewrite N0, N1.
    destruct (Z.eqb_spec c3 pad_char) as [-> | N3].
    + destruct (Z.eqb_spec c2 pad_char) as [-> | N2].
      * (* two pads *)
        change (3 * (4 - (1 + (1 + 0))) / 4) with 1.
        split; [ repeat (apply Forall_cons; [ assumption || (unfold is_byte, pad_char; lia) | ]);
                 apply Forall_nil | ].
        split; [ lia | ]. split; [ reflexivity | ]. split; [ lia | ].
        unfold quad_bytes. cbv zeta. rewrite E0, E1. change (sextet_of pad_char) with 65.
        rewrite (proj1 (proj2 (resize_short _ _ _))).
        cbn [scalar_groups map]. rewrite eight_bit_chars_parts. cbn [firstn].
        rewrite eight_sextets_0 by assumption.
        destruct (quad_two_pads _ _ V0 V1) as [Hok Hbad].
        destruct (Z.eqb_spec (find_six_bit c1 mod 16) 15) as [E15 | N15].
        -- split; [ intros E; exfalso | discriminate ].
           apply (Hbad E15). injection E. auto.
        -- split; [ reflexivity | intros _ ]. rewrite (Hok N15). reflexivity.
      * (* one pad *)
        pose proof (alphabet_sextet _ H) as [E2 V2].
        pose proof (in_alphabet_is_byte _ H) as B2.
        change (3 * (4 - (1 + 0)) / 4) with 2.
        split; [ repeat (apply Forall_cons; [ assumption || (unfold is_byte, pad_char; lia) | ]);
                 apply Forall_nil | ].
        split; [ lia | ]. split; [ reflexivity | ]. split; [ lia | ].
        unfold quad_bytes. cbv zeta. rewrite E0, E1, E2. change (sextet_of pad_char) with 65.
        rewrite (proj1 (resize_short _ _ _)).
        cbn [scalar_groups map]. rewrite eight_bit_chars_parts. cbn [firstn].
        rewrite eight_sextets_0, eight_sextets_1 by assumption.
        destruct (quad_one_pad _ _ _ V0 V1 V2) as [Hok Hbad].
        destruct (Z.eqb_spec (find_six_bit c2 mod 4) 3) as [E3 | N3].
        -- split; [ intros E; exfalso | discriminate ].
           apply (Hbad E3). injection E. auto.
        -- split; [ reflexivity | intros _ ].
           destruct (Hok N3) as [Ex Ey]. rewrite Ex, Ey. reflexivity.
    + (* no pad *)
      apply andb_true_iff in H as [A2 A3].
      pose proof (in_alphabet_is_byte _ A2) as B2. pose proof (in_alphabet_is_byte _ A3) as B3.
      pose proof (in_alphabet_not_pad _ A2) as N2. apply Z.eqb_neq in N2.
      rewrite N2. change (3 * (4 - 0) / 4) with 3.
      split; [ repeat (apply Forall_cons; [ assumption | ]); apply Forall_nil | ].
      split; [ lia | ]. split; [ reflexivity | ]. split; [ lia | ].
      split; [ reflexivity | intros _ ].
      rewrite quad_bytes_alphabet by assumption.
      rewrite eight_bit_chars_parts. reflexivity.
  - (* a group followed by more *)
    apply andb_true_iff in H as [H23 Hr]. apply andb_true_iff in H23 as [A2 A3].
    pose proof (in_alphabet_is_byte _ A2) as B2. pose proof (in_alphabet_is_byte _ A3) as B3.
    pose proof (in_alphabet_not_pad _ A2) as N2. pose proof (in_alphabet_not_pad _ A3) as N3.
    apply Z.eqb_neq in N0, N1.
    destruct (IH Hr ltac:(discriminate)) as (HB & H4 & Hm & Hp & Hiff).
    set (t := r0 :: r) in *.
    assert (Es : size (c0 :: c1 :: c2 :: c3 :: t) = 4 + size t)
      by (unfold size; cbn [length]; lia).
    assert (Ep : trailing_pads3 (c0 :: c1 :: c2 :: c3 :: t) = trailing_pads3 t).
    { apply (trailing_pads3_app [c0; c1; c2; c3] t). unfold size in H4. lia. }
    rewrite Es, Ep.
    split; [ repeat (apply Forall_cons; [ assumption | ]); exact HB | ].
    split; [ lia | ].
    split; [ replace (4 + size t) with (size t + 1 * 4) by lia; rewrite Z.mod_add by lia;
             exact Hm | ].
    split; [ exact Hp | ].
    change (pad_bits_all_ones (c0 :: c1 :: c2 :: c3 :: t)) with (pad_bits_all_ones t).
    rewrite <- Hiff.
    change (before_pad (c0 :: c1 :: c2 :: c3 :: t))
      with (before_pad ([c0; c1; c2; c3] ++ t)).
    rewrite (before_pad_app [c0; c1; c2; c3] t)
      by (repeat (apply Forall_cons; [ assumption | ]); apply Forall_nil).
    cbn [app]. rewrite scalar_groups_cons4, quads_cons4.
    rewrite quad_bytes_alphabet by assumption.
    set (h := eight_bit_chars (map find_six_bit [c0; c1; c2; c3])).
    assert (Eh : size h = 3) by reflexivity.
    replace (3 * (4 + size t - trailing_pads3 t) / 4)
      with (size h + 3 * (size t - trailing_pads3 t) / 4)
      by (rewrite Eh; Z.div_mod_to_equations; lia).
    rewrite resize_app_exact by (apply Z.div_pos; lia).
    split; [ apply app_inv_head | intros ->; reflexivity ].
Qed.

(** X18: on base64 that is well formed by its shape, of less than
    11184820 characters, the two vector decoders return the same bytes, and
    the scalar decoder returns these bytes too unless the bits of the last
    group that encode no data are all ones: the vector decoders translate
    ['='] to 65, and the carry of its low bits then changes the last
    byte.  Canonical base64 has these bits zero. *)
Theorem decoders_agree_unless_pad_bits_all_ones (s : list Z) :
  well_formed_base64 s = true -> s <> [] -> size s < 11184820 ->
  avx2_decode s = sse4_decode s /\
  returns (avx2_decode s) = true /\
  (avx2_decode s = fallback_decode s <-> pad_bits_all_ones s = false).
Proof.
  intros Hw Hne Hsz.
  destruct (well_formed_values s Hw Hne) as (HB & H4 & Hm & Hp & Hiff).
  assert (Hk : (size s - trailing_pads3 s) mod 4 <> 1
               /\ size s - trailing_pads3 s < 11184818)
    by (Z.div_mod_to_equations; lia).
  destruct Hk as [Hk1 Hk2].
  rewrite avx2_decode_meaning, sse4_decode_meaning
    by (assumption || (unfold size_t_modulus; lia)).
  rewrite fallback_decode_meaning. unfold vector_decode.
  rewrite scan_overruns_long, scanned_padding_long by lia.
  rewrite decoded_size_exact_wide by (assumption || (unfold size_t_modulus; lia)).
  cbn [bind returns]. split; [ reflexivity | ]. split; [ reflexivity | ].
  rewrite <- Hiff. split; [ apply Returned_inj | intros ->; reflexivity ].
Qed.

Lemma decoders_agree_unless_pad_bits_all_ones_witness :
  avx2_decode (sv "QUJDRP==") = sse4_decode (sv "QUJDRP==") /\
  returns (avx2_decode (sv "QUJDRP==")) = true /\
  (avx2_decode (sv "QUJDRP==") = fallback_decode (sv "QUJDRP==")
   <-> pad_bits_all_ones (sv "QUJDRP==") = false).
Proof.
  apply (decoders_agree_unless_pad_bits_all_ones (sv "QUJDRP=="));
    [ reflexivity | discriminate | vm_compute; reflexivity ].
Defined.
